(** * LibrePCB board design rule check: a shallow embedding

    Source: [libs/librepcb/core/project/board/drc/boarddesignrulecheck.cpp]
    (class [BoardDesignRuleCheck]) and
    [CommandLineInterface::prepareRuleCheckMessages].

    The engine is embedded as a state-and-exception monad over the members of
    [BoardDesignRuleCheck]; the polygon library (ClipperLib behind
    [ClipperHelpers]), the path generator ([BoardClipperPathGenerator]) and
    the path primitives are an interface ([Geometry]) because their code is
    outside the checked sources. *)

From Stdlib Require Import ZArith Lia.
From Stdlib Require Import Ascii DecimalString.
From stdpp Require Import base list gmap strings sorting.

Local Open Scope Z_scope.

(** ** Length: a [qint64] number of nanometres *)

Module Length.
Definition min_val : Z := - 2 ^ 63.
Definition max_val : Z := 2 ^ 63 - 1.

Definition inRange (z : Z) : Prop := min_val ≤ z ≤ max_val.

(** Two's complement wrap-around of the 64 bit representation. *)
Definition wrap (z : Z) : Z := (z + 2 ^ 63) `mod` 2 ^ 64 - 2 ^ 63.

Definition add (a b : Z) : Z := wrap (a + b).
Definition sub (a b : Z) : Z := wrap (a - b).
Definition mul (a b : Z) : Z := wrap (a * b).
(** [Length::operator/] is the integer division of C++: it truncates. *)
Definition div (a b : Z) : Z := wrap (a `quot` b).
Definition neg (a : Z) : Z := wrap (- a).

End Length.

(** [UnsignedLength] and [PositiveLength] are [Length] values whose
    constructor checks the constraint. *)
Definition isUnsignedLength (z : Z) : Prop := 0 ≤ z ≤ Length.max_val.
Definition isPositiveLength (z : Z) : Prop := 0 < z ≤ Length.max_val.

(** ** Exceptions *)

(** Modelled from the spec: the exception hierarchy of the core
    ([Exception] with [LogicError] and [RuntimeError]); the header declaring
    it is not part of the checked sources. *)
Inductive Exception : Type :=
| LogicError (msg : string)
| RuntimeError (msg : string).

(** A computation that either throws or yields a value, without touching the
    engine. *)
Definition Exc (A : Type) : Type := Exception + A.

Definition throwExc {A} (e : Exception) : Exc A := inl e.

#[global] Instance Exc_ret : MRet Exc := λ A a, inr a.
#[global] Instance Exc_bind : MBind Exc := λ A B f m,
  match m with
  | inl e => inl e
  | inr a => f a
  end.

(** The constructors of the constrained length types throw on a violated
    constraint. *)
Definition mkUnsignedLength (z : Z) : Exc Z :=
  if decide (0 ≤ z) then inr z
  else inl (RuntimeError "UnsignedLength constraint violated").

Definition mkPositiveLength (z : Z) : Exc Z :=
  if decide (0 < z) then inr z
  else inl (RuntimeError "PositiveLength constraint violated").

(** [PositiveLength operator+(PositiveLength, UnsignedLength)] builds a
    [PositiveLength] from the 64 bit sum. *)
Definition PositiveLength_add (a b : Z) : Exc Z :=
  mkPositiveLength (Length.add a b).

(** ** Geometry vocabulary *)

(** A [Uuid] is a 128 bit value. *)
Definition Uuid : Type := Z.
Definition Point : Type := (Z * Z)%type.
Definition Angle : Type := Z.

(** Modelled from the spec: angles count 1/1000 degree; [Angle::deg90()]. *)
Definition Angle_deg90 : Angle := 90000.

Record Vertex : Type := mkVertex {
  getPos : Point;
  getAngle : Angle
}.

(** [Path]: the ordered vertices. *)
Definition Path : Type := list Vertex.

(** Modelled from the spec: the layer enumeration; the class [Layer] is not
    part of the checked sources. Pointers to layers are compared by
    identity in the engine, which is equality of the enumeration here. *)
Inductive Layer : Type :=
| boardOutlines
| topCopper
| innerCopper (n : nat)
| botCopper
| topCourtyard
| botCourtyard
| topDocumentation
| botDocumentation
| topPlacement
| botPlacement
| otherLayer (id : nat).

#[global] Instance Layer_eq_dec : EqDecision Layer.
Proof. solve_decision. Defined.

(** A net signal is referenced by pointer; [None] is the null pointer. *)
Definition NetSignal : Type := Uuid.

Record Transform : Type := mkTransform {
  tf_position : Point;
  tf_rotation : Angle;
  tf_mirrored : bool
}.

(** [Transform()] *)
Definition Transform_default : Transform := mkTransform (0, 0) 0 false.

(** ** Board model *)

Record Via : Type := mkVia {
  via_uuid : Uuid;
  via_position : Point;
  via_drillDiameter : Z;
  via_size : Z
}.

Record NetLine : Type := mkNetLine {
  nl_uuid : Uuid;
  nl_layer : Layer;
  nl_width : Z;
  nl_startPos : Point;
  nl_endPos : Point
}.

Record NetPoint : Type := mkNetPoint {
  np_uuid : Uuid;
  np_position : Point;
  np_isUsed : bool
}.

Record NetSegment : Type := mkNetSegment {
  ns_uuid : Uuid;
  ns_netSignal : option NetSignal;
  ns_vias : list Via;
  ns_netLines : list NetLine;
  ns_netPoints : list NetPoint;
  ns_isUsed : bool
}.

Record Plane : Type := mkPlane {
  plane_uuid : Uuid;
  plane_layer : Layer;
  plane_netSignal : NetSignal;
  plane_minWidth : Z;
  plane_outline : Path
}.

Record Polygon : Type := mkPolygon {
  polygon_uuid : Uuid;
  polygon_layer : Layer;
  polygon_lineWidth : Z;
  polygon_filled : bool;
  polygon_path : Path
}.

Record Circle : Type := mkCircle {
  circle_uuid : Uuid;
  circle_layer : Layer;
  circle_lineWidth : Z;
  circle_filled : bool;
  circle_center : Point;
  circle_diameter : Z
}.

Record StrokeText : Type := mkStrokeText {
  text_uuid : Uuid;
  text_layer : Layer;
  text_strokeWidth : Z;
  text_position : Point;
  text_rotation : Angle;
  text_mirrored : bool
}.

(** [BI_StrokeText]: the text object and its generated character paths. *)
Record BI_StrokeText : Type := mkBIStrokeText {
  getTextObj : StrokeText;
  getPaths : list Path
}.

Record Hole : Type := mkHole {
  hole_uuid : Uuid;
  hole_diameter : Z;
  hole_path : Path
}.

Record PadHole : Type := mkPadHole {
  padhole_uuid : Uuid;
  padhole_diameter : Z;
  padhole_path : Path
}.

(** Modelled from the spec: the geometry of a pad on one layer (shape, width,
    height, corner radius ratio, custom outline). The engine only asks
    whether its filled area contains the origin. *)
Inductive PadShape : Type :=
| RoundedRect
| RoundedOctagon
| Stroke
| Custom.

Record PadGeometry : Type := mkPadGeometry {
  pg_shape : PadShape;
  pg_width : Z;
  pg_height : Z;
  pg_cornerRadius : Z;
  pg_path : Path
}.

Record FootprintPad : Type := mkFootprintPad {
  pad_uuid : Uuid;
  pad_position : Point;
  pad_rotation : Angle;
  pad_mirrored : bool;
  pad_libPosition : Point;
  pad_libRotation : Angle;
  pad_holes : list PadHole;
  pad_isOnLayer : Layer → bool;
  pad_compSigInstNetSignal : option NetSignal;
  pad_netLines : list NetLine;
  pad_geometries : Layer → list PadGeometry
}.

Record Footprint : Type := mkFootprint {
  fpt_polygons : list Polygon;
  fpt_circles : list Circle;
  fpt_holes : list Hole
}.

Record ComponentInstance : Type := mkComponentInstance {
  cmp_uuid : Uuid;
  cmp_isSchematicOnly : bool;
  cmp_defaultDeviceUuid : option Uuid
}.

Record Device : Type := mkDevice {
  dev_uuid : Uuid;
  dev_position : Point;
  dev_rotation : Angle;
  dev_mirrored : bool;
  dev_componentInstance : ComponentInstance;
  dev_libDeviceUuid : Uuid;
  dev_libFootprint : Footprint;
  dev_pads : list FootprintPad;
  dev_strokeTexts : list BI_StrokeText
}.

Record AirWire : Type := mkAirWire {
  aw_p1 : Uuid * Point;
  aw_p2 : Uuid * Point;
  aw_netSignal : option NetSignal
}.

Record Board : Type := mkBoard {
  getCopperLayers : list Layer;
  getNetSegments : list NetSegment;
  getPlanes : list Plane;
  getPolygons : list Polygon;
  getStrokeTexts : list BI_StrokeText;
  getHoles : list Hole;
  getDeviceInstances : list Device;
  getAirWires : list AirWire;
  getComponentInstances : list ComponentInstance
}.

(** [Board::getDeviceInstanceByComponentUuid] *)
Definition getDeviceInstanceByComponentUuid (b : Board) (u : Uuid)
  : option Device :=
  find (λ d, bool_decide (cmp_uuid (dev_componentInstance d) = u))
       (getDeviceInstances b).

Definition Transform_ofDevice (d : Device) : Transform :=
  mkTransform (dev_position d) (dev_rotation d) (dev_mirrored d).

Definition Transform_ofText (t : StrokeText) : Transform :=
  mkTransform (text_position t) (text_rotation t) (text_mirrored t).

Definition Transform_ofPad (p : FootprintPad) : Transform :=
  mkTransform (pad_position p) (pad_rotation p) (pad_mirrored p).

(** [Transform(pad->getLibPad().getPosition(), pad->getLibPad().getRotation())] *)
Definition Transform_ofLibPad (p : FootprintPad) : Transform :=
  mkTransform (pad_libPosition p) (pad_libRotation p) false.

(** ** Settings *)

(** Modelled from the spec: [BoardDesignRuleCheckSettings::AllowedSlots] with
    its enumerators in declaration order; the engine compares them with [<]. *)
Module AllowedSlots.
Inductive t : Type :=
| None
| SingleSegmentStraight
| MultiSegmentStraight
| Any.

Definition toInt (a : t) : Z :=
  match a with
  | None => 0
  | SingleSegmentStraight => 1
  | MultiSegmentStraight => 2
  | Any => 3
  end.

Definition ltb (a b : t) : bool := toInt a <? toInt b.

#[global] Instance eq_dec : EqDecision t.
Proof. solve_decision. Defined.
End AllowedSlots.

Record BoardDesignRuleCheckSettings : Type := mkSettings {
  getMinCopperWidth : Z;
  getMinCopperCopperClearance : Z;
  getMinCopperBoardClearance : Z;
  getMinCopperNpthClearance : Z;
  getMinDrillDrillClearance : Z;
  getMinDrillBoardClearance : Z;
  getMinPthAnnularRing : Z;
  getMinNpthDrillDiameter : Z;
  getMinPthDrillDiameter : Z;
  getMinNpthSlotWidth : Z;
  getMinPthSlotWidth : Z;
  getAllowedNpthSlots : AllowedSlots.t;
  getAllowedPthSlots : AllowedSlots.t;
  getMinOutlineToolDiameter : Z
}.

(** Modelled from the spec: the engine constant [maxArcTolerance()], 5 µm. *)
Definition maxArcTolerance : Z := 5000.

(** ** Holes and slots *)

(** Modelled from the spec: a path is curved when it has an arc vertex, a
    vertex whose sweep angle is not zero ([Path::isCurved]). *)
Definition Path_isCurved (p : Path) : bool :=
  existsb (λ v, negb (getAngle v =? 0)) p.

(** Modelled from the spec: a path is closed when its first position equals
    its last position ([Path::isClosed]). *)
Definition Path_isClosed (p : Path) : bool :=
  match p, last p with
  | v :: _, Some w => bool_decide (getPos v = getPos w)
  | _, _ => false
  end.

(** The template parameter [THole] of [requiresHoleSlotWarning] and
    [getHoleLocation]: what the engine asks of a hole. *)
Class THole (H : Type) : Type := {
  getUuid : H → Uuid;
  getDiameter : H → Z;
  getPath : H → Path;
  isSlot : H → bool;
  isMultiSegmentSlot : H → bool;
  isCurvedSlot : H → bool
}.

(** Modelled from the spec: the slot predicates of [Hole] and [PadHole],
    which are declared outside the checked sources. The spec classifies a
    hole by its path: a 1-vertex path is a round drill; a slot is a hole
    that is not round, so its path has more vertices; a multi-segment slot
    has 3 or more vertices; a curved slot is a slot with an arc vertex. *)
#[global] Instance Hole_THole : THole Hole := {|
  getUuid := hole_uuid;
  getDiameter := hole_diameter;
  getPath := hole_path;
  isSlot h := bool_decide (1 < length (hole_path h))%nat;
  isMultiSegmentSlot h := bool_decide (2 < length (hole_path h))%nat;
  isCurvedSlot h :=
    bool_decide (1 < length (hole_path h))%nat && Path_isCurved (hole_path h)
|}.

#[global] Instance PadHole_THole : THole PadHole := {|
  getUuid := padhole_uuid;
  getDiameter := padhole_diameter;
  getPath := padhole_path;
  isSlot h := bool_decide (1 < length (padhole_path h))%nat;
  isMultiSegmentSlot h := bool_decide (2 < length (padhole_path h))%nat;
  isCurvedSlot h :=
    bool_decide (1 < length (padhole_path h))%nat
    && Path_isCurved (padhole_path h)
|}.

(** [BoardDesignRuleCheck::requiresHoleSlotWarning] *)
Definition requiresHoleSlotWarning `{THole H} (hole : H)
    (allowed : AllowedSlots.t) : bool :=
  if isCurvedSlot hole && AllowedSlots.ltb allowed AllowedSlots.Any
  then true
  else if isMultiSegmentSlot hole
          && AllowedSlots.ltb allowed AllowedSlots.MultiSegmentStraight
  then true
  else if isSlot hole
          && AllowedSlots.ltb allowed AllowedSlots.SingleSegmentStraight
  then true
  else false.

(** ** Messages *)

(** The board object a message is about: the [BI_Base] item, or the library
    object together with the device that owns it ([None] for an object of
    the board itself). *)
Inductive ObjRef : Type :=
| ObjVia (via : Uuid)
| ObjNetLine (netLine : Uuid)
| ObjPlane (plane : Uuid)
| ObjPad (pad : Uuid)
| ObjDevice (device : Uuid)
| ObjBI_Hole (hole : Uuid)
| ObjBI_Polygon (polygon : Uuid)
| ObjBI_StrokeText (text : Uuid)
| ObjPolygon (device : option Uuid) (polygon : Uuid)
| ObjCircle (device : option Uuid) (circle : Uuid)
| ObjStrokeText (device : option Uuid) (text : Uuid)
| ObjHole (device : option Uuid) (hole : Uuid)
| ObjPadHole (pad : Uuid) (hole : Uuid).

(** One constructor per message class of [boarddesignrulecheckmessages.h],
    with the arguments the engine passes. *)
Inductive DrcMsg : Type :=
| DrcMsgMinimumWidthViolation (obj : ObjRef) (minWidth : Z)
    (locations : list Path)
| DrcMsgCopperCopperClearanceViolation
    (layer1 : option Layer) (net1 : option NetSignal) (item1 : ObjRef)
    (polygon1 circle1 : option Uuid)
    (layer2 : option Layer) (net2 : option NetSignal) (item2 : ObjRef)
    (polygon2 circle2 : option Uuid)
    (clearance : Z) (locations : list Path)
| DrcMsgCopperBoardClearanceViolation (obj : ObjRef) (clearance : Z)
    (locations : list Path)
| DrcMsgCopperHoleClearanceViolation (device : option Uuid) (hole : Uuid)
    (clearance : Z) (locations : list Path)
| DrcMsgDrillDrillClearanceViolation (item1 : ObjRef) (hole1 : Uuid)
    (item2 : ObjRef) (hole2 : Uuid) (clearance : Z) (locations : list Path)
| DrcMsgDrillBoardClearanceViolation (obj : ObjRef) (clearance : Z)
    (locations : list Path)
| DrcMsgMinimumAnnularRingViolation (obj : ObjRef) (annularWidth : Z)
    (locations : list Path)
| DrcMsgMinimumDrillDiameterViolation (obj : ObjRef) (minDiameter : Z)
    (locations : list Path)
| DrcMsgMinimumSlotWidthViolation (obj : ObjRef) (minWidth : Z)
    (locations : list Path)
| DrcMsgForbiddenSlot (obj : ObjRef) (locations : list Path)
| DrcMsgInvalidPadConnection (pad : Uuid) (layer : Layer)
    (locations : list Path)
| DrcMsgCourtyardOverlap (device1 device2 : Uuid) (locations : list Path)
| DrcMsgOpenBoardOutlinePolygon (device : option Uuid) (polygon : Uuid)
    (locations : list Path)
| DrcMsgMissingBoardOutline
| DrcMsgMultipleBoardOutlines (locations : list Path)
| DrcMsgMinimumBoardOutlineInnerRadiusViolation (minRadius : Z)
    (locations : list Path)
| DrcMsgMissingDevice (component : Uuid)
| DrcMsgDefaultDeviceMismatch (component : Uuid) (locations : list Path)
| DrcMsgMissingConnection (p1 p2 : Uuid) (net : option NetSignal)
    (locations : list Path)
| DrcMsgEmptyNetSegment (netSegment : Uuid)
| DrcMsgUnconnectedJunction (netPoint : Uuid) (locations : list Path).

(** The kind of a message: its class. *)
Inductive MsgKind : Type :=
| MinimumWidthViolation
| CopperCopperClearanceViolation
| CopperBoardClearanceViolation
| CopperHoleClearanceViolation
| DrillDrillClearanceViolation
| DrillBoardClearanceViolation
| MinimumAnnularRingViolation
| MinimumDrillDiameterViolation
| MinimumSlotWidthViolation
| ForbiddenSlot
| InvalidPadConnection
| CourtyardOverlap
| OpenBoardOutlinePolygon
| MissingBoardOutline
| MultipleBoardOutlines
| MinimumBoardOutlineInnerRadiusViolation
| MissingDevice
| DefaultDeviceMismatch
| MissingConnection
| EmptyNetSegment
| UnconnectedJunction.

#[global] Instance MsgKind_eq_dec : EqDecision MsgKind.
Proof. solve_decision. Defined.

Definition kindOf (m : DrcMsg) : MsgKind :=
  match m with
  | DrcMsgMinimumWidthViolation _ _ _ => MinimumWidthViolation
  | DrcMsgCopperCopperClearanceViolation _ _ _ _ _ _ _ _ _ _ _ _ =>
      CopperCopperClearanceViolation
  | DrcMsgCopperBoardClearanceViolation _ _ _ => CopperBoardClearanceViolation
  | DrcMsgCopperHoleClearanceViolation _ _ _ _ => CopperHoleClearanceViolation
  | DrcMsgDrillDrillClearanceViolation _ _ _ _ _ _ =>
      DrillDrillClearanceViolation
  | DrcMsgDrillBoardClearanceViolation _ _ _ => DrillBoardClearanceViolation
  | DrcMsgMinimumAnnularRingViolation _ _ _ => MinimumAnnularRingViolation
  | DrcMsgMinimumDrillDiameterViolation _ _ _ => MinimumDrillDiameterViolation
  | DrcMsgMinimumSlotWidthViolation _ _ _ => MinimumSlotWidthViolation
  | DrcMsgForbiddenSlot _ _ => ForbiddenSlot
  | DrcMsgInvalidPadConnection _ _ _ => InvalidPadConnection
  | DrcMsgCourtyardOverlap _ _ _ => CourtyardOverlap
  | DrcMsgOpenBoardOutlinePolygon _ _ _ => OpenBoardOutlinePolygon
  | DrcMsgMissingBoardOutline => MissingBoardOutline
  | DrcMsgMultipleBoardOutlines _ => MultipleBoardOutlines
  | DrcMsgMinimumBoardOutlineInnerRadiusViolation _ _ =>
      MinimumBoardOutlineInnerRadiusViolation
  | DrcMsgMissingDevice _ => MissingDevice
  | DrcMsgDefaultDeviceMismatch _ _ => DefaultDeviceMismatch
  | DrcMsgMissingConnection _ _ _ _ => MissingConnection
  | DrcMsgEmptyNetSegment _ => EmptyNetSegment
  | DrcMsgUnconnectedJunction _ _ => UnconnectedJunction
  end.

(** ** The message envelope *)

Inductive Severity : Type :=
| Hint
| Warning
| Error.

(** Modelled from the spec: [RuleCheckMessage::Severity] in declaration
    order [Hint], [Warning], [Error]; the engine's callers compare it with
    [>]. *)
Definition Severity_toInt (s : Severity) : Z :=
  match s with
  | Hint => 0
  | Warning => 1
  | Error => 2
  end.

#[global] Instance Severity_eq_dec : EqDecision Severity.
Proof. solve_decision. Defined.

(** The interface of [RuleCheckMessage] its users rely on. [SExpression] is
    the type of approval keys. *)
Class RuleCheckMessage (SExpression Msg : Type) : Type := {
  getSeverity : Msg → Severity;
  getMessage : Msg → string;
  getApproval : Msg → SExpression
}.

(** ** The geometry interface *)

(** [ClipperLib::PolyFillType] *)
Inductive PolyFillType : Type :=
| pftEvenOdd
| pftNonZero.

(** Everything the engine calls outside of its own file: [Path],
    [Transform], [ClipperHelpers], [BoardClipperPathGenerator] (a generator
    is built from the board and the arc tolerance, receives one [add...]
    call and is read with [getPaths]) and the two rebuilding operations of
    [Board]. The operations that run the polygon clipper can throw. *)
Class Geometry : Type := {
  ClipperPath : Type;
  PolyTree : Type;
  (* Path *)
  Path_toOutlineStrokes : Path → Z → list Path;
  Path_obround : Point → Point → Z → Path;
  Path_circle : Z → Path;
  Path_translated : Path → Point → Path;
  Path_rotated : Path → Angle → Path;
  Path_toClosedPath : Path → Path;
  (* Transform *)
  Transform_mapPath : Transform → Path → Path;
  Transform_mapPoint : Transform → Point → Point;
  Transform_mapLayer : Transform → Layer → Layer;
  (* ClipperHelpers *)
  ClipperHelpers_convert : list Path → Z → list ClipperPath;
  ClipperHelpers_convertBack : list ClipperPath → list Path;
  ClipperHelpers_unite :
    list ClipperPath → list ClipperPath → Exc (list ClipperPath);
  ClipperHelpers_uniteFill :
    list ClipperPath → PolyFillType → Exc (list ClipperPath);
  ClipperHelpers_uniteToTree :
    list ClipperPath → PolyFillType → Exc PolyTree;
  ClipperHelpers_intersect :
    list ClipperPath → list ClipperPath → Exc PolyTree;
  ClipperHelpers_intersectAll : list (list ClipperPath) → Exc PolyTree;
  ClipperHelpers_subtractToTree :
    list ClipperPath → list ClipperPath → Exc PolyTree;
  ClipperHelpers_offset :
    list ClipperPath → Z → Z → Exc (list ClipperPath);
  ClipperHelpers_flattenTree : PolyTree → Exc (list ClipperPath);
  ClipperHelpers_treeToPaths : PolyTree → Exc (list ClipperPath);
  (* BoardClipperPathGenerator(board, maxArcTolerance) *)
  gen_addVia : Board → Z → Via → Z → Exc (list ClipperPath);
  gen_addNetLine : Board → Z → NetLine → Z → Exc (list ClipperPath);
  gen_addPlane : Board → Z → Plane → Exc (list ClipperPath);
  gen_addBIPolygon : Board → Z → Polygon → Exc (list ClipperPath);
  gen_addPolygon :
    Board → Z → Polygon → Transform → Exc (list ClipperPath);
  gen_addCircle :
    Board → Z → Circle → Transform → Z → Exc (list ClipperPath);
  gen_addStrokeText :
    Board → Z → BI_StrokeText → Z → Exc (list ClipperPath);
  gen_addHole : Board → Z → Hole → Transform → Z → Exc (list ClipperPath);
  gen_addPad :
    Board → Z → FootprintPad → Transform → Layer → Z
    → Exc (list ClipperPath);
  gen_addCopper :
    Board → Z → Layer → gset NetSignal → bool → Exc (list ClipperPath);
  (* PadGeometry::toFilledQPainterPathPx().contains(QPointF(0, 0)) *)
  PadGeometry_containsOrigin : PadGeometry → bool;
  (* Board *)
  Board_rebuildAllPlanes : Board → Board;
  Board_forceAirWiresRebuild : Board → Board
}.

(** [ClipperLib::Paths] *)
Abbreviation Paths := (list ClipperPath).

(** ** The engine *)

(** The Qt signals of [BoardDesignRuleCheck]. *)
Inductive Signal : Type :=
| started
| progressPercent (percent : Z)
| progressStatus (status : string)
| progressMessage (msg : string)
| finished.

Section Engine.
Context `{Geometry} {SExpression : Type}
        `{!RuleCheckMessage SExpression DrcMsg}.

(** The members of [BoardDesignRuleCheck], and the signals emitted so
    far. *)
Record DrcState : Type := mkState {
  mBoard : Board;
  mSettings : BoardDesignRuleCheckSettings;
  mIgnorePlanes : bool;
  mProgressPercent : Z;
  mProgressStatus : list string;
  mMessages : list DrcMsg;
  mCachedPaths : list ((Layer * gset NetSignal) * Paths);
  emitted : list Signal
}.

(** A member function either returns or throws; either way it leaves the
    members as it changed them. *)
Inductive Outcome (A : Type) : Type :=
| Returned (a : A) (st : DrcState)
| Thrown (e : Exception) (st : DrcState).
Global Arguments Returned {A} a st.
Global Arguments Thrown {A} e st.

Definition M (A : Type) : Type := DrcState → Outcome A.

Global Instance M_ret : MRet M := λ A a st, Returned a st.
Global Instance M_bind : MBind M := λ A B f m st,
  match m st with
  | Returned a st' => f a st'
  | Thrown e st' => Thrown e st'
  end.

(** The state a call leaves behind. *)
Definition final {A} (o : Outcome A) : DrcState :=
  match o with
  | Returned _ st => st
  | Thrown _ st => st
  end.

(** A throwing computation run inside a member function. *)
Definition liftExc {A} (c : Exc A) : M A := λ st,
  match c with
  | inl e => Thrown e st
  | inr a => Returned a st
  end.

Definition gets {A} (f : DrcState → A) : M A := λ st, Returned (f st) st.
Definition modify (f : DrcState → DrcState) : M unit :=
  λ st, Returned tt (f st).

Definition emit (s : Signal) : M unit :=
  modify (λ st, mkState (mBoard st) (mSettings st) (mIgnorePlanes st)
                  (mProgressPercent st) (mProgressStatus st) (mMessages st)
                  (mCachedPaths st) (emitted st ++ [s])).

(** [foreach (x, l) body] *)
Fixpoint foreach {A} (l : list A) (body : A → M unit) : M unit :=
  match l with
  | [] => mret tt
  | x :: l' => body x;; foreach l' body
  end.

(** The two nested iterator loops over all pairs [it1] before [it2]. *)
Fixpoint forPairs {A} (items : list A) (body : A → A → M unit) : M unit :=
  match items with
  | [] => mret tt
  | it1 :: rest => foreach rest (body it1);; forPairs rest body
  end.

(** [BoardDesignRuleCheck::emitProgress] *)
Definition emitProgress (percent : Z) : M unit :=
  modify (λ st, mkState (mBoard st) (mSettings st) (mIgnorePlanes st)
                  percent (mProgressStatus st) (mMessages st)
                  (mCachedPaths st) (emitted st));;
  emit (progressPercent percent).

(** [BoardDesignRuleCheck::emitStatus] *)
Definition emitStatus (status : string) : M unit :=
  modify (λ st, mkState (mBoard st) (mSettings st) (mIgnorePlanes st)
                  (mProgressPercent st) (mProgressStatus st ++ [status])
                  (mMessages st) (mCachedPaths st) (emitted st));;
  emit (progressStatus status).

(** [BoardDesignRuleCheck::emitMessage] *)
Definition emitMessage (msg : DrcMsg) : M unit :=
  modify (λ st, mkState (mBoard st) (mSettings st) (mIgnorePlanes st)
                  (mProgressPercent st) (mProgressStatus st)
                  (mMessages st ++ [msg]) (mCachedPaths st) (emitted st));;
  emit (progressMessage (getMessage msg)).

(** Loops that update a local variable. *)
Fixpoint foreachAcc {A B} (l : list A) (acc : B) (body : B → A → M B)
  : M B :=
  match l with
  | [] => mret acc
  | x :: l' => acc' ← body acc x; foreachAcc l' acc' body
  end.

Fixpoint foldExc {A B} (l : list A) (acc : B) (body : B → A → Exc B)
  : Exc B :=
  match l with
  | [] => mret acc
  | x :: l' => acc' ← body acc x; foldExc l' acc' body
  end.

(** Loops that append to a local vector. *)
Fixpoint collect {A B} (l : list A) (body : A → Exc (list B))
  : Exc (list B) :=
  match l with
  | [] => mret []
  | x :: l' => xs ← body x; ys ← collect l' body; mret (xs ++ ys)
  end.

Definition isEmpty {A} (l : list A) : bool :=
  match l with
  | [] => true
  | _ :: _ => false
  end.

(** [tr]: the untranslated text. *)
Definition tr (s : string) : string := s.

Definition contains (layers : list Layer) (layer : Layer) : bool :=
  bool_decide (layer ∈ layers).

(** [makeNonEmptyPath(pos)] *)
Definition makeNonEmptyPath (pos : Point) : Path := [mkVertex pos 0].

(** The locations of a stroke text: the outline strokes of its mapped
    character paths. *)
Definition strokeTextLocations (text : BI_StrokeText) (width : Z)
  : list Path :=
  let transform := Transform_ofText (getTextObj text) in
  flat_map (λ path, Path_toOutlineStrokes path width)
           (map (Transform_mapPath transform) (getPaths text)).

(** [BoardDesignRuleCheck::getHoleLocation] *)
Definition getHoleLocation `{THole H0} (hole : H0)
    (transform1 transform2 : Transform) : list Path :=
  map (Transform_mapPath transform2)
      (Path_toOutlineStrokes (Transform_mapPath transform1 (getPath hole))
                             (getDiameter hole)).

(** [BoardDesignRuleCheck::rebuildPlanes] *)
Definition rebuildPlanes (progressEnd : Z) : M unit :=
  emitStatus (tr "Rebuild planes...");;
  modify (λ st, mkState (Board_rebuildAllPlanes (mBoard st)) (mSettings st)
                  (mIgnorePlanes st) (mProgressPercent st)
                  (mProgressStatus st) (mMessages st) (mCachedPaths st)
                  (emitted st));;
  emitProgress progressEnd.

(** The body run for a stroke text of the board or of a device in
    [checkMinimumCopperWidth]. *)
Definition checkStrokeTextWidth (board : Board) (minWidth : Z)
    (text : BI_StrokeText) : M unit :=
  if negb (contains (getCopperLayers board) (text_layer (getTextObj text)))
  then mret tt
  else if decide (text_strokeWidth (getTextObj text) < minWidth) then
    width ← liftExc (mkPositiveLength
                       (Z.max (text_strokeWidth (getTextObj text)) 50000));
    emitMessage (DrcMsgMinimumWidthViolation
                   (ObjBI_StrokeText (text_uuid (getTextObj text)))
                   minWidth (strokeTextLocations text width))
  else mret tt.

(** [BoardDesignRuleCheck::checkMinimumCopperWidth] *)
Definition checkMinimumCopperWidth (progressEnd : Z) : M unit :=
  minWidth ← gets (λ st, getMinCopperWidth (mSettings st));
  if decide (minWidth = 0) then mret tt else
  emitStatus (tr "Check copper widths...");;
  board ← gets mBoard;
  (* stroke texts *)
  foreach (getStrokeTexts board) (checkStrokeTextWidth board minWidth);;
  (* planes *)
  foreach (getPlanes board) (λ plane,
    if negb (contains (getCopperLayers board) (plane_layer plane))
    then mret tt
    else if decide (plane_minWidth plane < minWidth) then
      width ← liftExc (mkPositiveLength 200000);
      emitMessage (DrcMsgMinimumWidthViolation
                     (ObjPlane (plane_uuid plane)) minWidth
                     (Path_toOutlineStrokes
                        (Path_toClosedPath (plane_outline plane)) width))
    else mret tt);;
  (* devices *)
  foreach (getDeviceInstances board) (λ device,
    foreach (dev_strokeTexts device)
            (checkStrokeTextWidth board minWidth));;
  (* netlines *)
  foreach (getNetSegments board) (λ netsegment,
    foreach (ns_netLines netsegment) (λ netline,
      if negb (contains (getCopperLayers board) (nl_layer netline))
      then mret tt
      else if decide (nl_width netline < minWidth) then
        emitMessage (DrcMsgMinimumWidthViolation
                       (ObjNetLine (nl_uuid netline)) minWidth
                       [Path_obround (nl_startPos netline)
                                     (nl_endPos netline)
                                     (nl_width netline)])
      else mret tt));;
  emitProgress progressEnd.

(** *** Copper to copper clearance *)

(** The local [struct Item] of [checkCopperCopperClearances]. *)
Record CopperItem : Type := mkCopperItem {
  ci_item : ObjRef;
  ci_polygon : option Uuid;  (* only relevant if item is a device *)
  ci_circle : option Uuid;  (* only relevant if item is a device *)
  ci_layer : option Layer;  (* None = THT *)
  ci_netSignal : option NetSignal;  (* None = no net *)
  ci_areas : Paths
}.

(** The offset applied to each copper object. *)
Definition copperClearanceOffset (clearance : Z) : Z :=
  Z.max (Length.sub (Length.div (Length.sub clearance maxArcTolerance) 2) 1)
        0.

(** "Determine the area of each copper object": the items in the order
    they are appended. *)
Definition copperItems (board : Board) (ignorePlanes : bool) (offset : Z)
  : Exc (list CopperItem) :=
  let tol := maxArcTolerance in
  let onCopper layer := contains (getCopperLayers board) layer in
  (* Net segments. *)
  segments ← collect (getNetSegments board) (λ netSegment,
    vias ← collect (ns_vias netSegment) (λ via,
      areas ← gen_addVia board tol via offset;
      mret [mkCopperItem (ObjVia (via_uuid via)) None None None
                         (ns_netSignal netSegment) areas]);
    netLines ← collect (ns_netLines netSegment) (λ netLine,
      if onCopper (nl_layer netLine) then
        areas ← gen_addNetLine board tol netLine offset;
        mret [mkCopperItem (ObjNetLine (nl_uuid netLine)) None None
                           (Some (nl_layer netLine))
                           (ns_netSignal netSegment) areas]
      else mret []);
    mret (vias ++ netLines));
  (* Planes. *)
  planes ← (if negb ignorePlanes then
              collect (getPlanes board) (λ plane,
                if onCopper (plane_layer plane) then
                  paths ← gen_addPlane board tol plane;
                  paths ← ClipperHelpers_offset paths offset tol;
                  mret [mkCopperItem (ObjPlane (plane_uuid plane)) None None
                                     (Some (plane_layer plane))
                                     (Some (plane_netSignal plane)) paths]
                else mret [])
            else mret []);
  (* Board polygons. *)
  polygons ← collect (getPolygons board) (λ polygon,
    if onCopper (polygon_layer polygon) then
      paths ← gen_addBIPolygon board tol polygon;
      paths ← ClipperHelpers_offset paths offset tol;
      mret [mkCopperItem (ObjBI_Polygon (polygon_uuid polygon)) None None
                         (Some (polygon_layer polygon)) None paths]
    else mret []);
  (* Board stroke texts. *)
  strokeTexts ← collect (getStrokeTexts board) (λ strokeText,
    if onCopper (text_layer (getTextObj strokeText)) then
      areas ← gen_addStrokeText board tol strokeText offset;
      mret [mkCopperItem
              (ObjBI_StrokeText (text_uuid (getTextObj strokeText)))
              None None (Some (text_layer (getTextObj strokeText))) None
              areas]
    else mret []);
  (* Devices. *)
  devices ← collect (getDeviceInstances board) (λ device,
    let transform := Transform_ofDevice device in
    pads ← collect (dev_pads device) (λ pad,
      collect (getCopperLayers board) (λ layer,
        if pad_isOnLayer pad layer then
          areas ← gen_addPad board tol pad transform layer offset;
          mret [mkCopperItem (ObjPad (pad_uuid pad)) None None (Some layer)
                             (pad_compSigInstNetSignal pad) areas]
        else mret []));
    polygons ← collect (fpt_polygons (dev_libFootprint device)) (λ polygon,
      if onCopper (polygon_layer polygon) then
        paths ← gen_addPolygon board tol polygon transform;
        paths ← ClipperHelpers_offset paths offset tol;
        mret [mkCopperItem (ObjDevice (dev_uuid device))
                           (Some (polygon_uuid polygon)) None
                           (Some (polygon_layer polygon)) None paths]
      else mret []);
    circles ← collect (fpt_circles (dev_libFootprint device)) (λ circle,
      if onCopper (circle_layer circle) then
        areas ← gen_addCircle board tol circle transform offset;
        mret [mkCopperItem (ObjDevice (dev_uuid device)) None
                           (Some (circle_uuid circle))
                           (Some (circle_layer circle)) None areas]
      else mret []);
    strokeTexts ← collect (dev_strokeTexts device) (λ strokeText,
      if onCopper (text_layer (getTextObj strokeText)) then
        areas ← gen_addStrokeText board tol strokeText offset;
        mret [mkCopperItem
                (ObjBI_StrokeText (text_uuid (getTextObj strokeText)))
                None None (Some (text_layer (getTextObj strokeText))) None
                areas]
      else mret []);
    mret (pads ++ polygons ++ circles ++ strokeTexts));
  mret (segments ++ planes ++ polygons ++ strokeTexts ++ devices).

(** The condition under which a pair of items is tested. *)
Definition copperPairIsTested (it1 it2 : CopperItem) : bool :=
  (bool_decide (ci_netSignal it1 ≠ ci_netSignal it2)
   || bool_decide (ci_netSignal it1 = None)
   || bool_decide (ci_netSignal it2 = None))
  && (bool_decide (ci_layer it1 = None)
      || bool_decide (ci_layer it2 = None)
      || bool_decide (ci_layer it1 = ci_layer it2)).

(** [BoardDesignRuleCheck::checkCopperCopperClearances] *)
Definition checkCopperCopperClearances (progressEnd : Z) : M unit :=
  clearance ← gets (λ st, getMinCopperCopperClearance (mSettings st));
  if decide (clearance = 0) then mret tt else
  emitStatus (tr "Check copper clearances...");;
  (* Calculate offset to be applied to each object. *)
  let offset := copperClearanceOffset clearance in
  (* Determine the area of each copper object. *)
  board ← gets mBoard;
  ignorePlanes ← gets mIgnorePlanes;
  items ← liftExc (copperItems board ignorePlanes offset);
  (* Now check for intersections. *)
  forPairs items (λ it1 it2,
    if copperPairIsTested it1 it2 then
      intersections ←
        liftExc (ClipperHelpers_intersect (ci_areas it1) (ci_areas it2));
      paths ← liftExc (ClipperHelpers_flattenTree intersections);
      if negb (isEmpty paths) then
        emitMessage (DrcMsgCopperCopperClearanceViolation
                       (ci_layer it1) (ci_netSignal it1) (ci_item it1)
                       (ci_polygon it1) (ci_circle it1)
                       (ci_layer it2) (ci_netSignal it2) (ci_item it2)
                       (ci_polygon it2) (ci_circle it2)
                       clearance (ClipperHelpers_convertBack paths))
      else mret tt
    else mret tt);;
  emitProgress progressEnd.

(** *** Copper to board edge clearance *)

(** [BoardDesignRuleCheck::getBoardClearanceArea] *)
Definition getBoardClearanceArea (board : Board) (clearance : Z)
  : Exc Paths :=
  twice ← mkUnsignedLength (Length.add clearance clearance);
  clearanceWidth ← mkPositiveLength
    (Z.max (Length.sub (Length.sub twice maxArcTolerance) 1) 1);
  let fromBoard :=
    flat_map (λ polygon,
      if decide (polygon_layer polygon = boardOutlines) then
        ClipperHelpers_convert
          (Path_toOutlineStrokes (polygon_path polygon) clearanceWidth)
          maxArcTolerance
      else []) (getPolygons board) in
  let fromDevices :=
    flat_map (λ device,
      let transform := Transform_ofDevice device in
      flat_map (λ polygon,
        if decide (polygon_layer polygon = boardOutlines) then
          ClipperHelpers_convert
            (Path_toOutlineStrokes
               (Transform_mapPath transform (polygon_path polygon))
               clearanceWidth)
            maxArcTolerance
        else []) (fpt_polygons (dev_libFootprint device)))
      (getDeviceInstances board) in
  ClipperHelpers_uniteFill (fromBoard ++ fromDevices) pftNonZero.

(** The lambda [intersects] of the two board clearance checks: the
    locations it stores; it returns whether they are not empty. *)
Definition intersectLocations (restrictedArea paths : Paths)
  : Exc (list Path) :=
  intersections ← ClipperHelpers_intersect restrictedArea paths;
  flat ← ClipperHelpers_flattenTree intersections;
  mret (ClipperHelpers_convertBack flat).

(** One tested object: its area is generated, intersected with the
    restricted area, and reported when the intersection is not empty. *)
Definition reportIfIntersects (restrictedArea : Paths) (area : Exc Paths)
    (msg : list Path → DrcMsg) : M unit :=
  locations ← liftExc (paths ← area;
                       intersectLocations restrictedArea paths);
  if negb (isEmpty locations) then emitMessage (msg locations)
  else mret tt.

(** [BoardDesignRuleCheck::checkCopperBoardClearances] *)
Definition checkCopperBoardClearances (progressEnd : Z) : M unit :=
  clearance ← gets (λ st, getMinCopperBoardClearance (mSettings st));
  if decide (clearance = 0) then mret tt else
  emitStatus (tr "Check board clearances...");;
  board ← gets mBoard;
  ignorePlanes ← gets mIgnorePlanes;
  let tol := maxArcTolerance in
  let onCopper layer := contains (getCopperLayers board) layer in
  (* Determine restricted area around board outline. *)
  restrictedArea ← liftExc (getBoardClearanceArea board clearance);
  let report := reportIfIntersects restrictedArea in
  (* Check net segments. *)
  foreach (getNetSegments board) (λ netSegment,
    foreach (ns_vias netSegment) (λ via,
      report (gen_addVia board tol via 0)
             (DrcMsgCopperBoardClearanceViolation
                (ObjVia (via_uuid via)) clearance));;
    foreach (ns_netLines netSegment) (λ netLine,
      report (gen_addNetLine board tol netLine 0)
             (DrcMsgCopperBoardClearanceViolation
                (ObjNetLine (nl_uuid netLine)) clearance)));;
  (* Check planes. *)
  (if negb ignorePlanes then
     foreach (getPlanes board) (λ plane,
       report (gen_addPlane board tol plane)
              (DrcMsgCopperBoardClearanceViolation
                 (ObjPlane (plane_uuid plane)) clearance))
   else mret tt);;
  (* Check board polygons. *)
  foreach (getPolygons board) (λ polygon,
    if onCopper (polygon_layer polygon) then
      report (gen_addBIPolygon board tol polygon)
             (DrcMsgCopperBoardClearanceViolation
                (ObjPolygon None (polygon_uuid polygon)) clearance)
    else mret tt);;
  (* Check board stroke texts. *)
  foreach (getStrokeTexts board) (λ strokeText,
    if onCopper (text_layer (getTextObj strokeText)) then
      report (gen_addStrokeText board tol strokeText 0)
             (DrcMsgCopperBoardClearanceViolation
                (ObjStrokeText None (text_uuid (getTextObj strokeText)))
                clearance)
    else mret tt);;
  (* Check devices. *)
  foreach (getDeviceInstances board) (λ device,
    let transform := Transform_ofDevice device in
    foreach (dev_pads device) (λ pad,
      foreach (getCopperLayers board) (λ layer,
        if pad_isOnLayer pad layer then
          report (gen_addPad board tol pad transform layer 0)
                 (DrcMsgCopperBoardClearanceViolation
                    (ObjPad (pad_uuid pad)) clearance)
        else mret tt));;
    foreach (fpt_polygons (dev_libFootprint device)) (λ polygon,
      if onCopper (polygon_layer polygon) then
        report (gen_addPolygon board tol polygon transform)
               (DrcMsgCopperBoardClearanceViolation
                  (ObjPolygon (Some (dev_uuid device))
                              (polygon_uuid polygon)) clearance)
      else mret tt);;
    foreach (fpt_circles (dev_libFootprint device)) (λ circle,
      if onCopper (circle_layer circle) then
        report (gen_addCircle board tol circle transform 0)
               (DrcMsgCopperBoardClearanceViolation
                  (ObjCircle (Some (dev_uuid device))
                             (circle_uuid circle)) clearance)
      else mret tt);;
    foreach (dev_strokeTexts device) (λ strokeText,
      if onCopper (text_layer (getTextObj strokeText)) then
        report (gen_addStrokeText board tol strokeText 0)
               (DrcMsgCopperBoardClearanceViolation
                  (ObjStrokeText (Some (dev_uuid device))
                                 (text_uuid (getTextObj strokeText)))
                  clearance)
      else mret tt));;
  emitProgress progressEnd.

(** *** Copper to hole clearance *)

Definition lookupCache (key : Layer * gset NetSignal)
    (cache : list ((Layer * gset NetSignal) * Paths)) : option Paths :=
  snd <$> find (λ entry, bool_decide (fst entry = key)) cache.

(** [BoardDesignRuleCheck::getCopperPaths] *)
Definition getCopperPaths (layer : Layer) (netsignals : gset NetSignal)
  : M Paths :=
  let key := (layer, netsignals) in
  cache ← gets mCachedPaths;
  match lookupCache key cache with
  | Some paths => mret paths
  | None =>
      board ← gets mBoard;
      ignorePlanes ← gets mIgnorePlanes;
      paths ← liftExc (gen_addCopper board maxArcTolerance layer netsignals
                                     ignorePlanes);
      modify (λ st, mkState (mBoard st) (mSettings st) (mIgnorePlanes st)
                      (mProgressPercent st) (mProgressStatus st)
                      (mMessages st) ((key, paths) :: mCachedPaths st)
                      (emitted st));;
      mret paths
  end.

(** [BoardDesignRuleCheck::checkCopperHoleClearances] *)
Definition checkCopperHoleClearances (progressEnd : Z) : M unit :=
  clearance ← gets (λ st, getMinCopperNpthClearance (mSettings st));
  if decide (clearance = 0) then mret tt else
  emitStatus (tr "Check hole clearances...");;
  board ← gets mBoard;
  (* Determine the areas where copper is available on any layer. *)
  copperAreas ← foreachAcc (getCopperLayers board) [] (λ copperAreas layer,
    paths ← getCopperPaths layer ∅;
    liftExc (ClipperHelpers_unite copperAreas paths));
  let report hole transform :=
    reportIfIntersects copperAreas
      (gen_addHole board maxArcTolerance hole transform
         (Length.sub (Length.sub clearance maxArcTolerance) 1)) in
  (* Check board holes. *)
  foreach (getHoles board) (λ hole,
    report hole Transform_default
           (DrcMsgCopperHoleClearanceViolation None (hole_uuid hole)
                                               clearance));;
  (* Check footprint holes. *)
  foreach (getDeviceInstances board) (λ device,
    let transform := Transform_ofDevice device in
    foreach (fpt_holes (dev_libFootprint device)) (λ hole,
      report hole transform
             (DrcMsgCopperHoleClearanceViolation (Some (dev_uuid device))
                                                 (hole_uuid hole)
                                                 clearance)));;
  emitProgress progressEnd.

(** *** Drill to drill clearance *)

(** The local [struct Item] of [checkDrillDrillClearances]. *)
Record DrillItem : Type := mkDrillItem {
  di_item : option ObjRef;  (* const BI_Base*, never null when added *)
  di_hole : option Uuid;  (* tl::optional<Uuid> *)
  di_areas : Paths
}.

(** The diameter expansion of every drill. *)
Definition drillDiameterExpansion (clearance : Z) : Exc Z :=
  mkUnsignedLength
    (Z.max (Length.sub (Length.sub clearance maxArcTolerance) 1) 0).

(** The lambda [addItem]: the item it appends. *)
Definition addItem (diameterExpansion : Z) (item : ObjRef) (hole : Uuid)
    (path : Path) (diameter : Z) : Exc (list DrillItem) :=
  expanded ← PositiveLength_add diameter diameterExpansion;
  let area := Path_toOutlineStrokes path expanded in
  let paths := ClipperHelpers_convert area maxArcTolerance in
  mret [mkDrillItem (Some item) (Some hole) paths].

(** "Determine the area of each drill": the items in the order they are
    appended. *)
Definition drillItems (board : Board) (diameterExpansion : Z)
  : Exc (list DrillItem) :=
  (* Vias. *)
  vias ← collect (getNetSegments board) (λ netSegment,
    collect (ns_vias netSegment) (λ via,
      addItem diameterExpansion (ObjVia (via_uuid via)) (via_uuid via)
              (makeNonEmptyPath (via_position via))
              (via_drillDiameter via)));
  (* Board holes. *)
  holes ← collect (getHoles board) (λ hole,
    addItem diameterExpansion (ObjBI_Hole (hole_uuid hole))
            (hole_uuid hole) (hole_path hole) (hole_diameter hole));
  (* Devices. *)
  devices ← collect (getDeviceInstances board) (λ device,
    let transform := Transform_ofDevice device in
    (* Footprint pads. *)
    pads ← collect (dev_pads device) (λ pad,
      let padTransform := Transform_ofLibPad pad in
      collect (pad_holes pad) (λ hole,
        addItem diameterExpansion (ObjPad (pad_uuid pad))
                (padhole_uuid hole)
                (Transform_mapPath transform
                   (Transform_mapPath padTransform (padhole_path hole)))
                (padhole_diameter hole)));
    (* Holes. *)
    holes ← collect (fpt_holes (dev_libFootprint device)) (λ hole,
      addItem diameterExpansion (ObjDevice (dev_uuid device))
              (hole_uuid hole)
              (Transform_mapPath transform (hole_path hole))
              (hole_diameter hole));
    mret (pads ++ holes));
  mret (vias ++ holes ++ devices).

(** [BoardDesignRuleCheck::checkDrillDrillClearances] *)
Definition checkDrillDrillClearances (progressEnd : Z) : M unit :=
  clearance ← gets (λ st, getMinDrillDrillClearance (mSettings st));
  if decide (clearance = 0) then mret tt else
  emitStatus (tr "Check drill clearances...");;
  (* Determine diameter expansion. *)
  diameterExpansion ← liftExc (drillDiameterExpansion clearance);
  (* Determine the area of each drill. *)
  board ← gets mBoard;
  items ← liftExc (drillItems board diameterExpansion);
  (* Now check for intersections. *)
  forPairs items (λ it1 it2,
    intersections ←
      liftExc (ClipperHelpers_intersect (di_areas it1) (di_areas it2));
    paths ← liftExc (ClipperHelpers_flattenTree intersections);
    match negb (isEmpty paths), di_item it1, di_hole it1,
          di_item it2, di_hole it2 with
    | true, Some item1, Some hole1, Some item2, Some hole2 =>
        emitMessage (DrcMsgDrillDrillClearanceViolation
                       item1 hole1 item2 hole2 clearance
                       (ClipperHelpers_convertBack paths))
    | _, _, _, _, _ => mret tt
    end);;
  emitProgress progressEnd.

(** *** Drill to board edge clearance *)

(** [BoardDesignRuleCheck::checkDrillBoardClearances] *)
Definition checkDrillBoardClearances (progressEnd : Z) : M unit :=
  clearance ← gets (λ st, getMinDrillBoardClearance (mSettings st));
  if decide (clearance = 0) then mret tt else
  emitStatus (tr "Check drill to board edge clearances...");;
  board ← gets mBoard;
  (* Determine restricted area around board outline. *)
  restrictedArea ← liftExc (getBoardClearanceArea board clearance);
  let report path diameter :=
    reportIfIntersects restrictedArea
      (mret (ClipperHelpers_convert (Path_toOutlineStrokes path diameter)
                                    maxArcTolerance)) in
  (* Check vias. *)
  foreach (getNetSegments board) (λ netSegment,
    foreach (ns_vias netSegment) (λ via,
      report (makeNonEmptyPath (via_position via)) (via_drillDiameter via)
             (DrcMsgDrillBoardClearanceViolation (ObjVia (via_uuid via))
                                                 clearance)));;
  (* Check board holes. *)
  foreach (getHoles board) (λ hole,
    report (hole_path hole) (hole_diameter hole)
           (DrcMsgDrillBoardClearanceViolation
              (ObjHole None (hole_uuid hole)) clearance));;
  (* Check devices. *)
  foreach (getDeviceInstances board) (λ device,
    let transform := Transform_ofDevice device in
    (* Check footprint pads. *)
    foreach (dev_pads device) (λ pad,
      let padTransform := Transform_ofLibPad pad in
      foreach (pad_holes pad) (λ hole,
        report (Transform_mapPath transform
                  (Transform_mapPath padTransform (padhole_path hole)))
               (padhole_diameter hole)
               (DrcMsgDrillBoardClearanceViolation
                  (ObjPadHole (pad_uuid pad) (padhole_uuid hole))
                  clearance)));;
    (* Check holes. *)
    foreach (fpt_holes (dev_libFootprint device)) (λ hole,
      report (Transform_mapPath transform (hole_path hole))
             (hole_diameter hole)
             (DrcMsgDrillBoardClearanceViolation
                (ObjHole (Some (dev_uuid device)) (hole_uuid hole))
                clearance)));;
  emitProgress progressEnd.

(** *** Minimum annular ring *)

(** The diameter of a drill including the minimum annular ring, in 64 bit
    arithmetic: [drill + (annularWidth * 2) - 1]. *)
Definition annularRingDiameter (drill annularWidth : Z) : Z :=
  Length.sub (Length.add drill (Length.mul annularWidth 2)) 1.

(** "Check if there's not a 100% overlap": the uncovered part of the
    areas. *)
Definition remainingLocations (areas thtCopperAreaPaths : Paths)
  : Exc (list Path) :=
  remainingAreasTree ← ClipperHelpers_subtractToTree areas
                                                     thtCopperAreaPaths;
  remainingAreas ← ClipperHelpers_flattenTree remainingAreasTree;
  mret (ClipperHelpers_convertBack remainingAreas).

(** The test of an area against the common copper. *)
Definition testAnnularRing (areas : Exc Paths) (thtCopperAreaPaths : Paths)
    (msg : list Path → DrcMsg) : M unit :=
  locations ← liftExc (a ← areas;
                       remainingLocations a thtCopperAreaPaths);
  if negb (isEmpty locations) then emitMessage (msg locations)
  else mret tt.

(** The area of a via drill with its annular ring. *)
Definition viaRingAreas (via : Via) (diameter : Z) : Exc Paths :=
  d ← mkPositiveLength diameter;
  mret (ClipperHelpers_convert
          [Path_translated (Path_circle d) (via_position via)]
          maxArcTolerance).

(** The body of the loop over the vias. *)
Definition checkViaAnnularRing (thtCopperAreaPaths : Paths)
    (annularWidth : Z) (via : Via) : M unit :=
  (* Determine via area including minimum annular ring. *)
  let diameter := annularRingDiameter (via_drillDiameter via) annularWidth in
  if decide (diameter ≤ 0) then mret tt (* continue *)
  else
    testAnnularRing (viaRingAreas via diameter) thtCopperAreaPaths
      (DrcMsgMinimumAnnularRingViolation (ObjVia (via_uuid via))
                                         annularWidth).

(** The outline of a pad hole with its annular ring, united with the
    areas so far. *)
Definition padHoleRingAreas (transform : Transform) (hole : PadHole)
    (diameter : Z) (areas : Paths) : Exc Paths :=
  d ← mkPositiveLength diameter;
  foldExc (Path_toOutlineStrokes (padhole_path hole) d) areas
    (λ areas area,
      ClipperHelpers_unite areas
        (ClipperHelpers_convert [Transform_mapPath transform area]
                                maxArcTolerance)).

(** The body of the loop over the holes of a pad. *)
Definition addPadHoleRing (annularWidth : Z) (transform : Transform)
    (areas : Paths) (hole : PadHole) : Exc Paths :=
  let diameter :=
    annularRingDiameter (padhole_diameter hole) annularWidth in
  if decide (diameter ≤ 0) then mret areas (* continue *)
  else padHoleRingAreas transform hole diameter areas.

(** The area of the holes of a pad with their annular rings. *)
Definition padRingAreas (annularWidth : Z) (pad : FootprintPad)
  : Exc Paths :=
  let transform := Transform_ofPad pad in
  foldExc (pad_holes pad) [] (addPadHoleRing annularWidth transform).

(** [BoardDesignRuleCheck::checkMinimumPthAnnularRing] *)
Definition checkMinimumPthAnnularRing (progressEnd : Z) : M unit :=
  annularWidth ← gets (λ st, getMinPthAnnularRing (mSettings st));
  if decide (annularWidth = 0) then mret tt else
  emitStatus (tr "Check PTH annular rings...");;
  board ← gets mBoard;
  (* Determine the areas where copper is available on all layers. *)
  thtCopperAreas ← foreachAcc (getCopperLayers board) []
    (λ thtCopperAreas layer,
      paths ← getCopperPaths layer ∅;
      mret (thtCopperAreas ++ [paths]));
  thtCopperAreaPaths ← liftExc (
    thtCopperAreaIntersections ← ClipperHelpers_intersectAll thtCopperAreas;
    ClipperHelpers_treeToPaths thtCopperAreaIntersections);
  (* Check via annular rings. *)
  foreach (getNetSegments board) (λ netsegment,
    foreach (ns_vias netsegment)
            (checkViaAnnularRing thtCopperAreaPaths annularWidth));;
  (* Check pad annular rings. *)
  foreach (getDeviceInstances board) (λ device,
    foreach (dev_pads device) (λ pad,
      testAnnularRing (padRingAreas annularWidth pad) thtCopperAreaPaths
        (DrcMsgMinimumAnnularRingViolation (ObjPad (pad_uuid pad))
                                           annularWidth)));;
  emitProgress progressEnd.

(** *** Drill diameters and slot widths *)

(** [BoardDesignRuleCheck::checkMinimumNpthDrillDiameter] *)
Definition checkMinimumNpthDrillDiameter (progressEnd : Z) : M unit :=
  minDiameter ← gets (λ st, getMinNpthDrillDiameter (mSettings st));
  if decide (minDiameter = 0) then mret tt else
  emitStatus (tr "Check NPTH drill diameters...");;
  board ← gets mBoard;
  (* Board holes. *)
  foreach (getHoles board) (λ hole,
    if negb (isSlot hole) && bool_decide (hole_diameter hole < minDiameter)
    then emitMessage (DrcMsgMinimumDrillDiameterViolation
                        (ObjHole None (hole_uuid hole)) minDiameter
                        (getHoleLocation hole Transform_default
                                         Transform_default))
    else mret tt);;
  (* Package holes. *)
  foreach (getDeviceInstances board) (λ device,
    let transform := Transform_ofDevice device in
    foreach (fpt_holes (dev_libFootprint device)) (λ hole,
      if negb (isSlot hole)
         && bool_decide (hole_diameter hole < minDiameter)
      then emitMessage (DrcMsgMinimumDrillDiameterViolation
                          (ObjHole (Some (dev_uuid device))
                                   (hole_uuid hole)) minDiameter
                          (getHoleLocation hole transform
                                           Transform_default))
      else mret tt));;
  emitProgress progressEnd.

(** [BoardDesignRuleCheck::checkMinimumNpthSlotWidth] *)
Definition checkMinimumNpthSlotWidth (progressEnd : Z) : M unit :=
  minWidth ← gets (λ st, getMinNpthSlotWidth (mSettings st));
  if decide (minWidth = 0) then mret tt else
  emitStatus (tr "Check NPTH slot widths...");;
  board ← gets mBoard;
  (* Board holes. *)
  foreach (getHoles board) (λ hole,
    if isSlot hole && bool_decide (hole_diameter hole < minWidth)
    then emitMessage (DrcMsgMinimumSlotWidthViolation
                        (ObjHole None (hole_uuid hole)) minWidth
                        (getHoleLocation hole Transform_default
                                         Transform_default))
    else mret tt);;
  (* Package holes. *)
  foreach (getDeviceInstances board) (λ device,
    let transform := Transform_ofDevice device in
    foreach (fpt_holes (dev_libFootprint device)) (λ hole,
      if isSlot hole && bool_decide (hole_diameter hole < minWidth)
      then emitMessage (DrcMsgMinimumSlotWidthViolation
                          (ObjHole (Some (dev_uuid device))
                                   (hole_uuid hole)) minWidth
                          (getHoleLocation hole transform
                                           Transform_default))
      else mret tt));;
  emitProgress progressEnd.

(** [BoardDesignRuleCheck::checkMinimumPthDrillDiameter] *)
Definition checkMinimumPthDrillDiameter (progressEnd : Z) : M unit :=
  minDiameter ← gets (λ st, getMinPthDrillDiameter (mSettings st));
  if decide (minDiameter = 0) then mret tt else
  emitStatus (tr "Check PTH drill diameters...");;
  board ← gets mBoard;
  (* Vias. *)
  foreach (getNetSegments board) (λ netsegment,
    foreach (ns_vias netsegment) (λ via,
      if decide (via_drillDiameter via < minDiameter) then
        emitMessage (DrcMsgMinimumDrillDiameterViolation
                       (ObjVia (via_uuid via)) minDiameter
                       [Path_translated
                          (Path_circle (via_drillDiameter via))
                          (via_position via)])
      else mret tt));;
  (* Pads. *)
  foreach (getDeviceInstances board) (λ device,
    foreach (dev_pads device) (λ pad,
      foreach (pad_holes pad) (λ hole,
        if decide (padhole_diameter hole < minDiameter) then
          diameter ← liftExc (mkPositiveLength
                                (Z.max (padhole_diameter hole) 50000));
          emitMessage (DrcMsgMinimumDrillDiameterViolation
                         (ObjPadHole (pad_uuid pad) (padhole_uuid hole))
                         minDiameter
                         [Path_translated (Path_circle diameter)
                                          (pad_position pad)])
        else mret tt)));;
  emitProgress progressEnd.

(** [BoardDesignRuleCheck::checkMinimumPthSlotWidth] *)
Definition checkMinimumPthSlotWidth (progressEnd : Z) : M unit :=
  minWidth ← gets (λ st, getMinPthSlotWidth (mSettings st));
  if decide (minWidth = 0) then mret tt else
  emitStatus (tr "Check PTH slot widths...");;
  board ← gets mBoard;
  (* Pads. *)
  foreach (getDeviceInstances board) (λ device,
    let devTransform := Transform_ofDevice device in
    foreach (dev_pads device) (λ pad,
      let padTransform := Transform_ofLibPad pad in
      foreach (pad_holes pad) (λ hole,
        if isSlot hole && bool_decide (padhole_diameter hole < minWidth)
        then emitMessage (DrcMsgMinimumSlotWidthViolation
                            (ObjPadHole (pad_uuid pad) (padhole_uuid hole))
                            minWidth
                            (getHoleLocation hole padTransform
                                             devTransform))
        else mret tt)));;
  emitProgress progressEnd.

(** *** Allowed slots *)

(** [BoardDesignRuleCheck::checkAllowedNpthSlots] *)
Definition checkAllowedNpthSlots (progressEnd : Z) : M unit :=
  allowed ← gets (λ st, getAllowedNpthSlots (mSettings st));
  if decide (allowed = AllowedSlots.Any) then mret tt else
  emitStatus (tr "Check for disallowed NPTH slots...");;
  board ← gets mBoard;
  (* Board holes. *)
  foreach (getHoles board) (λ hole,
    if requiresHoleSlotWarning hole allowed then
      emitMessage (DrcMsgForbiddenSlot
                     (ObjBI_Hole (hole_uuid hole))
                     (getHoleLocation hole Transform_default
                                      Transform_default))
    else mret tt);;
  (* Package holes. *)
  foreach (getDeviceInstances board) (λ device,
    let transform := Transform_ofDevice device in
    foreach (fpt_holes (dev_libFootprint device)) (λ hole,
      if requiresHoleSlotWarning hole allowed then
        emitMessage (DrcMsgForbiddenSlot
                       (ObjHole (Some (dev_uuid device)) (hole_uuid hole))
                       (getHoleLocation hole transform Transform_default))
      else mret tt));;
  emitProgress progressEnd.

(** [BoardDesignRuleCheck::checkAllowedPthSlots] *)
Definition checkAllowedPthSlots (progressEnd : Z) : M unit :=
  allowed ← gets (λ st, getAllowedPthSlots (mSettings st));
  if decide (allowed = AllowedSlots.Any) then mret tt else
  emitStatus (tr "Check for disallowed PTH slots...");;
  board ← gets mBoard;
  (* Pads. *)
  foreach (getDeviceInstances board) (λ device,
    let devTransform := Transform_ofDevice device in
    foreach (dev_pads device) (λ pad,
      let padTransform := Transform_ofLibPad pad in
      foreach (pad_holes pad) (λ hole,
        if requiresHoleSlotWarning hole allowed then
          emitMessage (DrcMsgForbiddenSlot
                         (ObjPadHole (pad_uuid pad) (padhole_uuid hole))
                         (getHoleLocation hole padTransform devTransform))
        else mret tt)));;
  emitProgress progressEnd.

(** *** Pad connections *)

(** [BoardDesignRuleCheck::checkInvalidPadConnections]. The layers of the
    net lines of a pad are gathered in a [QSet]; they are visited here in
    the order of their first net line. *)
Definition checkInvalidPadConnections (progressEnd : Z) : M unit :=
  emitStatus (tr "Check pad connections...");;
  board ← gets mBoard;
  (* Pads. *)
  foreach (getDeviceInstances board) (λ device,
    foreach (dev_pads device) (λ pad,
      let connectedLayers := remove_dups (map nl_layer (pad_netLines pad)) in
      foreach connectedLayers (λ layer,
        let isOriginInCopper :=
          existsb PadGeometry_containsOrigin (pad_geometries pad layer) in
        if negb isOriginInCopper then
          diameter ← liftExc (mkPositiveLength 500000);
          emitMessage (DrcMsgInvalidPadConnection (pad_uuid pad) layer
                         [Path_translated (Path_circle diameter)
                                          (pad_position pad)])
        else mret tt)));;
  emitProgress progressEnd.

(** *** Courtyards *)

(** [BoardDesignRuleCheck::getDeviceCourtyardPaths] *)
Definition getDeviceCourtyardPaths (device : Device) (layer : Layer)
  : Exc Paths :=
  let transform := Transform_ofDevice device in
  paths ← foldExc (fpt_polygons (dev_libFootprint device)) []
    (λ paths polygon,
      let polygonLayer :=
        Transform_mapLayer transform (polygon_layer polygon) in
      if decide (polygonLayer ≠ layer) then mret paths (* continue *)
      else
        let path := Transform_mapPath transform (polygon_path polygon) in
        ClipperHelpers_unite paths
          (ClipperHelpers_convert [path] maxArcTolerance));
  foldExc (fpt_circles (dev_libFootprint device)) paths
    (λ paths circle,
      let circleLayer :=
        Transform_mapLayer transform (circle_layer circle) in
      if decide (circleLayer ≠ layer) then mret paths (* continue *)
      else
        ClipperHelpers_unite paths
          (ClipperHelpers_convert [Path_circle (circle_diameter circle)]
                                  maxArcTolerance)).

(** [BoardDesignRuleCheck::checkCourtyardClearances]. The devices are the
    keys of a [QMap] ordered by their address; they are taken here in the
    order of the board. *)
Definition checkCourtyardClearances (progressEnd : Z) : M unit :=
  emitStatus (tr "Check courtyard clearances...");;
  board ← gets mBoard;
  foreach [topCourtyard; botCourtyard] (λ layer,
    (* determine device courtyard areas *)
    deviceCourtyards ← liftExc (
      collect (getDeviceInstances board) (λ device,
        paths ← getDeviceCourtyardPaths device layer;
        mret [(device, paths)]));
    (* check clearances *)
    forPairs deviceCourtyards (λ c1 c2,
      locations ← liftExc (intersectLocations (snd c1) (snd c2));
      if negb (isEmpty locations) then
        emitMessage (DrcMsgCourtyardOverlap (dev_uuid (fst c1))
                                            (dev_uuid (fst c2)) locations)
      else mret tt));;
  emitProgress progressEnd.

(** *** Board outline *)

(** [BoardDesignRuleCheck::checkBoardOutline] *)
Definition checkBoardOutline (progressEnd : Z) : M unit :=
  emitStatus (tr "Check board outline...");;
  board ← gets mBoard;
  (* Collect all board outline objects and report open polygons. *)
  let outlines0 :=
    map polygon_path
        (filter (λ polygon, polygon_layer polygon = boardOutlines)
                (getPolygons board)) in
  outlines ← foreachAcc (getDeviceInstances board) outlines0
    (λ outlines device,
      let transform := Transform_ofDevice device in
      outlines ← foreachAcc (fpt_polygons (dev_libFootprint device))
        outlines (λ outlines polygon,
          if decide (polygon_layer polygon = boardOutlines) then
            let path := Transform_mapPath transform (polygon_path polygon) in
            (if negb (Path_isClosed path) then
               width ← liftExc (mkPositiveLength
                                  (Z.max (polygon_lineWidth polygon)
                                         100000));
               emitMessage (DrcMsgOpenBoardOutlinePolygon
                              (Some (dev_uuid device))
                              (polygon_uuid polygon)
                              (Path_toOutlineStrokes path width))
             else mret tt);;
            mret (outlines ++ [path])
          else mret outlines);
      mret (outlines ++
            map (λ circle,
                   Path_translated
                     (Path_circle (circle_diameter circle))
                     (Transform_mapPoint transform (circle_center circle)))
                (filter (λ circle, circle_layer circle = boardOutlines)
                        (fpt_circles (dev_libFootprint device)))));
  (* Check if there's at least one board outline. *)
  (if isEmpty outlines then emitMessage DrcMsgMissingBoardOutline
   else mret tt);;
  (* Determine actually drawn board area. *)
  let drawnBoardArea := ClipperHelpers_convert outlines maxArcTolerance in
  drawnBoardAreaTree ←
    liftExc (ClipperHelpers_uniteToTree drawnBoardArea pftEvenOdd);
  (* Check if there are multiple independent boards. *)
  flattenedBoardArea ←
    liftExc (ClipperHelpers_flattenTree drawnBoardAreaTree);
  (if decide (1 < length flattenedBoardArea)%nat then
     emitMessage (DrcMsgMultipleBoardOutlines
                    (ClipperHelpers_convertBack flattenedBoardArea))
   else mret tt);;
  (* Check if the board outline can be manufactured with the smallest
     tool. *)
  toolDiameter ← gets (λ st, getMinOutlineToolDiameter (mSettings st));
  minEdgeRadius ← liftExc (mkUnsignedLength (Length.div toolDiameter 2));
  (if decide (0 < minEdgeRadius) then
     let offset1 := Z.max (Length.sub minEdgeRadius 10000) 0 in
     let offset2 := Length.neg minEdgeRadius in
     nonManufacturableAreas ← liftExc (
       drawnBoardArea ← ClipperHelpers_treeToPaths drawnBoardAreaTree;
       areas ← ClipperHelpers_offset drawnBoardArea offset1
                                     maxArcTolerance;
       areas ← ClipperHelpers_offset areas offset2 maxArcTolerance;
       difference ← ClipperHelpers_subtractToTree areas drawnBoardArea;
       ClipperHelpers_flattenTree difference);
     if negb (isEmpty nonManufacturableAreas) then
       emitMessage (DrcMsgMinimumBoardOutlineInnerRadiusViolation
                      minEdgeRadius
                      (ClipperHelpers_convertBack nonManufacturableAreas))
     else mret tt
   else mret tt);;
  emitProgress progressEnd.

(** *** Circuit related checks *)

(** [BoardDesignRuleCheck::checkForUnplacedComponents] *)
Definition checkForUnplacedComponents (progressEnd : Z) : M unit :=
  emitStatus (tr "Check for unplaced components...");;
  board ← gets mBoard;
  foreach (getComponentInstances board) (λ cmp,
    let dev := getDeviceInstanceByComponentUuid board (cmp_uuid cmp) in
    if bool_decide (dev = None) && negb (cmp_isSchematicOnly cmp) then
      emitMessage (DrcMsgMissingDevice (cmp_uuid cmp))
    else mret tt);;
  emitProgress progressEnd.

(** [BoardDesignRuleCheck::getDeviceLocation] *)
Definition getDeviceLocation (device : Device) : Exc (list Path) :=
  let transform := Transform_ofDevice device in
  (* Helper function to add paths. *)
  let addPath (locations : list Path) (path : Path) (lineWidth : Z)
              (fill : bool) : Exc (list Path) :=
    let path := Transform_mapPath transform path in
    locations ← (if decide (0 < lineWidth) then
                   width ← mkPositiveLength lineWidth;
                   mret (locations ++ Path_toOutlineStrokes path width)
                 else mret locations);
    mret (if Path_isClosed path && fill then locations ++ [path]
          else locations) in
  (* Helper function to add drawings on a particular layer. *)
  let addDrawing (locations : list Path) (layer : Layer)
    : Exc (list Path) :=
    locations ← foldExc (fpt_polygons (dev_libFootprint device)) locations
      (λ locations polygon,
        if decide (polygon_layer polygon = layer) then
          addPath locations (polygon_path polygon)
                  (polygon_lineWidth polygon) (polygon_filled polygon)
        else mret locations);
    foldExc (fpt_circles (dev_libFootprint device)) locations
      (λ locations circle,
        if decide (circle_layer circle = layer) then
          addPath locations
                  (Path_translated (Path_circle (circle_diameter circle))
                                   (circle_center circle))
                  (circle_lineWidth circle) (circle_filled circle)
        else mret locations) in
  (* Add drawings on documentation layer. *)
  locations ← addDrawing [] topDocumentation;
  locations ← addDrawing locations botDocumentation;
  (* If there's no documentation, add drawings on placement layer. *)
  locations ← (if isEmpty locations then
                 locations ← addDrawing locations topPlacement;
                 addDrawing locations botPlacement
               else mret locations);
  (* Add origin cross. *)
  let originLine :=
    [mkVertex (-500000, 0) 0; mkVertex (500000, 0) 0] in
  strokeWidth ← mkPositiveLength 50000;
  mret (locations
        ++ Path_toOutlineStrokes
             (Path_translated originLine (dev_position device)) strokeWidth
        ++ Path_toOutlineStrokes
             (Path_translated (Path_rotated originLine Angle_deg90)
                              (dev_position device)) strokeWidth).

(** [BoardDesignRuleCheck::checkCircuitDefaultDevices] *)
Definition checkCircuitDefaultDevices (progressEnd : Z) : M unit :=
  emitStatus (tr "Check configured default devices...");;
  board ← gets mBoard;
  foreach (getDeviceInstances board) (λ device,
    match cmp_defaultDeviceUuid (dev_componentInstance device) with
    | Some defaultDevice =>
        if decide (defaultDevice ≠ dev_libDeviceUuid device) then
          locations ← liftExc (getDeviceLocation device);
          emitMessage (DrcMsgDefaultDeviceMismatch
                         (cmp_uuid (dev_componentInstance device))
                         locations)
        else mret tt
    | None => mret tt
    end);;
  emitProgress progressEnd.

(** [BoardDesignRuleCheck::checkForMissingConnections] *)
Definition checkForMissingConnections (progressEnd : Z) : M unit :=
  emitStatus (tr "Check for missing connections...");;
  (* No check based on copper paths implemented yet -> return existing
     airwires instead. *)
  modify (λ st, mkState (Board_forceAirWiresRebuild (mBoard st))
                  (mSettings st) (mIgnorePlanes st) (mProgressPercent st)
                  (mProgressStatus st) (mMessages st) (mCachedPaths st)
                  (emitted st));;
  board ← gets mBoard;
  foreach (getAirWires board) (λ airWire,
    width ← liftExc (mkPositiveLength 50000);
    emitMessage (DrcMsgMissingConnection
                   (fst (aw_p1 airWire)) (fst (aw_p2 airWire))
                   (aw_netSignal airWire)
                   [Path_obround (snd (aw_p1 airWire))
                                 (snd (aw_p2 airWire)) width]));;
  emitProgress progressEnd.

(** [BoardDesignRuleCheck::checkForStaleObjects] *)
Definition checkForStaleObjects (progressEnd : Z) : M unit :=
  emitStatus (tr "Check for stale objects...");;
  board ← gets mBoard;
  foreach (getNetSegments board) (λ netSegment,
    (* Warn about empty net segments. *)
    (if negb (ns_isUsed netSegment) then
       emitMessage (DrcMsgEmptyNetSegment (ns_uuid netSegment))
     else mret tt);;
    (* Warn about net points without any net lines. *)
    foreach (ns_netPoints netSegment) (λ netPoint,
      if negb (np_isUsed netPoint) then
        diameter ← liftExc (mkPositiveLength 300000);
        emitMessage (DrcMsgUnconnectedJunction (np_uuid netPoint)
                       [Path_translated (Path_circle diameter)
                                        (np_position netPoint)])
      else mret tt));;
  emitProgress progressEnd.

(** *** The run *)

(** [QString::arg] of a count. *)
Definition QString_number (n : nat) : string :=
  NilZero.string_of_uint (Nat.to_uint n).

(** ["Finished with %1 message(s)!"] *)
Definition finishedStatus (count : nat) : string :=
  (tr "Finished with " +:+ QString_number count +:+ " message(s)!")%string.

(** [BoardDesignRuleCheck::execute] *)
Definition execute (quick : bool) : M unit :=
  emit started;;
  emitProgress 2;;
  modify (λ st, mkState (mBoard st) (mSettings st) quick
                  (mProgressPercent st) [] [] (mCachedPaths st)
                  (emitted st));;
  (if negb quick then rebuildPlanes 12 (* 10% *) else mret tt);;
  checkMinimumCopperWidth 14;;  (* 2% *)
  checkCopperCopperClearances 24;;  (* 10% *)
  checkCopperBoardClearances 34;;  (* 10% *)
  checkCopperHoleClearances 44;;  (* 10% *)
  (if negb quick then
     checkDrillDrillClearances 49;;  (* 5% *)
     checkDrillBoardClearances 54;;  (* 5% *)
     checkMinimumPthAnnularRing 64;;  (* 10% *)
     checkMinimumNpthDrillDiameter 66;;  (* 2% *)
     checkMinimumNpthSlotWidth 68;;  (* 2% *)
     checkMinimumPthDrillDiameter 70;;  (* 2% *)
     checkMinimumPthSlotWidth 72;;  (* 2% *)
     checkAllowedNpthSlots 74;;  (* 2% *)
     checkAllowedPthSlots 76;;  (* 2% *)
     checkInvalidPadConnections 78;;  (* 2% *)
     checkCourtyardClearances 88;;  (* 10% *)
     checkBoardOutline 91;;  (* 3% *)
     checkForUnplacedComponents 92;;  (* 1% *)
     checkCircuitDefaultDevices 93;;  (* 1% *)
     checkForMissingConnections 95;;  (* 2% *)
     checkForStaleObjects 97  (* 2% *)
   else mret tt);;
  count ← gets (λ st, length (mMessages st));
  emitStatus (finishedStatus count);;
  emitProgress 100;;
  emit finished.

End Engine.

(** ** Approval resolution *)

Section Approval.
Context {SExpression Msg : Type} `{Countable SExpression}
        `{!RuleCheckMessage SExpression Msg}.

(** The [QCollator] in numeric, case insensitive mode: [collator a b] is
    whether [a] sorts before [b]. *)
Variable collator : string → string → bool.

(** The comparison passed to [Toolbox::sortNumeric]. *)
Definition compareMessages (lhs rhs : Msg) : bool :=
  if decide (getSeverity lhs ≠ getSeverity rhs) then
    Severity_toInt (getSeverity rhs) <? Severity_toInt (getSeverity lhs)
  else collator (getMessage lhs) (getMessage rhs).

(** [a] may stand before [b] in a sequence sorted by [less]. *)
Definition notAfter (less : Msg → Msg → bool) : relation Msg :=
  λ a b, less b a = false.

Global Instance notAfter_dec less a b : Decision (notAfter less a b).
Proof. unfold notAfter. apply _. Defined.

(** [a] is presented before [b]: a higher severity first and, for equal
    severity, the text that the collator does not put after. *)
Definition presentedBefore (a b : Msg) : Prop :=
  Severity_toInt (getSeverity b) < Severity_toInt (getSeverity a)
  ∨ (getSeverity a = getSeverity b
     ∧ collator (getMessage b) (getMessage a) = false).

(** [Toolbox::sortNumeric]: [std::sort] with the comparison. The order
    [std::sort] gives to equivalent elements is not specified; the merge
    sort keeps their order. *)
Definition sortNumeric (container : list Msg)
    (compare : Msg → Msg → bool) : list Msg :=
  merge_sort (notAfter compare) container.

(** [getSeverityTr().toUpper()] *)
Definition severityTrUpper (s : Severity) : string :=
  match s with
  | Hint => "HINT"
  | Warning => "WARNING"
  | Error => "ERROR"
  end.

(** [QString("[%1] %2").arg(severity, message)] *)
Definition printedMessage (msg : Msg) : string :=
  ("[" +:+ severityTrUpper (getSeverity msg) +:+ "] "
   +:+ getMessage msg)%string.

(** [CommandLineInterface::prepareRuleCheckMessages]: the returned list
    and the value left in [approvedMsgCount]. *)
Definition prepareRuleCheckMessages (messages : list Msg)
    (approvals : gset SExpression) : list string * Z :=
  (* Sort messages to increases readability of console output. *)
  let messages := sortNumeric messages compareMessages in
  fold_left (λ '(printedMessages, approvedMsgCount) msg,
               if decide (getApproval msg ∈ approvals) then
                 (printedMessages, approvedMsgCount + 1)
               else
                 (printedMessages ++ [printedMessage msg],
                  approvedMsgCount))
            messages ([], 0).
End Approval.

(** ** A reference geometry: bounding boxes

    An executable instance of the geometry interface in which every area is
    a list of axis-aligned boxes. It is coarse (an arc is its bounding box,
    a rotation is rounded to a quarter turn) but it runs, which makes the
    engine computable on concrete boards. Like ClipperLib it refuses
    coordinates outside of its range. *)

Module BoxGeometry.

Record Box : Type := mkBox {
  xmin : Z;
  ymin : Z;
  xmax : Z;
  ymax : Z
}.

(** [hiRange] of ClipperLib. *)
Definition hiRange : Z := 2 ^ 62 - 1.

Definition boxInRange (b : Box) : bool :=
  (- hiRange <=? xmin b) && (- hiRange <=? ymin b)
  && (xmax b <=? hiRange) && (ymax b <=? hiRange).

Definition rangeTest {A} (boxes : list Box) (result : A) : Exc A :=
  if forallb boxInRange boxes then inr result
  else inl (RuntimeError "Coordinate outside allowed range").

Definition inflate (d : Z) (b : Box) : Box :=
  mkBox (xmin b - d) (ymin b - d) (xmax b + d) (ymax b + d).

Definition nonDegenerate (b : Box) : bool :=
  (xmin b <? xmax b) && (ymin b <? ymax b).

Definition meet (a b : Box) : Box :=
  mkBox (Z.max (xmin a) (xmin b)) (Z.max (ymin a) (ymin b))
        (Z.min (xmax a) (xmax b)) (Z.min (ymax a) (ymax b)).

Definition meets (a b : list Box) : list Box :=
  filter (λ c, nonDegenerate c = true)
         (flat_map (λ x, map (meet x) b) a).

Definition covers (outer inner : Box) : bool :=
  (xmin outer <=? xmin inner) && (ymin outer <=? ymin inner)
  && (xmax inner <=? xmax outer) && (ymax inner <=? ymax outer).

Definition boundingBox (points : list Point) : option Box :=
  match points with
  | [] => None
  | (x, y) :: rest =>
      Some (fold_left (λ b '(px, py),
                         mkBox (Z.min (xmin b) px) (Z.min (ymin b) py)
                               (Z.max (xmax b) px) (Z.max (ymax b) py))
                      rest (mkBox x y x y))
  end.

Definition pathBox (path : Path) : option Box :=
  boundingBox (map getPos path).

Definition rectangle (b : Box) : Path :=
  [mkVertex (xmin b, ymin b) 0; mkVertex (xmax b, ymin b) 0;
   mkVertex (xmax b, ymax b) 0; mkVertex (xmin b, ymax b) 0;
   mkVertex (xmin b, ymin b) 0].

Definition square (center : Point) (diameter : Z) : Box :=
  inflate (diameter `quot` 2)
          (mkBox (fst center) (snd center) (fst center) (snd center)).

Definition strokeBoxes (width : Z) (path : Path) : list Box :=
  match pathBox path with
  | Some b => [inflate (width `quot` 2) b]
  | None => []
  end.

Definition quarterTurns (a : Angle) : Z := (a `div` 90000) `mod` 4.

Definition rotatePoint (a : Angle) (p : Point) : Point :=
  match quarterTurns a with
  | 1 => (- snd p, fst p)
  | 2 => (- fst p, - snd p)
  | 3 => (snd p, - fst p)
  | _ => p
  end.

Definition mapPoint (t : Transform) (p : Point) : Point :=
  let p := if tf_mirrored t then (- fst p, snd p) else p in
  let p := rotatePoint (tf_rotation t) p in
  (fst p + fst (tf_position t), snd p + snd (tf_position t)).

Definition mapVertices (f : Point → Point) (path : Path) : Path :=
  map (λ v, mkVertex (f (getPos v)) (getAngle v)) path.

Definition mirrorLayer (layer : Layer) : Layer :=
  match layer with
  | topCopper => botCopper
  | botCopper => topCopper
  | topCourtyard => botCourtyard
  | botCourtyard => topCourtyard
  | topDocumentation => botDocumentation
  | botDocumentation => topDocumentation
  | topPlacement => botPlacement
  | botPlacement => topPlacement
  | other => other
  end.

Definition padBoxes (pad : FootprintPad) (layer : Layer) : list Box :=
  map (λ g, mkBox (- (pg_width g `quot` 2)) (- (pg_height g `quot` 2))
                  (pg_width g `quot` 2) (pg_height g `quot` 2))
      (pad_geometries pad layer).

Definition translateBox (p : Point) (b : Box) : Box :=
  mkBox (xmin b + fst p) (ymin b + snd p) (xmax b + fst p) (ymax b + snd p).

Definition textBoxes (text : BI_StrokeText) (offset : Z) : list Box :=
  flat_map (λ path,
              map (inflate offset)
                  (strokeBoxes (text_strokeWidth (getTextObj text))
                     (mapVertices (mapPoint (Transform_ofText
                                               (getTextObj text))) path)))
           (getPaths text).

Definition inNets (nets : gset NetSignal) (net : option NetSignal) : bool :=
  bool_decide (nets = ∅)
  || match net with
     | Some n => bool_decide (n ∈ nets)
     | None => false
     end.

(** The copper of a layer, restricted to a set of nets. *)
Definition copperBoxes (board : Board) (layer : Layer)
    (nets : gset NetSignal) (ignorePlanes : bool) : list Box :=
  flat_map (λ ns,
    if inNets nets (ns_netSignal ns) then
      map (λ via, square (via_position via) (via_size via)) (ns_vias ns)
      ++ flat_map (λ nl,
           if decide (nl_layer nl = layer) then
             strokeBoxes (nl_width nl)
                         [mkVertex (nl_startPos nl) 0;
                          mkVertex (nl_endPos nl) 0]
           else []) (ns_netLines ns)
    else []) (getNetSegments board)
  ++ (if ignorePlanes then []
      else flat_map (λ plane,
             if bool_decide (plane_layer plane = layer)
                && inNets nets (Some (plane_netSignal plane))
             then option_list (pathBox (plane_outline plane))
             else []) (getPlanes board))
  ++ flat_map (λ device,
       flat_map (λ pad,
         if pad_isOnLayer pad layer
            && inNets nets (pad_compSigInstNetSignal pad)
         then map (translateBox (pad_position pad)) (padBoxes pad layer)
         else []) (dev_pads device)) (getDeviceInstances board).

#[global] Instance geometry : Geometry := {|
  ClipperPath := Box;
  PolyTree := list Box;
  Path_toOutlineStrokes path width :=
    map rectangle (strokeBoxes width path);
  Path_obround p1 p2 width :=
    rectangle (inflate (width `quot` 2)
                 (mkBox (Z.min (fst p1) (fst p2)) (Z.min (snd p1) (snd p2))
                        (Z.max (fst p1) (fst p2)) (Z.max (snd p1) (snd p2))));
  Path_circle diameter := rectangle (square (0, 0) diameter);
  Path_translated path delta :=
    mapVertices (λ p, (fst p + fst delta, snd p + snd delta)) path;
  Path_rotated path angle := mapVertices (rotatePoint angle) path;
  Path_toClosedPath path :=
    match path with
    | v :: _ => if Path_isClosed path then path else path ++ [v]
    | [] => []
    end;
  Transform_mapPath t path := mapVertices (mapPoint t) path;
  Transform_mapPoint := mapPoint;
  Transform_mapLayer t layer :=
    if tf_mirrored t then mirrorLayer layer else layer;
  ClipperHelpers_convert paths _ := omap pathBox paths;
  ClipperHelpers_convertBack boxes := map rectangle boxes;
  ClipperHelpers_unite subject clip :=
    rangeTest (subject ++ clip) (subject ++ clip);
  ClipperHelpers_uniteFill paths _ := rangeTest paths paths;
  ClipperHelpers_uniteToTree paths _ := rangeTest paths paths;
  ClipperHelpers_intersect subject clip :=
    rangeTest (subject ++ clip) (meets subject clip);
  ClipperHelpers_intersectAll paths :=
    rangeTest (concat paths)
              match paths with
              | [] => []
              | first :: rest => fold_left meets rest first
              end;
  ClipperHelpers_subtractToTree subject clip :=
    rangeTest (subject ++ clip)
              (filter (λ b, existsb (λ c, covers c b) clip = false) subject);
  ClipperHelpers_offset paths delta _ :=
    rangeTest paths
              (filter (λ b, nonDegenerate b = true)
                      (map (inflate delta) paths));
  ClipperHelpers_flattenTree tree := inr tree;
  ClipperHelpers_treeToPaths tree := inr tree;
  gen_addVia _ _ via offset :=
    inr [inflate offset (square (via_position via) (via_size via))];
  gen_addNetLine _ _ netLine offset :=
    inr (map (inflate offset)
             (strokeBoxes (nl_width netLine)
                          [mkVertex (nl_startPos netLine) 0;
                           mkVertex (nl_endPos netLine) 0]));
  gen_addPlane _ _ plane := inr (option_list (pathBox (plane_outline plane)));
  gen_addBIPolygon _ _ polygon :=
    inr (option_list (pathBox (polygon_path polygon)));
  gen_addPolygon _ _ polygon t :=
    inr (option_list
           (pathBox (mapVertices (mapPoint t) (polygon_path polygon))));
  gen_addCircle _ _ circle t offset :=
    inr [inflate offset
           (square (mapPoint t (circle_center circle))
                   (circle_diameter circle))];
  gen_addStrokeText _ _ text offset := inr (textBoxes text offset);
  gen_addHole _ _ hole t offset :=
    inr (map (inflate offset)
             (strokeBoxes (hole_diameter hole)
                          (mapVertices (mapPoint t) (hole_path hole))));
  gen_addPad _ _ pad t layer offset :=
    inr (map (λ b, inflate offset (translateBox (pad_position pad) b))
             (padBoxes pad layer));
  gen_addCopper board _ layer nets ignorePlanes :=
    let boxes := copperBoxes board layer nets ignorePlanes in
    rangeTest boxes boxes;
  PadGeometry_containsOrigin g :=
    (0 <? pg_width g) && (0 <? pg_height g);
  Board_rebuildAllPlanes board := board;
  Board_forceAirWiresRebuild board := board
|}.

(** Severities as the spec lists them per message kind. *)
Definition severityOf (k : MsgKind) : Severity :=
  match k with
  | MinimumWidthViolation | CopperCopperClearanceViolation
  | CopperBoardClearanceViolation | CopperHoleClearanceViolation
  | DrillDrillClearanceViolation | DrillBoardClearanceViolation
  | InvalidPadConnection | OpenBoardOutlinePolygon
  | MissingBoardOutline => Error
  | DefaultDeviceMismatch | EmptyNetSegment | UnconnectedJunction => Hint
  | _ => Warning
  end.

Definition kindName (k : MsgKind) : string :=
  match k with
  | MinimumWidthViolation => "minimum_width_violation"
  | CopperCopperClearanceViolation => "copper_copper_clearance_violation"
  | CopperBoardClearanceViolation => "copper_board_clearance_violation"
  | CopperHoleClearanceViolation => "copper_hole_clearance_violation"
  | DrillDrillClearanceViolation => "drill_drill_clearance_violation"
  | DrillBoardClearanceViolation => "drill_board_clearance_violation"
  | MinimumAnnularRingViolation => "minimum_annular_ring_violation"
  | MinimumDrillDiameterViolation => "minimum_drill_diameter_violation"
  | MinimumSlotWidthViolation => "minimum_slot_width_violation"
  | ForbiddenSlot => "forbidden_slot"
  | InvalidPadConnection => "invalid_pad_connection"
  | CourtyardOverlap => "courtyard_overlap"
  | OpenBoardOutlinePolygon => "open_board_outline"
  | MissingBoardOutline => "missing_board_outline"
  | MultipleBoardOutlines => "multiple_board_outlines"
  | MinimumBoardOutlineInnerRadiusViolation =>
      "minimum_board_outline_inner_radius_violation"
  | MissingDevice => "missing_device"
  | DefaultDeviceMismatch => "default_device_mismatch"
  | MissingConnection => "missing_connection"
  | EmptyNetSegment => "empty_netsegment"
  | UnconnectedJunction => "unconnected_junction"
  end.

(** A message envelope for the messages of the engine: the severity of
    the kind, the name of the kind as text and as approval key. *)
#[global] Instance messages : RuleCheckMessage string DrcMsg := {|
  getSeverity m := severityOf (kindOf m);
  getMessage m := kindName (kindOf m);
  getApproval m := kindName (kindOf m)
|}.

End BoxGeometry.

(** ** Scenarios

    Concrete boards and settings, run on the reference geometry. *)

Module Scenarios.
Import BoxGeometry.

Definition initialState (board : Board)
    (settings : BoardDesignRuleCheckSettings) : DrcState :=
  mkState board settings false 0 [] [] [] [].

Definition noChecks : BoardDesignRuleCheckSettings :=
  mkSettings 0 0 0 0 0 0 0 0 0 0 0 AllowedSlots.Any AllowedSlots.Any 0.

Definition emptyBoard : Board :=
  mkBoard [topCopper; botCopper] [] [] [] [] [] [] [] [].

(** Two parallel traces of different nets on the top layer, 200 µm wide,
    150 µm apart. *)
Definition parallelTraces : Board :=
  mkBoard [topCopper; botCopper]
    [mkNetSegment 1 (Some 10) []
       [mkNetLine 2 topCopper 200000 (5000000, 3000000)
                  (15000000, 3000000)] [] true;
     mkNetSegment 3 (Some 11) []
       [mkNetLine 4 topCopper 200000 (5000000, 3150000)
                  (15000000, 3150000)] [] true]
    [] [] [] [] [] [] [].

Definition copperClearance (clearance : Z) : BoardDesignRuleCheckSettings :=
  mkSettings 0 clearance 0 0 0 0 0 0 0 0 0
             AllowedSlots.Any AllowedSlots.Any 0.

(** Two traces of different nets, 200 µm wide and 199 µm apart: their
    copper overlaps by a strip of 1 µm. *)
Definition overlappingTraces : Board :=
  mkBoard [topCopper; botCopper]
    [mkNetSegment 1 (Some 10) []
       [mkNetLine 2 topCopper 200000 (0, 0) (1000000, 0)] [] true;
     mkNetSegment 3 (Some 11) []
       [mkNetLine 4 topCopper 200000 (0, 199000) (1000000, 199000)] []
       true]
    [] [] [] [] [] [] [].

(** Two vias of different nets, drills 300 µm, 400 µm apart. *)
Definition twoVias : Board :=
  mkBoard [topCopper; botCopper]
    [mkNetSegment 1 (Some 10)
       [mkVia 2 (0, 0) 300000 500000] [] [] true;
     mkNetSegment 3 (Some 11)
       [mkVia 4 (400000, 0) 300000 500000] [] [] true]
    [] [] [] [] [] [] [].

Definition drillClearance (clearance : Z) : BoardDesignRuleCheckSettings :=
  mkSettings 0 0 0 0 clearance 0 0 0 0 0 0
             AllowedSlots.Any AllowedSlots.Any 0.

(** Two vias of different nets placed beyond the coordinate range of the
    polygon clipper. *)
Definition farVias : Board :=
  mkBoard [topCopper; botCopper]
    [mkNetSegment 1 (Some 10)
       [mkVia 2 (2 ^ 62, 0) 300000 500000] [] [] true;
     mkNetSegment 3 (Some 11)
       [mkVia 4 (2 ^ 62, 400000) 300000 500000] [] [] true]
    [] [] [] [] [] [] [].

(** One via with a drill of 1 nm and an outer size of 2 nm. *)
Definition tinyVia : Board :=
  mkBoard [topCopper; botCopper]
    [mkNetSegment 1 (Some 10) [mkVia 2 (0, 0) 1 2] [] [] true]
    [] [] [] [] [] [] [].

Definition annularRing (width : Z) : BoardDesignRuleCheckSettings :=
  mkSettings 0 0 0 0 0 0 width 0 0 0 0
             AllowedSlots.Any AllowedSlots.Any 0.

(** A board with two holes: one whose path is a single vertex that
    carries an angle, and a straight slot of 2 mm. *)
Definition slottedBoard : Board :=
  mkBoard [topCopper; botCopper] [] [] [] []
    [mkHole 7 800000 [mkVertex (0, 0) 90000];
     mkHole 8 800000 [mkVertex (0, 0) 0; mkVertex (2000000, 0) 0]]
    [] [] [].

Definition noSlots : BoardDesignRuleCheckSettings :=
  mkSettings 0 0 0 0 0 0 0 0 0 0 0
             AllowedSlots.None AllowedSlots.None 0.

(** A square of 10 mm. *)
Definition squareOutline : Path :=
  [mkVertex (0, 0) 0; mkVertex (10000000, 0) 0;
   mkVertex (10000000, 10000000) 0; mkVertex (0, 10000000) 0;
   mkVertex (0, 0) 0].

(** A board with a square outline, a via and a trace 200 µm from its left
    edge and a hole of 1 mm 200 µm from its lower edge. *)
Definition framedBoard : Board :=
  mkBoard [topCopper; botCopper]
    [mkNetSegment 1 (Some 10)
       [mkVia 2 (200000, 5000000) 300000 600000]
       [mkNetLine 3 topCopper 200000 (200000, 5000000)
                  (5000000, 5000000)] [] true]
    []
    [mkPolygon 20 boardOutlines 0 false squareOutline] []
    [mkHole 30 1000000 [mkVertex (5000000, 200000) 0]] [] [] [].

Definition copperBoardClearance (clearance : Z)
  : BoardDesignRuleCheckSettings :=
  mkSettings 0 0 clearance 0 0 0 0 0 0 0 0
             AllowedSlots.Any AllowedSlots.Any 0.

Definition copperHoleClearance (clearance : Z)
  : BoardDesignRuleCheckSettings :=
  mkSettings 0 0 0 clearance 0 0 0 0 0 0 0
             AllowedSlots.Any AllowedSlots.Any 0.

Definition drillBoardClearance (clearance : Z)
  : BoardDesignRuleCheckSettings :=
  mkSettings 0 0 0 0 0 clearance 0 0 0 0 0
             AllowedSlots.Any AllowedSlots.Any 0.

Definition outlineTool (diameter : Z) : BoardDesignRuleCheckSettings :=
  mkSettings 0 0 0 0 0 0 0 0 0 0 0
             AllowedSlots.Any AllowedSlots.Any diameter.

(** A device with a courtyard of 2 mm around its position. *)
Definition courtyardDevice (uuid : Uuid) (position : Point) : Device :=
  mkDevice uuid position 0 false (mkComponentInstance uuid false None) uuid
    (mkFootprint
       [mkPolygon 40 topCourtyard 0 false
          [mkVertex (-1000000, -1000000) 0; mkVertex (1000000, -1000000) 0;
           mkVertex (1000000, 1000000) 0; mkVertex (-1000000, 1000000) 0;
           mkVertex (-1000000, -1000000) 0]]
       [] [])
    [] [].

(** Two devices 1 mm apart: their courtyards overlap. *)
Definition crowdedBoard : Board :=
  mkBoard [topCopper; botCopper] [] [] [] [] []
    [courtyardDevice 1 (0, 0); courtyardDevice 2 (1000000, 0)] [] [].

(** An engine that holds copper paths of the top layer in its cache. *)
Definition cachedState : DrcState :=
  mkState emptyBoard noChecks false 0 [] []
          [((topCopper, ∅), [mkBox 0 0 1000 1000])] [].

(** A slot of two segments. *)
Definition bentSlot : Hole :=
  mkHole 1 1000000
    [mkVertex (0, 0) 0; mkVertex (1000000, 0) 0;
     mkVertex (1000000, 1000000) 0].

(** A collator that orders texts by their length. *)
Definition lengthCollator (a b : string) : bool :=
  (String.length a <? String.length b)%nat.

Definition someMessages : list DrcMsg :=
  [DrcMsgEmptyNetSegment 1; DrcMsgMissingDevice 2;
   DrcMsgMissingBoardOutline; DrcMsgMissingDevice 3].

Definition someApprovals : gset string := {["missing_board_outline"]}.

End Scenarios.

(** ** Specification vocabulary *)

Section Vocabulary.
Context `{Geometry} {SExpression : Type}
        `{!RuleCheckMessage SExpression DrcMsg}.

(** What a call appended to the message list, to the status log and to
    the signals. *)
Record Effect : Type := mkEffect {
  e_messages : list DrcMsg;
  e_status : list string;
  e_signals : list Signal
}.

Definition noEffect : Effect := mkEffect [] [] [].

Definition Effect_app (a b : Effect) : Effect :=
  mkEffect (e_messages a ++ e_messages b) (e_status a ++ e_status b)
           (e_signals a ++ e_signals b).

Definition appended (e : Effect) (st st' : DrcState) : Prop :=
  mMessages st' = mMessages st ++ e_messages e
  ∧ mProgressStatus st' = mProgressStatus st ++ e_status e
  ∧ emitted st' = emitted st ++ e_signals e
  ∧ mSettings st' = mSettings st
  ∧ mIgnorePlanes st' = mIgnorePlanes st.

Definition isReturned {A} (o : Outcome A) : bool :=
  match o with
  | Returned _ _ => true
  | Thrown _ _ => false
  end.

Definition thrownException {A} (o : Outcome A) : option Exception :=
  match o with
  | Returned _ _ => None
  | Thrown e _ => Some e
  end.

(** A specification relates the settings, whether the call returned, and
    what it appended. *)
Definition Spec : Type :=
  BoardDesignRuleCheckSettings → bool → Effect → Prop.

Definition sat {A} (m : M A) (P : Spec) : Prop :=
  ∀ st, ∃ e, appended e st (final (m st))
             ∧ P (mSettings st) (isReturned (m st)) e.

Definition messageSignals (ms : list DrcMsg) : list Signal :=
  map (λ m, progressMessage (getMessage m)) ms.

(** The inside of a check: messages of the kinds [ks], each with its
    signal, and nothing else. *)
Definition BodyP (ks : list MsgKind) : Spec := λ _ _ e,
  e_status e = []
  ∧ Forall (λ m, kindOf m ∈ ks) (e_messages e)
  ∧ e_signals e = messageSignals (e_messages e).

(** A check after its status was emitted: messages, then the progress if
    the end is reached. *)
Definition TailP (ks : list MsgKind) (progressEnd : Z) : Spec := λ _ r e,
  e_status e = []
  ∧ Forall (λ m, kindOf m ∈ ks) (e_messages e)
  ∧ e_signals e = messageSignals (e_messages e)
                  ++ (if r then [progressPercent progressEnd] else []).

(** A whole check: nothing when it is disabled; otherwise its status, its
    messages, and the progress if the end is reached. *)
Definition CheckP (enabled : BoardDesignRuleCheckSettings → bool)
    (status : string) (progressEnd : Z) (ks : list MsgKind) : Spec :=
  λ S r e,
    if enabled S then
      e_status e = [status]
      ∧ Forall (λ m, kindOf m ∈ ks) (e_messages e)
      ∧ e_signals e = progressStatus status
                      :: messageSignals (e_messages e)
                      ++ (if r then [progressPercent progressEnd] else [])
    else r = true ∧ e = noEffect.

(** One step of [execute]: the call, when it is enabled, its status text,
    its progress value and the kinds of message it can emit. *)
Record Step : Type := mkStep {
  step_run : M unit;
  step_enabled : BoardDesignRuleCheckSettings → bool;
  step_status : string;
  step_progress : Z;
  step_kinds : list MsgKind
}.

Definition nonZero (z : Z) : bool := negb (z =? 0).
Definition notAny (a : AllowedSlots.t) : bool :=
  negb (bool_decide (a = AllowedSlots.Any)).

(** The four checks of the quick mode. *)
Definition quickSteps : list Step :=
  [ mkStep (checkMinimumCopperWidth 14)
           (λ S, nonZero (getMinCopperWidth S))
           "Check copper widths..." 14 [MinimumWidthViolation];
    mkStep (checkCopperCopperClearances 24)
           (λ S, nonZero (getMinCopperCopperClearance S))
           "Check copper clearances..." 24
           [CopperCopperClearanceViolation];
    mkStep (checkCopperBoardClearances 34)
           (λ S, nonZero (getMinCopperBoardClearance S))
           "Check board clearances..." 34 [CopperBoardClearanceViolation];
    mkStep (checkCopperHoleClearances 44)
           (λ S, nonZero (getMinCopperNpthClearance S))
           "Check hole clearances..." 44 [CopperHoleClearanceViolation] ].

(** The checks that only the full mode runs. *)
Definition slowSteps : list Step :=
  [ mkStep (checkDrillDrillClearances 49)
           (λ S, nonZero (getMinDrillDrillClearance S))
           "Check drill clearances..." 49 [DrillDrillClearanceViolation];
    mkStep (checkDrillBoardClearances 54)
           (λ S, nonZero (getMinDrillBoardClearance S))
           "Check drill to board edge clearances..." 54
           [DrillBoardClearanceViolation];
    mkStep (checkMinimumPthAnnularRing 64)
           (λ S, nonZero (getMinPthAnnularRing S))
           "Check PTH annular rings..." 64 [MinimumAnnularRingViolation];
    mkStep (checkMinimumNpthDrillDiameter 66)
           (λ S, nonZero (getMinNpthDrillDiameter S))
           "Check NPTH drill diameters..." 66
           [MinimumDrillDiameterViolation];
    mkStep (checkMinimumNpthSlotWidth 68)
           (λ S, nonZero (getMinNpthSlotWidth S))
           "Check NPTH slot widths..." 68 [MinimumSlotWidthViolation];
    mkStep (checkMinimumPthDrillDiameter 70)
           (λ S, nonZero (getMinPthDrillDiameter S))
           "Check PTH drill diameters..." 70
           [MinimumDrillDiameterViolation];
    mkStep (checkMinimumPthSlotWidth 72)
           (λ S, nonZero (getMinPthSlotWidth S))
           "Check PTH slot widths..." 72 [MinimumSlotWidthViolation];
    mkStep (checkAllowedNpthSlots 74)
           (λ S, notAny (getAllowedNpthSlots S))
           "Check for disallowed NPTH slots..." 74 [ForbiddenSlot];
    mkStep (checkAllowedPthSlots 76)
           (λ S, notAny (getAllowedPthSlots S))
           "Check for disallowed PTH slots..." 76 [ForbiddenSlot];
    mkStep (checkInvalidPadConnections 78) (λ _, true)
           "Check pad connections..." 78 [InvalidPadConnection];
    mkStep (checkCourtyardClearances 88) (λ _, true)
           "Check courtyard clearances..." 88 [CourtyardOverlap];
    mkStep (checkBoardOutline 91) (λ _, true)
           "Check board outline..." 91
           [OpenBoardOutlinePolygon; MissingBoardOutline;
            MultipleBoardOutlines;
            MinimumBoardOutlineInnerRadiusViolation];
    mkStep (checkForUnplacedComponents 92) (λ _, true)
           "Check for unplaced components..." 92 [MissingDevice];
    mkStep (checkCircuitDefaultDevices 93) (λ _, true)
           "Check configured default devices..." 93
           [DefaultDeviceMismatch];
    mkStep (checkForMissingConnections 95) (λ _, true)
           "Check for missing connections..." 95 [MissingConnection];
    mkStep (checkForStaleObjects 97) (λ _, true)
           "Check for stale objects..." 97
           [EmptyNetSegment; UnconnectedJunction] ].

Definition rebuildStep : Step :=
  mkStep (rebuildPlanes 12) (λ _, true) "Rebuild planes..." 12 [].

(** The calls of [execute] between the reset and the final status. *)
Definition steps (quick : bool) : list Step :=
  if quick then quickSteps else rebuildStep :: quickSteps ++ slowSteps.

Definition StepP (s : Step) : Spec :=
  CheckP (step_enabled s) (step_status s) (step_progress s) (step_kinds s).

(** A sequence of steps: it stops at the first step that throws. *)
Fixpoint RunP (l : list Step) : Spec := λ S r e,
  match l with
  | [] => r = true ∧ e = noEffect
  | s :: l' =>
      ∃ e1 e2, e = Effect_app e1 e2
               ∧ ((StepP s S true e1 ∧ RunP l' S r e2)
                  ∨ (r = false ∧ StepP s S false e1 ∧ e2 = noEffect))
  end.

Definition enabledSteps (S : BoardDesignRuleCheckSettings)
    (l : list Step) : list Step :=
  filter (λ s, step_enabled s S = true) l.

(** The first statements of [execute]: the state before the first step. *)
Definition resetState (quick : bool) (st : DrcState) : DrcState :=
  mkState (mBoard st) (mSettings st) quick 2 [] [] (mCachedPaths st)
          ((emitted st ++ [started]) ++ [progressPercent 2]).

(** The last statements of [execute]: the state it returns with. *)
Definition finishedState (st : DrcState) : DrcState :=
  let status := finishedStatus (length (mMessages st)) in
  mkState (mBoard st) (mSettings st) (mIgnorePlanes st) 100
          (mProgressStatus st ++ [status]) (mMessages st)
          (mCachedPaths st)
          (((emitted st ++ [progressStatus status])
            ++ [progressPercent 100]) ++ [finished]).

(** The values of the progress signals, the texts of the status signals
    and the texts of the message signals among signals. *)
Definition progressOf (es : list Signal) : list Z :=
  omap (λ s, match s with progressPercent p => Some p | _ => None end) es.

Definition statusOf (es : list Signal) : list string :=
  omap (λ s, match s with progressStatus t => Some t | _ => None end) es.

Definition messagesOf (es : list Signal) : list string :=
  omap (λ s, match s with progressMessage t => Some t | _ => None end) es.

(** The signals emitted by a call that started in [st] and ended in
    [st']. *)
Definition emittedSince (st st' : DrcState) : list Signal :=
  drop (length (emitted st)) (emitted st').

Definition withStatus (st : DrcState) (status : string) : DrcState :=
  mkState (mBoard st) (mSettings st) (mIgnorePlanes st)
          (mProgressPercent st) (mProgressStatus st ++ [status])
          (mMessages st) (mCachedPaths st)
          (emitted st ++ [progressStatus status]).

Definition withProgress (st : DrcState) (percent : Z) : DrcState :=
  mkState (mBoard st) (mSettings st) (mIgnorePlanes st) percent
          (mProgressStatus st) (mMessages st) (mCachedPaths st)
          (emitted st ++ [progressPercent percent]).

Definition stepOk (s : Step) : Prop := sat (step_run s) (StepP s).

(** Signals that a step can emit: neither [started] nor [finished]. *)
Definition inner (s : Signal) : Prop := s ≠ started ∧ s ≠ finished.

Definition startsWith (c : Ascii.ascii) (t : string) : bool :=
  match t with
  | String c' _ => bool_decide (c' = c)
  | EmptyString => false
  end.

Definition quickKinds : list MsgKind :=
  [MinimumWidthViolation; CopperCopperClearanceViolation;
   CopperBoardClearanceViolation; CopperHoleClearanceViolation].

Definition clearanceKinds : list MsgKind :=
  [CopperCopperClearanceViolation; CopperBoardClearanceViolation;
   CopperHoleClearanceViolation; DrillDrillClearanceViolation;
   DrillBoardClearanceViolation].

(** A computation that always returns, having appended exactly the
    messages [ms]. *)
Definition emits (ms : list DrcMsg) (m : M unit) : Prop :=
  ∀ st, ∃ st', m st = Returned tt st'
               ∧ mMessages st' = mMessages st ++ ms.

(** A computation that, when it returns, has appended exactly the
    messages [ms]. *)
Definition onReturn (ms : list DrcMsg) (m : M unit) : Prop :=
  ∀ st st', m st = Returned tt st' → mMessages st' = mMessages st ++ ms.

(** *** Pairs and overlaps *)

(** The unordered pairs of a sequence, each once, in the order of the two
    nested loops. *)
Fixpoint pairs {A} (l : list A) : list (A * A) :=
  match l with
  | [] => []
  | x :: rest => map (pair x) rest ++ pairs rest
  end.

(** The flattened rings of the intersection of two areas, when there are
    some. *)
Definition overlap (a b : Paths) : option Paths :=
  match ClipperHelpers_intersect a b with
  | inr tree =>
      match ClipperHelpers_flattenTree tree with
      | inr (ring :: rings) => Some (ring :: rings)
      | _ => None
      end
  | inl _ => None
  end.

(** *** Copper to copper clearance, as the claim words it *)

(** (a) the net signals differ, or an item has none. *)
Definition netsDiffer (it1 it2 : CopperItem) : Prop :=
  ci_netSignal it1 ≠ ci_netSignal it2
  ∨ ci_netSignal it1 = None ∨ ci_netSignal it2 = None.

(** (b) the items share a layer; an item without layer is on every
    layer. *)
Definition shareLayer (it1 it2 : CopperItem) : Prop :=
  ci_layer it1 = None ∨ ci_layer it2 = None
  ∨ ci_layer it1 = ci_layer it2.

(** The violation of a pair: under (a) and (b), when (c) the areas
    overlap; its locations are the flattened rings of the overlap. *)
Definition copperViolation (clearance : Z) (it1 it2 : CopperItem)
  : option DrcMsg :=
  if decide (netsDiffer it1 it2 ∧ shareLayer it1 it2) then
    (λ rings,
       DrcMsgCopperCopperClearanceViolation
         (ci_layer it1) (ci_netSignal it1) (ci_item it1)
         (ci_polygon it1) (ci_circle it1)
         (ci_layer it2) (ci_netSignal it2) (ci_item it2)
         (ci_polygon it2) (ci_circle it2)
         clearance (ClipperHelpers_convertBack rings))
    <$> overlap (ci_areas it1) (ci_areas it2)
  else None.

Definition copperViolations (clearance : Z) (items : list CopperItem)
  : list DrcMsg :=
  omap (λ p, copperViolation clearance (fst p) (snd p)) (pairs items).

(** What the area of a copper object is generated from. *)
Inductive CopperShape : Type :=
| ViaCopper (via : Via)
| NetLineCopper (netLine : NetLine)
| PlaneCopper (plane : Plane)
| BoardPolygonCopper (polygon : Polygon)
| StrokeTextCopper (strokeText : BI_StrokeText)
| PadCopper (pad : FootprintPad) (transform : Transform) (layer : Layer)
| DevicePolygonCopper (polygon : Polygon) (transform : Transform)
| DeviceCircleCopper (circle : Circle) (transform : Transform).

(** A copper object of the board: the object a message names, its layer
    ([None] for a through-hole object), its net signal ([None] for an
    object without net) and its shape. *)
Record CopperObject : Type := mkCopperObject {
  co_item : ObjRef;
  co_polygon : option Uuid;
  co_circle : option Uuid;
  co_layer : option Layer;
  co_netSignal : option NetSignal;
  co_shape : CopperShape
}.

(** The stroke text of the board or of a device as a copper object. *)
Definition strokeTextCopper (strokeText : BI_StrokeText) : CopperObject :=
  mkCopperObject (ObjBI_StrokeText (text_uuid (getTextObj strokeText)))
                 None None (Some (text_layer (getTextObj strokeText))) None
                 (StrokeTextCopper strokeText).

(** Every copper object of the board: per net segment its vias and its
    net lines, the planes unless they are ignored, the board polygons, the
    board stroke texts and, per device, its pads on each copper layer they
    are on, its polygons, its circles and its stroke texts. A via is on no
    single layer; every other object counts only on a copper layer of the
    board. *)
Definition boardCopper (board : Board) (ignorePlanes : bool)
  : list CopperObject :=
  let layers := getCopperLayers board in
  flat_map (λ netSegment,
    map (λ via,
           mkCopperObject (ObjVia (via_uuid via)) None None None
                          (ns_netSignal netSegment) (ViaCopper via))
        (ns_vias netSegment)
    ++ map (λ netLine,
              mkCopperObject (ObjNetLine (nl_uuid netLine)) None None
                             (Some (nl_layer netLine))
                             (ns_netSignal netSegment)
                             (NetLineCopper netLine))
           (filter (λ netLine, nl_layer netLine ∈ layers)
                   (ns_netLines netSegment)))
    (getNetSegments board)
  ++ (if ignorePlanes then []
      else map (λ plane,
                  mkCopperObject (ObjPlane (plane_uuid plane)) None None
                                 (Some (plane_layer plane))
                                 (Some (plane_netSignal plane))
                                 (PlaneCopper plane))
               (filter (λ plane, plane_layer plane ∈ layers)
                       (getPlanes board)))
  ++ map (λ polygon,
            mkCopperObject (ObjBI_Polygon (polygon_uuid polygon)) None None
                           (Some (polygon_layer polygon)) None
                           (BoardPolygonCopper polygon))
         (filter (λ polygon, polygon_layer polygon ∈ layers)
                 (getPolygons board))
  ++ map strokeTextCopper
         (filter (λ strokeText, text_layer (getTextObj strokeText) ∈ layers)
                 (getStrokeTexts board))
  ++ flat_map (λ device,
       let transform := Transform_ofDevice device in
       flat_map (λ pad,
         map (λ layer,
                mkCopperObject (ObjPad (pad_uuid pad)) None None (Some layer)
                               (pad_compSigInstNetSignal pad)
                               (PadCopper pad transform layer))
             (filter (λ layer, pad_isOnLayer pad layer = true) layers))
         (dev_pads device)
       ++ map (λ polygon,
                 mkCopperObject (ObjDevice (dev_uuid device))
                                (Some (polygon_uuid polygon)) None
                                (Some (polygon_layer polygon)) None
                                (DevicePolygonCopper polygon transform))
              (filter (λ polygon, polygon_layer polygon ∈ layers)
                      (fpt_polygons (dev_libFootprint device)))
       ++ map (λ circle,
                 mkCopperObject (ObjDevice (dev_uuid device)) None
                                (Some (circle_uuid circle))
                                (Some (circle_layer circle)) None
                                (DeviceCircleCopper circle transform))
              (filter (λ circle, circle_layer circle ∈ layers)
                      (fpt_circles (dev_libFootprint device)))
       ++ map strokeTextCopper
              (filter (λ strokeText,
                         text_layer (getTextObj strokeText) ∈ layers)
                      (dev_strokeTexts device)))
     (getDeviceInstances board).

(** The area of a copper object inflated by [offset]: the path generator
    inflates a via, a net line, a stroke text, a pad and a circle itself;
    the area of a plane and of a polygon is generated as it is and then
    offset. *)
Definition inflatedArea (board : Board) (offset : Z) (shape : CopperShape)
  : Exc Paths :=
  let tol := maxArcTolerance in
  let inflate (area : Exc Paths) : Exc Paths :=
    paths ← area; ClipperHelpers_offset paths offset tol in
  match shape with
  | ViaCopper via => gen_addVia board tol via offset
  | NetLineCopper netLine => gen_addNetLine board tol netLine offset
  | PlaneCopper plane => inflate (gen_addPlane board tol plane)
  | BoardPolygonCopper polygon => inflate (gen_addBIPolygon board tol polygon)
  | StrokeTextCopper strokeText =>
      gen_addStrokeText board tol strokeText offset
  | PadCopper pad transform layer =>
      gen_addPad board tol pad transform layer offset
  | DevicePolygonCopper polygon transform =>
      inflate (gen_addPolygon board tol polygon transform)
  | DeviceCircleCopper circle transform =>
      gen_addCircle board tol circle transform offset
  end.

(** [item] is the copper object [obj] with its area inflated by
    [offset]. *)
Definition inflatedItem (board : Board) (offset : Z) (obj : CopperObject)
    (item : CopperItem) : Prop :=
  ∃ areas,
    inflatedArea board offset (co_shape obj) = inr areas
    ∧ item = mkCopperItem (co_item obj) (co_polygon obj) (co_circle obj)
                          (co_layer obj) (co_netSignal obj) areas.

(** *** Drill to drill clearance, as the claim words it *)

Record Drill : Type := mkDrill {
  drill_item : ObjRef;
  drill_hole : Uuid;
  drill_path : Path;
  drill_diameter : Z
}.

(** Every drill of the board: via drills, board holes and, per device,
    pad holes and footprint holes. *)
Definition boardDrills (board : Board) : list Drill :=
  flat_map (λ netSegment,
    map (λ via, mkDrill (ObjVia (via_uuid via)) (via_uuid via)
                        (makeNonEmptyPath (via_position via))
                        (via_drillDiameter via))
        (ns_vias netSegment)) (getNetSegments board)
  ++ map (λ hole, mkDrill (ObjBI_Hole (hole_uuid hole)) (hole_uuid hole)
                          (hole_path hole) (hole_diameter hole))
         (getHoles board)
  ++ flat_map (λ device,
       let transform := Transform_ofDevice device in
       flat_map (λ pad,
         map (λ hole,
                mkDrill (ObjPad (pad_uuid pad)) (padhole_uuid hole)
                        (Transform_mapPath transform
                           (Transform_mapPath (Transform_ofLibPad pad)
                                              (padhole_path hole)))
                        (padhole_diameter hole))
             (pad_holes pad)) (dev_pads device)
       ++ map (λ hole,
                 mkDrill (ObjDevice (dev_uuid device)) (hole_uuid hole)
                         (Transform_mapPath transform (hole_path hole))
                         (hole_diameter hole))
              (fpt_holes (dev_libFootprint device)))
     (getDeviceInstances board).

(** The outline of a drill whose diameter is expanded. *)
Definition expandedDrillArea (expansion : Z) (d : Drill) : Paths :=
  ClipperHelpers_convert
    (Path_toOutlineStrokes (drill_path d) (drill_diameter d + expansion))
    maxArcTolerance.

(** The item [addItem] appends for a drill. *)
Definition drillItemOf (expansion : Z) (d : Drill) : DrillItem :=
  mkDrillItem (Some (drill_item d)) (Some (drill_hole d))
              (expandedDrillArea expansion d).

(** The diameter of the drill is a [PositiveLength]. *)
Definition validDrill (d : Drill) : Prop :=
  isPositiveLength (drill_diameter d).

(** The messages of a pair of items. *)
Definition drillItemViolation (clearance : Z) (it1 it2 : DrillItem)
  : list DrcMsg :=
  match overlap (di_areas it1) (di_areas it2),
        di_item it1, di_hole it1, di_item it2, di_hole it2 with
  | Some rings, Some item1, Some hole1, Some item2, Some hole2 =>
      [DrcMsgDrillDrillClearanceViolation
         item1 hole1 item2 hole2 clearance
         (ClipperHelpers_convertBack rings)]
  | _, _, _, _, _ => []
  end.

Definition drillViolation (clearance expansion : Z) (d1 d2 : Drill)
  : option DrcMsg :=
  (λ rings,
     DrcMsgDrillDrillClearanceViolation
       (drill_item d1) (drill_hole d1) (drill_item d2) (drill_hole d2)
       clearance (ClipperHelpers_convertBack rings))
  <$> overlap (expandedDrillArea expansion d1)
              (expandedDrillArea expansion d2).

Definition drillViolations (clearance : Z) (board : Board)
  : list DrcMsg :=
  let expansion := Z.max (clearance - maxArcTolerance - 1) 0 in
  omap (λ p, drillViolation clearance expansion (fst p) (snd p))
       (pairs (boardDrills board)).

(** *** Slots, as the claim words them *)

Inductive SlotClass : Type :=
| RoundDrill
| SingleSegmentStraightSlot
| MultiSegmentStraightSlot
| CurvedSlot.

(** A 1-vertex path is a round drill. A path of more vertices is a slot:
    a curved slot when it has an arc vertex; otherwise a multi-segment
    straight slot with 3 or more vertices and a single-segment straight
    slot with 2 vertices. *)
Definition slotClass (path : Path) : SlotClass :=
  if bool_decide (length path ≤ 1)%nat then RoundDrill
  else if Path_isCurved path then CurvedSlot
  else if bool_decide (3 ≤ length path)%nat then MultiSegmentStraightSlot
  else SingleSegmentStraightSlot.

(** The least allowance that admits a class. *)
Definition requiredAllowance (c : SlotClass) : AllowedSlots.t :=
  match c with
  | RoundDrill => AllowedSlots.None
  | SingleSegmentStraightSlot => AllowedSlots.SingleSegmentStraight
  | MultiSegmentStraightSlot => AllowedSlots.MultiSegmentStraight
  | CurvedSlot => AllowedSlots.Any
  end.

Definition exceedsAllowance (allowed : AllowedSlots.t) (path : Path)
  : bool :=
  AllowedSlots.ltb allowed (requiredAllowance (slotClass path)).

(** The messages of the NPTH slots: board holes, then footprint holes
    per device. *)
Definition forbiddenNpthSlots (allowed : AllowedSlots.t) (board : Board)
  : list DrcMsg :=
  map (λ hole,
         DrcMsgForbiddenSlot (ObjBI_Hole (hole_uuid hole))
           (getHoleLocation hole Transform_default Transform_default))
      (filter (λ hole, exceedsAllowance allowed (hole_path hole) = true)
              (getHoles board))
  ++ flat_map (λ device,
       map (λ hole,
              DrcMsgForbiddenSlot
                (ObjHole (Some (dev_uuid device)) (hole_uuid hole))
                (getHoleLocation hole (Transform_ofDevice device)
                                 Transform_default))
           (filter (λ hole, exceedsAllowance allowed (hole_path hole) = true)
                   (fpt_holes (dev_libFootprint device))))
     (getDeviceInstances board).

(** The messages of the PTH slots: the holes of the pads, per device. *)
Definition forbiddenPthSlots (allowed : AllowedSlots.t) (board : Board)
  : list DrcMsg :=
  flat_map (λ device,
    flat_map (λ pad,
      map (λ hole,
             DrcMsgForbiddenSlot
               (ObjPadHole (pad_uuid pad) (padhole_uuid hole))
               (getHoleLocation hole (Transform_ofLibPad pad)
                                (Transform_ofDevice device)))
          (filter (λ hole,
                     exceedsAllowance allowed (padhole_path hole) = true)
                  (pad_holes pad))) (dev_pads device))
    (getDeviceInstances board).

End Vocabulary.

(** ** What a call keeps *)

Section Frames.
Context `{Geometry} {SExpression : Type}
        `{!RuleCheckMessage SExpression DrcMsg}.

(** A relation between the engine before and after a call that holds
    however the call ends. *)
Definition keeps (R : relation DrcState) {A} (m : M A) : Prop :=
  ∀ st, R st (final (m st)).

(** Every entry of the cache of copper paths is still there, with the
    same paths. *)
Definition cacheKept (st st' : DrcState) : Prop :=
  ∀ key paths, lookupCache key (mCachedPaths st) = Some paths
               → lookupCache key (mCachedPaths st') = Some paths.

(** The board is the same and the cache has only grown. *)
Definition boardKept (st st' : DrcState) : Prop :=
  mBoard st' = mBoard st ∧ cacheKept st st'.

(** The engine with one more entry in its cache. *)
Definition withCached (st : DrcState) (key : Layer * gset NetSignal)
    (paths : Paths) : DrcState :=
  mkState (mBoard st) (mSettings st) (mIgnorePlanes st)
          (mProgressPercent st) (mProgressStatus st) (mMessages st)
          ((key, paths) :: mCachedPaths st) (emitted st).

Definition withBoard (st : DrcState) (board : Board) : DrcState :=
  mkState board (mSettings st) (mIgnorePlanes st)
          (mProgressPercent st) (mProgressStatus st) (mMessages st)
          (mCachedPaths st) (emitted st).

(** The progress member follows the progress signals: it is the value of
    the last one emitted since, if any. *)
Definition progressTracked (st st' : DrcState) : Prop :=
  ∃ es, emitted st' = emitted st ++ es
        ∧ mProgressPercent st'
          = default (mProgressPercent st) (last (progressOf es)).

(** A loop that always returns, with its result and the messages it
    appended. *)
Definition yields {A} (a : A) (ms : list DrcMsg) (m : M A) : Prop :=
  ∀ st, ∃ st', m st = Returned a st' ∧ mMessages st' = mMessages st ++ ms.

End Frames.

(** ** What each check reports *)

Section Reports.
Context `{Geometry} {SExpression : Type}
        `{!RuleCheckMessage SExpression DrcMsg}.

(** *** Minimum copper width *)

Definition isNarrowStrokeText (board : Board) (minWidth : Z)
    (text : BI_StrokeText) : bool :=
  contains (getCopperLayers board) (text_layer (getTextObj text))
  && bool_decide (text_strokeWidth (getTextObj text) < minWidth).

(** The messages of the stroke texts: the locations are drawn at least
    50 µm wide. *)
Definition narrowStrokeTexts (board : Board) (minWidth : Z)
    (texts : list BI_StrokeText) : list DrcMsg :=
  map (λ text,
         DrcMsgMinimumWidthViolation
           (ObjBI_StrokeText (text_uuid (getTextObj text))) minWidth
           (strokeTextLocations text
              (Z.max (text_strokeWidth (getTextObj text)) 50000)))
      (filter (λ text, isNarrowStrokeText board minWidth text = true) texts).

Definition isNarrowPlane (board : Board) (minWidth : Z) (plane : Plane)
  : bool :=
  contains (getCopperLayers board) (plane_layer plane)
  && bool_decide (plane_minWidth plane < minWidth).

Definition isNarrowNetLine (board : Board) (minWidth : Z)
    (netline : NetLine) : bool :=
  contains (getCopperLayers board) (nl_layer netline)
  && bool_decide (nl_width netline < minWidth).

(** The copper narrower than the minimum: board stroke texts, planes,
    device stroke texts, net lines. *)
Definition narrowCopper (minWidth : Z) (board : Board) : list DrcMsg :=
  if decide (minWidth = 0) then [] else
  narrowStrokeTexts board minWidth (getStrokeTexts board)
  ++ map (λ plane,
            DrcMsgMinimumWidthViolation (ObjPlane (plane_uuid plane))
              minWidth
              (Path_toOutlineStrokes
                 (Path_toClosedPath (plane_outline plane)) 200000))
         (filter (λ plane, isNarrowPlane board minWidth plane = true)
                 (getPlanes board))
  ++ flat_map (λ device,
                 narrowStrokeTexts board minWidth (dev_strokeTexts device))
              (getDeviceInstances board)
  ++ flat_map (λ netsegment,
       map (λ netline,
              DrcMsgMinimumWidthViolation (ObjNetLine (nl_uuid netline))
                minWidth
                [Path_obround (nl_startPos netline) (nl_endPos netline)
                              (nl_width netline)])
           (filter (λ netline, isNarrowNetLine board minWidth netline = true)
                   (ns_netLines netsegment)))
     (getNetSegments board).

(** *** Drill diameters and slot widths *)

(** The round NPTH drills below the minimum drill diameter: board holes,
    then footprint holes per device. *)
Definition smallNpthDrills (minDiameter : Z) (board : Board)
  : list DrcMsg :=
  if decide (minDiameter = 0) then [] else
  let tooSmall (hole : Hole) :=
    negb (isSlot hole) && bool_decide (hole_diameter hole < minDiameter) in
  map (λ hole,
         DrcMsgMinimumDrillDiameterViolation
           (ObjHole None (hole_uuid hole)) minDiameter
           (getHoleLocation hole Transform_default Transform_default))
      (filter (λ hole, tooSmall hole = true) (getHoles board))
  ++ flat_map (λ device,
       map (λ hole,
              DrcMsgMinimumDrillDiameterViolation
                (ObjHole (Some (dev_uuid device)) (hole_uuid hole))
                minDiameter
                (getHoleLocation hole (Transform_ofDevice device)
                                 Transform_default))
           (filter (λ hole, tooSmall hole = true)
                   (fpt_holes (dev_libFootprint device))))
     (getDeviceInstances board).

(** The NPTH slots below the minimum slot width. *)
Definition narrowNpthSlots (minWidth : Z) (board : Board) : list DrcMsg :=
  if decide (minWidth = 0) then [] else
  let tooNarrow (hole : Hole) :=
    isSlot hole && bool_decide (hole_diameter hole < minWidth) in
  map (λ hole,
         DrcMsgMinimumSlotWidthViolation
           (ObjHole None (hole_uuid hole)) minWidth
           (getHoleLocation hole Transform_default Transform_default))
      (filter (λ hole, tooNarrow hole = true) (getHoles board))
  ++ flat_map (λ device,
       map (λ hole,
              DrcMsgMinimumSlotWidthViolation
                (ObjHole (Some (dev_uuid device)) (hole_uuid hole))
                minWidth
                (getHoleLocation hole (Transform_ofDevice device)
                                 Transform_default))
           (filter (λ hole, tooNarrow hole = true)
                   (fpt_holes (dev_libFootprint device))))
     (getDeviceInstances board).

(** The PTH drills below the minimum drill diameter: via drills, then the
    holes of the pads, round or slotted; a pad hole is located by a circle
    of at least 50 µm at the position of its pad. *)
Definition smallPthDrills (minDiameter : Z) (board : Board)
  : list DrcMsg :=
  if decide (minDiameter = 0) then [] else
  flat_map (λ netsegment,
    map (λ via,
           DrcMsgMinimumDrillDiameterViolation (ObjVia (via_uuid via))
             minDiameter
             [Path_translated (Path_circle (via_drillDiameter via))
                              (via_position via)])
        (filter (λ via,
                   bool_decide (via_drillDiameter via < minDiameter) = true)
                (ns_vias netsegment)))
    (getNetSegments board)
  ++ flat_map (λ device,
       flat_map (λ pad,
         map (λ hole,
                DrcMsgMinimumDrillDiameterViolation
                  (ObjPadHole (pad_uuid pad) (padhole_uuid hole))
                  minDiameter
                  [Path_translated
                     (Path_circle (Z.max (padhole_diameter hole) 50000))
                     (pad_position pad)])
             (filter (λ hole,
                        bool_decide (padhole_diameter hole < minDiameter)
                        = true)
                     (pad_holes pad)))
         (dev_pads device))
     (getDeviceInstances board).

(** The slotted pad holes below the minimum slot width. *)
Definition narrowPthSlots (minWidth : Z) (board : Board) : list DrcMsg :=
  if decide (minWidth = 0) then [] else
  flat_map (λ device,
    flat_map (λ pad,
      map (λ hole,
             DrcMsgMinimumSlotWidthViolation
               (ObjPadHole (pad_uuid pad) (padhole_uuid hole)) minWidth
               (getHoleLocation hole (Transform_ofLibPad pad)
                                (Transform_ofDevice device)))
          (filter (λ hole,
                     isSlot hole
                     && bool_decide (padhole_diameter hole < minWidth)
                     = true)
                  (pad_holes pad)))
      (dev_pads device))
    (getDeviceInstances board).

(** *** Pads, components, connections *)


(** The components of the circuit that are not schematic-only and have
    no device on the board. *)
Definition unplacedComponents (board : Board) : list DrcMsg :=
  map (λ cmp, DrcMsgMissingDevice (cmp_uuid cmp))
      (filter (λ cmp,
                 bool_decide (getDeviceInstanceByComponentUuid
                                board (cmp_uuid cmp) = None)
                 && negb (cmp_isSchematicOnly cmp) = true)
              (getComponentInstances board)).

(** One message for each air wire. *)
Definition missingConnections (board : Board) : list DrcMsg :=
  map (λ airWire,
         DrcMsgMissingConnection
           (fst (aw_p1 airWire)) (fst (aw_p2 airWire))
           (aw_netSignal airWire)
           [Path_obround (snd (aw_p1 airWire)) (snd (aw_p2 airWire))
                         50000])
      (getAirWires board).

(** Per net segment: the segment when it is not used, then its net points
    that are not used. *)
Definition staleObjects (board : Board) : list DrcMsg :=
  flat_map (λ netSegment,
    (if ns_isUsed netSegment then []
     else [DrcMsgEmptyNetSegment (ns_uuid netSegment)])
    ++ map (λ netPoint,
              DrcMsgUnconnectedJunction (np_uuid netPoint)
                [Path_translated (Path_circle 300000)
                                 (np_position netPoint)])
           (filter (λ netPoint, negb (np_isUsed netPoint) = true)
                   (ns_netPoints netSegment)))
    (getNetSegments board).


(** *** Default devices *)

(** The lambda [addPath] of [getDeviceLocation]: the outline strokes of a
    drawn line, and the path itself when it is closed and filled. *)
Definition drawnPathLocations (device : Device) (path : Path)
    (lineWidth : Z) (fill : bool) : list Path :=
  let path := Transform_mapPath (Transform_ofDevice device) path in
  (if decide (0 < lineWidth) then Path_toOutlineStrokes path lineWidth
   else [])
  ++ (if Path_isClosed path && fill then [path] else []).

(** The lambda [addDrawing]: the polygons, then the circles, of the
    footprint on a layer. *)
Definition drawingLocations (device : Device) (layer : Layer)
  : list Path :=
  flat_map (λ polygon,
              drawnPathLocations device (polygon_path polygon)
                (polygon_lineWidth polygon) (polygon_filled polygon))
           (filter (λ polygon, polygon_layer polygon = layer)
                   (fpt_polygons (dev_libFootprint device)))
  ++ flat_map (λ circle,
                 drawnPathLocations device
                   (Path_translated (Path_circle (circle_diameter circle))
                                    (circle_center circle))
                   (circle_lineWidth circle) (circle_filled circle))
              (filter (λ circle, circle_layer circle = layer)
                      (fpt_circles (dev_libFootprint device))).

(** The origin cross of a device: two lines of 1 mm drawn 50 µm wide. *)
Definition originCross (device : Device) : list Path :=
  let originLine := [mkVertex (-500000, 0) 0; mkVertex (500000, 0) 0] in
  Path_toOutlineStrokes
    (Path_translated originLine (dev_position device)) 50000
  ++ Path_toOutlineStrokes
       (Path_translated (Path_rotated originLine Angle_deg90)
                        (dev_position device)) 50000.

(** The location of a device: its documentation drawings or, when there
    are none, its placement drawings, and its origin cross. *)
Definition deviceLocation (device : Device) : list Path :=
  let documentation :=
    drawingLocations device topDocumentation
    ++ drawingLocations device botDocumentation in
  (if isEmpty documentation then
     drawingLocations device topPlacement
     ++ drawingLocations device botPlacement
   else documentation)
  ++ originCross device.

(** The component of the device names a default device, and it is not
    the device placed. *)
Definition defaultDeviceDiffers (device : Device) : bool :=
  match cmp_defaultDeviceUuid (dev_componentInstance device) with
  | Some defaultDevice =>
      bool_decide (defaultDevice ≠ dev_libDeviceUuid device)
  | None => false
  end.

Definition defaultDeviceMismatches (board : Board) : list DrcMsg :=
  map (λ device,
         DrcMsgDefaultDeviceMismatch
           (cmp_uuid (dev_componentInstance device)) (deviceLocation device))
      (filter (λ device, defaultDeviceDiffers device = true)
              (getDeviceInstances board)).

(** *** Clearance to the board edge *)

(** The strips drawn along the outline polygons of the board and of the
    devices. *)
Definition outlineStrips (board : Board) (width : Z) : Paths :=
  flat_map (λ polygon,
              ClipperHelpers_convert
                (Path_toOutlineStrokes (polygon_path polygon) width)
                maxArcTolerance)
           (filter (λ polygon, polygon_layer polygon = boardOutlines)
                   (getPolygons board))
  ++ flat_map (λ device,
       flat_map (λ polygon,
                   ClipperHelpers_convert
                     (Path_toOutlineStrokes
                        (Transform_mapPath (Transform_ofDevice device)
                                           (polygon_path polygon))
                        width)
                     maxArcTolerance)
                (filter (λ polygon, polygon_layer polygon = boardOutlines)
                        (fpt_polygons (dev_libFootprint device))))
     (getDeviceInstances board).

(** The locations the lambda [intersects] stores, when there are some. *)
Definition intersection (restrictedArea : Paths) (area : Exc Paths)
  : option (list Path) :=
  match paths ← area; intersectLocations restrictedArea paths with
  | inr (location :: locations) => Some (location :: locations)
  | _ => None
  end.

(** The message of an object whose area meets the restricted area. *)
Definition reported (restrictedArea : Paths) (area : Exc Paths)
    (msg : list Path → DrcMsg) : list DrcMsg :=
  option_list (msg <$> intersection restrictedArea area).

(** The outline of a drill, not expanded. *)
Definition drillArea (path : Path) (diameter : Z) : Exc Paths :=
  inr (ClipperHelpers_convert (Path_toOutlineStrokes path diameter)
                              maxArcTolerance).

(** The drills that reach into the restricted area: via drills, board
    holes and, per device, pad holes and footprint holes. *)
Definition drillBoardViolations (clearance : Z) (restrictedArea : Paths)
    (board : Board) : list DrcMsg :=
  flat_map (λ netSegment,
    flat_map (λ via,
      reported restrictedArea
        (drillArea (makeNonEmptyPath (via_position via))
                   (via_drillDiameter via))
        (DrcMsgDrillBoardClearanceViolation (ObjVia (via_uuid via))
                                            clearance))
      (ns_vias netSegment))
    (getNetSegments board)
  ++ flat_map (λ hole,
       reported restrictedArea
         (drillArea (hole_path hole) (hole_diameter hole))
         (DrcMsgDrillBoardClearanceViolation
            (ObjHole None (hole_uuid hole)) clearance))
       (getHoles board)
  ++ flat_map (λ device,
       let transform := Transform_ofDevice device in
       flat_map (λ pad,
         flat_map (λ hole,
           reported restrictedArea
             (drillArea
                (Transform_mapPath transform
                   (Transform_mapPath (Transform_ofLibPad pad)
                                      (padhole_path hole)))
                (padhole_diameter hole))
             (DrcMsgDrillBoardClearanceViolation
                (ObjPadHole (pad_uuid pad) (padhole_uuid hole)) clearance))
           (pad_holes pad))
         (dev_pads device)
       ++ flat_map (λ hole,
            reported restrictedArea
              (drillArea (Transform_mapPath transform (hole_path hole))
                         (hole_diameter hole))
              (DrcMsgDrillBoardClearanceViolation
                 (ObjHole (Some (dev_uuid device)) (hole_uuid hole))
                 clearance))
            (fpt_holes (dev_libFootprint device)))
     (getDeviceInstances board).

(** The copper that reaches into the restricted area: vias and net lines
    of every net segment, planes unless they are ignored, then the
    polygons and stroke texts of the board on copper layers, then per
    device the pads on each copper layer they are on and the polygons,
    circles and stroke texts on copper layers. *)
Definition copperBoardViolations (clearance : Z) (ignorePlanes : bool)
    (restrictedArea : Paths) (board : Board) : list DrcMsg :=
  let tol := maxArcTolerance in
  let onCopper layer := contains (getCopperLayers board) layer in
  let report := reported restrictedArea in
  flat_map (λ netSegment,
    flat_map (λ via,
      report (gen_addVia board tol via 0)
             (DrcMsgCopperBoardClearanceViolation
                (ObjVia (via_uuid via)) clearance))
      (ns_vias netSegment)
    ++ flat_map (λ netLine,
         report (gen_addNetLine board tol netLine 0)
                (DrcMsgCopperBoardClearanceViolation
                   (ObjNetLine (nl_uuid netLine)) clearance))
         (ns_netLines netSegment))
    (getNetSegments board)
  ++ (if ignorePlanes then []
      else flat_map (λ plane,
             report (gen_addPlane board tol plane)
                    (DrcMsgCopperBoardClearanceViolation
                       (ObjPlane (plane_uuid plane)) clearance))
             (getPlanes board))
  ++ flat_map (λ polygon,
       report (gen_addBIPolygon board tol polygon)
              (DrcMsgCopperBoardClearanceViolation
                 (ObjPolygon None (polygon_uuid polygon)) clearance))
       (filter (λ polygon, onCopper (polygon_layer polygon) = true)
               (getPolygons board))
  ++ flat_map (λ strokeText,
       report (gen_addStrokeText board tol strokeText 0)
              (DrcMsgCopperBoardClearanceViolation
                 (ObjStrokeText None (text_uuid (getTextObj strokeText)))
                 clearance))
       (filter (λ strokeText,
                  onCopper (text_layer (getTextObj strokeText)) = true)
               (getStrokeTexts board))
  ++ flat_map (λ device,
       let transform := Transform_ofDevice device in
       flat_map (λ pad,
         flat_map (λ layer,
           report (gen_addPad board tol pad transform layer 0)
                  (DrcMsgCopperBoardClearanceViolation
                     (ObjPad (pad_uuid pad)) clearance))
           (filter (λ layer, pad_isOnLayer pad layer = true)
                   (getCopperLayers board)))
         (dev_pads device)
       ++ flat_map (λ polygon,
            report (gen_addPolygon board tol polygon transform)
                   (DrcMsgCopperBoardClearanceViolation
                      (ObjPolygon (Some (dev_uuid device))
                                  (polygon_uuid polygon)) clearance))
            (filter (λ polygon, onCopper (polygon_layer polygon) = true)
                    (fpt_polygons (dev_libFootprint device)))
       ++ flat_map (λ circle,
            report (gen_addCircle board tol circle transform 0)
                   (DrcMsgCopperBoardClearanceViolation
                      (ObjCircle (Some (dev_uuid device))
                                 (circle_uuid circle)) clearance))
            (filter (λ circle, onCopper (circle_layer circle) = true)
                    (fpt_circles (dev_libFootprint device)))
       ++ flat_map (λ strokeText,
            report (gen_addStrokeText board tol strokeText 0)
                   (DrcMsgCopperBoardClearanceViolation
                      (ObjStrokeText (Some (dev_uuid device))
                                     (text_uuid (getTextObj strokeText)))
                      clearance))
            (filter (λ strokeText,
                       onCopper (text_layer (getTextObj strokeText)) = true)
                    (dev_strokeTexts device)))
     (getDeviceInstances board).

(** *** Copper around holes and drills *)

(** The copper paths that [getCopperPaths] yields in a state of the
    engine: those of the cache if it holds the key, else those generated
    from the board. *)
Definition copperPathsOf (st : DrcState) (layer : Layer)
    (netsignals : gset NetSignal) : Exc Paths :=
  match lookupCache (layer, netsignals) (mCachedPaths st) with
  | Some paths => inr paths
  | None => gen_addCopper (mBoard st) maxArcTolerance layer netsignals
                          (mIgnorePlanes st)
  end.

(** The areas where copper is available on any layer. *)
Definition anyLayerCopper (st : DrcState) : Exc Paths :=
  foldExc (getCopperLayers (mBoard st)) [] (λ copperAreas layer,
    paths ← copperPathsOf st layer ∅;
    ClipperHelpers_unite copperAreas paths).

(** The NPTH holes too close to copper: board holes, then footprint holes
    per device; the area of a hole is grown by [offset]. *)
Definition copperHoleViolations (clearance offset : Z) (copperAreas : Paths)
    (board : Board) : list DrcMsg :=
  flat_map (λ hole,
    reported copperAreas
      (gen_addHole board maxArcTolerance hole Transform_default offset)
      (DrcMsgCopperHoleClearanceViolation None (hole_uuid hole) clearance))
    (getHoles board)
  ++ flat_map (λ device,
       flat_map (λ hole,
         reported copperAreas
           (gen_addHole board maxArcTolerance hole
                        (Transform_ofDevice device) offset)
           (DrcMsgCopperHoleClearanceViolation (Some (dev_uuid device))
                                               (hole_uuid hole) clearance))
         (fpt_holes (dev_libFootprint device)))
     (getDeviceInstances board).

(** The areas where copper is available on all layers. *)
Definition allLayerCopper (st : DrcState) : Exc Paths :=
  thtCopperAreas ← foldExc (getCopperLayers (mBoard st)) []
    (λ thtCopperAreas layer,
       paths ← copperPathsOf st layer ∅;
       mret (thtCopperAreas ++ [paths]));
  thtCopperAreaIntersections ← ClipperHelpers_intersectAll thtCopperAreas;
  ClipperHelpers_treeToPaths thtCopperAreaIntersections.

(** The part of an area that the copper does not cover, when there is
    some. *)
Definition uncovered (areas : Exc Paths) (thtCopperAreaPaths : Paths)
  : option (list Path) :=
  match a ← areas; remainingLocations a thtCopperAreaPaths with
  | inr (location :: locations) => Some (location :: locations)
  | _ => None
  end.

(** The vias, then the pads per device, whose drills with their annular
    ring are not fully covered by copper on all layers. A via whose
    computed diameter is not positive is skipped; the holes of a pad are
    tested together. *)
Definition annularRingViolations (annularWidth : Z)
    (thtCopperAreaPaths : Paths) (board : Board) : list DrcMsg :=
  flat_map (λ netsegment,
    flat_map (λ via,
      let diameter :=
        annularRingDiameter (via_drillDiameter via) annularWidth in
      if decide (diameter ≤ 0) then []
      else option_list
             (DrcMsgMinimumAnnularRingViolation (ObjVia (via_uuid via))
                                                annularWidth
              <$> uncovered (viaRingAreas via diameter)
                            thtCopperAreaPaths))
      (ns_vias netsegment))
    (getNetSegments board)
  ++ flat_map (λ device,
       flat_map (λ pad,
         option_list
           (DrcMsgMinimumAnnularRingViolation (ObjPad (pad_uuid pad))
                                              annularWidth
            <$> uncovered (padRingAreas annularWidth pad)
                          thtCopperAreaPaths))
         (dev_pads device))
     (getDeviceInstances board).

(** *** Courtyards *)

(** "determine device courtyard areas" *)
Definition deviceCourtyards (board : Board) (layer : Layer)
  : Exc (list (Device * Paths)) :=
  collect (getDeviceInstances board) (λ device,
    paths ← getDeviceCourtyardPaths device layer;
    mret [(device, paths)]).

(** The pairs of devices whose courtyards overlap. *)
Definition courtyardOverlaps (courtyards : list (Device * Paths))
  : list DrcMsg :=
  flat_map (λ p,
    reported (snd (fst p)) (inr (snd (snd p)))
             (DrcMsgCourtyardOverlap (dev_uuid (fst (fst p)))
                                     (dev_uuid (fst (snd p)))))
    (pairs courtyards).

(** A device whose footprint circles are moved to other centres. *)
Definition withCircleCenters (center : Circle → Point) (device : Device)
  : Device :=
  let footprint := dev_libFootprint device in
  mkDevice (dev_uuid device) (dev_position device) (dev_rotation device)
    (dev_mirrored device) (dev_componentInstance device)
    (dev_libDeviceUuid device)
    (mkFootprint
       (fpt_polygons footprint)
       (map (λ circle,
               mkCircle (circle_uuid circle) (circle_layer circle)
                        (circle_lineWidth circle) (circle_filled circle)
                        (center circle) (circle_diameter circle))
            (fpt_circles footprint))
       (fpt_holes footprint))
    (dev_pads device) (dev_strokeTexts device).

(** *** Board outline *)

(** The outline objects of a device: its polygons, then its circles, on
    the board outline layer. *)
Definition deviceOutlines (device : Device) : list Path :=
  let transform := Transform_ofDevice device in
  map (λ polygon, Transform_mapPath transform (polygon_path polygon))
      (filter (λ polygon, polygon_layer polygon = boardOutlines)
              (fpt_polygons (dev_libFootprint device)))
  ++ map (λ circle,
            Path_translated
              (Path_circle (circle_diameter circle))
              (Transform_mapPoint transform (circle_center circle)))
         (filter (λ circle, circle_layer circle = boardOutlines)
                 (fpt_circles (dev_libFootprint device))).

(** "Collect all board outline objects" *)
Definition boardOutlinePaths (board : Board) : list Path :=
  map polygon_path
      (filter (λ polygon, polygon_layer polygon = boardOutlines)
              (getPolygons board))
  ++ flat_map deviceOutlines (getDeviceInstances board).

Definition isOpenOutline (device : Device) (polygon : Polygon) : bool :=
  bool_decide (polygon_layer polygon = boardOutlines)
  && negb (Path_isClosed
             (Transform_mapPath (Transform_ofDevice device)
                                (polygon_path polygon))).

(** "report open polygons": those of the devices; the strokes of the
    location are at least 100 µm wide. *)
Definition openOutlinePolygons (board : Board) : list DrcMsg :=
  flat_map (λ device,
    map (λ polygon,
           DrcMsgOpenBoardOutlinePolygon
             (Some (dev_uuid device)) (polygon_uuid polygon)
             (Path_toOutlineStrokes
                (Transform_mapPath (Transform_ofDevice device)
                                   (polygon_path polygon))
                (Z.max (polygon_lineWidth polygon) 100000)))
        (filter (λ polygon, isOpenOutline device polygon = true)
                (fpt_polygons (dev_libFootprint device))))
    (getDeviceInstances board).

(** The areas that a tool of the given radius cannot cut. *)
Definition nonManufacturableAreas (drawnBoardAreaTree : PolyTree)
    (minEdgeRadius : Z) : Exc Paths :=
  let offset1 := Z.max (Length.sub minEdgeRadius 10000) 0 in
  let offset2 := Length.neg minEdgeRadius in
  drawnBoardArea ← ClipperHelpers_treeToPaths drawnBoardAreaTree;
  areas ← ClipperHelpers_offset drawnBoardArea offset1 maxArcTolerance;
  areas ← ClipperHelpers_offset areas offset2 maxArcTolerance;
  difference ← ClipperHelpers_subtractToTree areas drawnBoardArea;
  ClipperHelpers_flattenTree difference.

(** The messages about the drawn board area: several independent
    outlines, and inner corners too tight for the smallest tool. *)
Definition boardAreaMessages (toolDiameter : Z) (outlines : list Path)
  : Exc (list DrcMsg) :=
  drawnBoardAreaTree ←
    ClipperHelpers_uniteToTree
      (ClipperHelpers_convert outlines maxArcTolerance) pftEvenOdd;
  flattenedBoardArea ← ClipperHelpers_flattenTree drawnBoardAreaTree;
  minEdgeRadius ← mkUnsignedLength (Length.div toolDiameter 2);
  corners ← (if decide (0 < minEdgeRadius) then
               areas ← nonManufacturableAreas drawnBoardAreaTree
                                              minEdgeRadius;
               mret (if negb (isEmpty areas) then
                       [DrcMsgMinimumBoardOutlineInnerRadiusViolation
                          minEdgeRadius (ClipperHelpers_convertBack areas)]
                     else [])
             else mret []);
  mret ((if decide (1 < length flattenedBoardArea)%nat then
           [DrcMsgMultipleBoardOutlines
              (ClipperHelpers_convertBack flattenedBoardArea)]
         else [])
        ++ corners).

End Reports.

(** * Properties *)

(** ** 64 bit lengths *)

Lemma Length_wrap_inRange z : Length.inRange z → Length.wrap z = z.
Proof.
  unfold Length.inRange, Length.wrap, Length.min_val, Length.max_val.
  intros Hz. rewrite Z.mod_small; lia.
Qed.

Lemma Length_wrap_range z : Length.inRange (Length.wrap z).
Proof.
  unfold Length.inRange, Length.wrap, Length.min_val, Length.max_val.
  pose proof (Z.mod_pos_bound (z + 2 ^ 63) (2 ^ 64)). lia.
Qed.

(** ** Reasoning about member functions *)

Section Reasoning.
Context `{Geometry} {SExpression : Type}
        `{!RuleCheckMessage SExpression DrcMsg}.

Lemma returned_final (o : Outcome unit) :
  isReturned o = true → o = Returned tt (final o).
Proof. by destruct o as [[] st |]. Qed.

Lemma thrown_final (o : Outcome unit) ex :
  thrownException o = Some ex → o = Thrown ex (final o).
Proof. destruct o; [done |]. by intros [= ->]. Qed.

Lemma appended_refl st : appended noEffect st st.
Proof. unfold appended; simpl. by rewrite !app_nil_r. Qed.

Lemma appended_trans e1 e2 st1 st2 st3 :
  appended e1 st1 st2 → appended e2 st2 st3
  → appended (Effect_app e1 e2) st1 st3.
Proof.
  intros (Hm1 & Hs1 & He1 & HS1 & HI1) (Hm2 & Hs2 & He2 & HS2 & HI2).
  unfold appended; simpl.
  rewrite Hm2, Hm1, Hs2, Hs1, He2, He1, HS2, HS1, HI2, HI1, !app_assoc.
  done.
Qed.

Lemma messageSignals_app ms1 ms2 :
  messageSignals (ms1 ++ ms2) = messageSignals ms1 ++ messageSignals ms2.
Proof. apply map_app. Qed.

Lemma BodyP_noEffect ks S r : BodyP ks S r noEffect.
Proof. repeat split; constructor. Qed.

Lemma BodyP_app ks S r1 r2 r e1 e2 :
  BodyP ks S r1 e1 → BodyP ks S r2 e2 → BodyP ks S r (Effect_app e1 e2).
Proof.
  intros (Hs1 & Hk1 & He1) (Hs2 & Hk2 & He2). repeat split; simpl.
  - by rewrite Hs1, Hs2.
  - by apply Forall_app.
  - by rewrite He1, He2, messageSignals_app.
Qed.

Lemma sat_body_ret {A} (a : A) ks : sat (mret a) (BodyP ks).
Proof.
  intros st. exists noEffect. split; [apply appended_refl |].
  apply BodyP_noEffect.
Qed.

Lemma sat_body_bind {A B} (m : M A) (f : A → M B) ks :
  sat m (BodyP ks) → (∀ a, sat (f a) (BodyP ks))
  → sat (m ≫= f) (BodyP ks).
Proof.
  intros Hm Hf st. destruct (Hm st) as (e1 & Happ1 & HP1).
  unfold mbind, M_bind. destruct (m st) as [a st1 | ex st1]; simpl in *.
  - destruct (Hf a st1) as (e2 & Happ2 & HP2).
    exists (Effect_app e1 e2). split; [by eapply appended_trans |].
    eapply BodyP_app; [apply HP1 |].
    destruct Happ1 as (_ & _ & _ & <- & _). apply HP2.
  - exists e1. split; [done |]. apply HP1.
Qed.

Lemma sat_body_gets {A} (f : DrcState → A) ks : sat (gets f) (BodyP ks).
Proof.
  intros st. exists noEffect. split; [apply appended_refl |].
  apply BodyP_noEffect.
Qed.

Lemma sat_body_liftExc {A} (c : Exc A) ks : sat (liftExc c) (BodyP ks).
Proof.
  intros st. exists noEffect. unfold liftExc.
  destruct c; (split; [apply appended_refl | apply BodyP_noEffect]).
Qed.

Lemma sat_body_emitMessage msg ks :
  kindOf msg ∈ ks → sat (emitMessage msg) (BodyP ks).
Proof.
  intros Hk st. exists (mkEffect [msg] [] [progressMessage (getMessage msg)]).
  split.
  - unfold appended; simpl. by rewrite app_nil_r.
  - repeat split; simpl. by constructor.
Qed.

(** A change of the board or of the cache appends nothing. *)
Lemma sat_body_modify (f : DrcState → DrcState) ks :
  (∀ st, mMessages (f st) = mMessages st
         ∧ mProgressStatus (f st) = mProgressStatus st
         ∧ emitted (f st) = emitted st
         ∧ mSettings (f st) = mSettings st
         ∧ mIgnorePlanes (f st) = mIgnorePlanes st)
  → sat (modify f) (BodyP ks).
Proof.
  intros Hf st. exists noEffect. split; [| apply BodyP_noEffect].
  destruct (Hf st) as (Hm & Hs & He & HS & HI).
  unfold appended; simpl. by rewrite Hm, Hs, He, HS, HI, !app_nil_r.
Qed.

Lemma sat_body_foreach {A} (l : list A) (body : A → M unit) ks :
  (∀ x, sat (body x) (BodyP ks)) → sat (foreach l body) (BodyP ks).
Proof.
  intros Hbody. induction l as [| x l IH]; simpl.
  - apply sat_body_ret.
  - apply sat_body_bind; [apply Hbody | intros _; apply IH].
Qed.

Lemma sat_body_foreachAcc {A B} (l : list A) (acc : B)
    (body : B → A → M B) ks :
  (∀ acc x, sat (body acc x) (BodyP ks))
  → sat (foreachAcc l acc body) (BodyP ks).
Proof.
  intros Hbody. revert acc. induction l as [| x l IH]; intros acc; simpl.
  - apply sat_body_ret.
  - apply sat_body_bind; [apply Hbody | intros acc'; apply IH].
Qed.

Lemma sat_body_forPairs {A} (items : list A) (body : A → A → M unit) ks :
  (∀ x y, sat (body x y) (BodyP ks)) → sat (forPairs items body) (BodyP ks).
Proof.
  intros Hbody. induction items as [| x l IH]; simpl.
  - apply sat_body_ret.
  - apply sat_body_bind; [| intros _; apply IH].
    apply sat_body_foreach. intros y. apply Hbody.
Qed.

Lemma sat_body_getCopperPaths layer nets ks :
  sat (getCopperPaths layer nets) (BodyP ks).
Proof.
  unfold getCopperPaths.
  apply sat_body_bind; [apply sat_body_gets | intros cache].
  destruct (lookupCache _ _); [apply sat_body_ret |].
  apply sat_body_bind; [apply sat_body_gets | intros board].
  apply sat_body_bind; [apply sat_body_gets | intros ignorePlanes].
  apply sat_body_bind; [apply sat_body_liftExc | intros paths].
  apply sat_body_bind; [| intros _; apply sat_body_ret].
  apply sat_body_modify. done.
Qed.

(** The end of a check. *)
Lemma sat_tail_emitProgress ks progressEnd :
  sat (emitProgress progressEnd) (TailP ks progressEnd).
Proof.
  intros st. exists (mkEffect [] [] [progressPercent progressEnd]).
  split.
  - unfold appended; simpl. by rewrite !app_nil_r.
  - repeat split; simpl. constructor.
Qed.

Lemma sat_tail_bind {A} (m : M A) (f : A → M unit) ks progressEnd :
  sat m (BodyP ks) → (∀ a, sat (f a) (TailP ks progressEnd))
  → sat (m ≫= f) (TailP ks progressEnd).
Proof.
  intros Hm Hf st. destruct (Hm st) as (e1 & Happ1 & Hs1 & Hk1 & He1).
  unfold mbind, M_bind. destruct (m st) as [a st1 | ex st1]; simpl in *.
  - destruct (Hf a st1) as (e2 & Happ2 & Hs2 & Hk2 & He2).
    exists (Effect_app e1 e2). split; [by eapply appended_trans |].
    repeat split; simpl.
    + by rewrite Hs1, Hs2.
    + by apply Forall_app.
    + by rewrite He1, He2, messageSignals_app, app_assoc.
  - exists e1. split; [done |]. repeat split; [done | done |].
    by rewrite app_nil_r.
Qed.

(** A check that starts with its status. *)
Lemma sat_status_tail status (rest : M unit) ks progressEnd S r e st :
  appended e (withStatus st status) (final (rest (withStatus st status)))
  → TailP ks progressEnd S r e
  → ∃ e', appended e' st (final (rest (withStatus st status)))
          ∧ e_status e' = [status]
          ∧ Forall (λ m, kindOf m ∈ ks) (e_messages e')
          ∧ e_signals e' = progressStatus status
                           :: messageSignals (e_messages e')
                           ++ (if r then [progressPercent progressEnd]
                               else []).
Proof.
  intros (Hm & Hs & He & HS & HI) (Hst & Hk & Hsig).
  exists (mkEffect (e_messages e) [status]
                   (progressStatus status :: e_signals e)).
  simpl in *. repeat split; try done.
  - by rewrite Hs, Hst, app_nil_r.
  - by rewrite He, <- app_assoc.
  - by rewrite Hsig.
Qed.

Lemma sat_check_always status (rest : M unit) ks progressEnd :
  sat rest (TailP ks progressEnd)
  → sat (emitStatus status;; rest)
        (CheckP (λ _, true) status progressEnd ks).
Proof.
  intros Hrest st. destruct (Hrest (withStatus st status)) as (e & Ha & HP).
  destruct (sat_status_tail _ _ _ _ _ _ _ _ Ha HP) as (e' & Ha' & HP').
  exists e'. split; [exact Ha' | exact HP'].
Qed.

Lemma sat_check_nonZero (g : BoardDesignRuleCheckSettings → Z) status
    (rest : Z → M unit) ks progressEnd :
  (∀ x, sat (rest x) (TailP ks progressEnd))
  → sat (x ← gets (λ st, g (mSettings st));
         if decide (x = 0) then mret tt else emitStatus status;; rest x)
        (CheckP (λ S, nonZero (g S)) status progressEnd ks).
Proof.
  intros Hrest st. unfold CheckP, nonZero.
  assert (Heq : (x ← gets (λ st, g (mSettings st));
                 if decide (x = 0) then mret tt
                 else emitStatus status;; rest x) st
                = if decide (g (mSettings st) = 0) then Returned tt st
                  else rest (g (mSettings st)) (withStatus st status)).
  { unfold mbind, M_bind, gets. by destruct (decide _). }
  rewrite Heq. clear Heq.
  destruct (decide (g (mSettings st) = 0)) as [Hz | Hz].
  - exists noEffect. split; [apply appended_refl |].
    rewrite Hz. simpl. done.
  - destruct (Hrest (g (mSettings st)) (withStatus st status))
      as (e & Ha & HP).
    destruct (sat_status_tail _ _ _ _ _ _ _ _ Ha HP) as (e' & Ha' & HP').
    exists e'. split; [exact Ha' |].
    apply Z.eqb_neq in Hz. rewrite Hz. simpl. exact HP'.
Qed.

Lemma sat_check_notAny (g : BoardDesignRuleCheckSettings → AllowedSlots.t)
    status (rest : AllowedSlots.t → M unit) ks progressEnd :
  (∀ x, sat (rest x) (TailP ks progressEnd))
  → sat (x ← gets (λ st, g (mSettings st));
         if decide (x = AllowedSlots.Any) then mret tt
         else emitStatus status;; rest x)
        (CheckP (λ S, notAny (g S)) status progressEnd ks).
Proof.
  intros Hrest st. unfold CheckP, notAny.
  assert (Heq : (x ← gets (λ st, g (mSettings st));
                 if decide (x = AllowedSlots.Any) then mret tt
                 else emitStatus status;; rest x) st
                = if decide (g (mSettings st) = AllowedSlots.Any)
                  then Returned tt st
                  else rest (g (mSettings st)) (withStatus st status)).
  { unfold mbind, M_bind, gets. by destruct (decide _). }
  rewrite Heq. clear Heq.
  destruct (decide (g (mSettings st) = AllowedSlots.Any)) as [Hz | Hz].
  - exists noEffect. split; [apply appended_refl |].
    rewrite bool_decide_eq_true_2 by done. simpl. done.
  - destruct (Hrest (g (mSettings st)) (withStatus st status))
      as (e & Ha & HP).
    destruct (sat_status_tail _ _ _ _ _ _ _ _ Ha HP) as (e' & Ha' & HP').
    exists e'. split; [exact Ha' |].
    rewrite bool_decide_eq_false_2 by done. simpl. exact HP'.
Qed.

End Reasoning.

(** ** What each check appends *)

Ltac kind_solver := cbn [kindOf]; set_solver.

Ltac sat_body :=
  lazymatch goal with
  | |- sat (mret _) (BodyP _) => apply sat_body_ret
  | |- sat (gets _) (BodyP _) => apply sat_body_gets
  | |- sat (liftExc _) (BodyP _) => apply sat_body_liftExc
  | |- sat (emitMessage _) (BodyP _) =>
      apply sat_body_emitMessage; kind_solver
  | |- sat (getCopperPaths _ _) (BodyP _) => apply sat_body_getCopperPaths
  | |- sat (modify _) (BodyP _) => apply sat_body_modify; done
  | |- sat (foreach _ _) (BodyP _) =>
      apply sat_body_foreach; intros; sat_body
  | |- sat (foreachAcc _ _ _) (BodyP _) =>
      apply sat_body_foreachAcc; intros; sat_body
  | |- sat (forPairs _ _) (BodyP _) =>
      apply sat_body_forPairs; intros; sat_body
  | |- sat (mbind _ _) (BodyP _) =>
      apply sat_body_bind; [sat_body | intros; sat_body]
  | |- sat (let _ := _ in _) (BodyP _) => cbv zeta; sat_body
  | |- sat (if ?c then _ else _) (BodyP _) => destruct c; sat_body
  | |- sat (match ?c with _ => _ end) (BodyP _) => destruct c; sat_body
  | |- sat (checkStrokeTextWidth _ _ _) (BodyP _) =>
      unfold checkStrokeTextWidth; sat_body
  | |- sat (reportIfIntersects _ _ _) (BodyP _) =>
      unfold reportIfIntersects; sat_body
  | |- sat (testAnnularRing _ _ _) (BodyP _) =>
      unfold testAnnularRing; sat_body
  | |- sat (checkViaAnnularRing _ _ _) (BodyP _) =>
      unfold checkViaAnnularRing; sat_body
  end.

Ltac sat_tail :=
  lazymatch goal with
  | |- sat (emitProgress _) (TailP _ _) => apply sat_tail_emitProgress
  | |- sat (mbind _ _) (TailP _ _) =>
      apply sat_tail_bind; [sat_body | intros; sat_tail]
  | |- sat (let _ := _ in _) (TailP _ _) => cbv zeta; sat_tail
  end.

Section Checks.
Context `{Geometry} {SExpression : Type}
        `{!RuleCheckMessage SExpression DrcMsg}.

Lemma rebuildPlanes_sat : sat (rebuildPlanes 12) (StepP rebuildStep).
Proof.
  unfold rebuildPlanes, StepP; simpl. apply sat_check_always. sat_tail.
Qed.

Lemma checkMinimumCopperWidth_sat pe :
  sat (checkMinimumCopperWidth pe)
      (CheckP (λ S, nonZero (getMinCopperWidth S))
              "Check copper widths..." pe [MinimumWidthViolation]).
Proof.
  unfold checkMinimumCopperWidth.
  apply (sat_check_nonZero getMinCopperWidth). intros x. sat_tail.
Qed.

Lemma checkCopperCopperClearances_sat pe :
  sat (checkCopperCopperClearances pe)
      (CheckP (λ S, nonZero (getMinCopperCopperClearance S))
              "Check copper clearances..." pe
              [CopperCopperClearanceViolation]).
Proof.
  unfold checkCopperCopperClearances.
  apply (sat_check_nonZero getMinCopperCopperClearance). intros x. sat_tail.
Qed.

Lemma checkCopperBoardClearances_sat pe :
  sat (checkCopperBoardClearances pe)
      (CheckP (λ S, nonZero (getMinCopperBoardClearance S))
              "Check board clearances..." pe
              [CopperBoardClearanceViolation]).
Proof.
  unfold checkCopperBoardClearances.
  apply (sat_check_nonZero getMinCopperBoardClearance). intros x. sat_tail.
Qed.

Lemma checkCopperHoleClearances_sat pe :
  sat (checkCopperHoleClearances pe)
      (CheckP (λ S, nonZero (getMinCopperNpthClearance S))
              "Check hole clearances..." pe
              [CopperHoleClearanceViolation]).
Proof.
  unfold checkCopperHoleClearances.
  apply (sat_check_nonZero getMinCopperNpthClearance). intros x. sat_tail.
Qed.

Lemma checkDrillDrillClearances_sat pe :
  sat (checkDrillDrillClearances pe)
      (CheckP (λ S, nonZero (getMinDrillDrillClearance S))
              "Check drill clearances..." pe
              [DrillDrillClearanceViolation]).
Proof.
  unfold checkDrillDrillClearances.
  apply (sat_check_nonZero getMinDrillDrillClearance). intros x. sat_tail.
Qed.

Lemma checkDrillBoardClearances_sat pe :
  sat (checkDrillBoardClearances pe)
      (CheckP (λ S, nonZero (getMinDrillBoardClearance S))
              "Check drill to board edge clearances..." pe
              [DrillBoardClearanceViolation]).
Proof.
  unfold checkDrillBoardClearances.
  apply (sat_check_nonZero getMinDrillBoardClearance). intros x. sat_tail.
Qed.

Lemma checkMinimumPthAnnularRing_sat pe :
  sat (checkMinimumPthAnnularRing pe)
      (CheckP (λ S, nonZero (getMinPthAnnularRing S))
              "Check PTH annular rings..." pe
              [MinimumAnnularRingViolation]).
Proof.
  unfold checkMinimumPthAnnularRing.
  apply (sat_check_nonZero getMinPthAnnularRing). intros x. sat_tail.
Qed.

Lemma checkMinimumNpthDrillDiameter_sat pe :
  sat (checkMinimumNpthDrillDiameter pe)
      (CheckP (λ S, nonZero (getMinNpthDrillDiameter S))
              "Check NPTH drill diameters..." pe
              [MinimumDrillDiameterViolation]).
Proof.
  unfold checkMinimumNpthDrillDiameter.
  apply (sat_check_nonZero getMinNpthDrillDiameter). intros x. sat_tail.
Qed.

Lemma checkMinimumNpthSlotWidth_sat pe :
  sat (checkMinimumNpthSlotWidth pe)
      (CheckP (λ S, nonZero (getMinNpthSlotWidth S))
              "Check NPTH slot widths..." pe [MinimumSlotWidthViolation]).
Proof.
  unfold checkMinimumNpthSlotWidth.
  apply (sat_check_nonZero getMinNpthSlotWidth). intros x. sat_tail.
Qed.

Lemma checkMinimumPthDrillDiameter_sat pe :
  sat (checkMinimumPthDrillDiameter pe)
      (CheckP (λ S, nonZero (getMinPthDrillDiameter S))
              "Check PTH drill diameters..." pe
              [MinimumDrillDiameterViolation]).
Proof.
  unfold checkMinimumPthDrillDiameter.
  apply (sat_check_nonZero getMinPthDrillDiameter). intros x. sat_tail.
Qed.

Lemma checkMinimumPthSlotWidth_sat pe :
  sat (checkMinimumPthSlotWidth pe)
      (CheckP (λ S, nonZero (getMinPthSlotWidth S))
              "Check PTH slot widths..." pe [MinimumSlotWidthViolation]).
Proof.
  unfold checkMinimumPthSlotWidth.
  apply (sat_check_nonZero getMinPthSlotWidth). intros x. sat_tail.
Qed.

Lemma checkAllowedNpthSlots_sat pe :
  sat (checkAllowedNpthSlots pe)
      (CheckP (λ S, notAny (getAllowedNpthSlots S))
              "Check for disallowed NPTH slots..." pe [ForbiddenSlot]).
Proof.
  unfold checkAllowedNpthSlots.
  apply (sat_check_notAny getAllowedNpthSlots). intros x. sat_tail.
Qed.

Lemma checkAllowedPthSlots_sat pe :
  sat (checkAllowedPthSlots pe)
      (CheckP (λ S, notAny (getAllowedPthSlots S))
              "Check for disallowed PTH slots..." pe [ForbiddenSlot]).
Proof.
  unfold checkAllowedPthSlots.
  apply (sat_check_notAny getAllowedPthSlots). intros x. sat_tail.
Qed.

Lemma checkInvalidPadConnections_sat pe :
  sat (checkInvalidPadConnections pe)
      (CheckP (λ _, true) "Check pad connections..." pe
              [InvalidPadConnection]).
Proof.
  unfold checkInvalidPadConnections. apply sat_check_always. sat_tail.
Qed.

Lemma checkCourtyardClearances_sat pe :
  sat (checkCourtyardClearances pe)
      (CheckP (λ _, true) "Check courtyard clearances..." pe
              [CourtyardOverlap]).
Proof.
  unfold checkCourtyardClearances. apply sat_check_always. sat_tail.
Qed.

Lemma checkBoardOutline_sat pe :
  sat (checkBoardOutline pe)
      (CheckP (λ _, true) "Check board outline..." pe
              [OpenBoardOutlinePolygon; MissingBoardOutline;
               MultipleBoardOutlines;
               MinimumBoardOutlineInnerRadiusViolation]).
Proof.
  unfold checkBoardOutline. apply sat_check_always. sat_tail.
Qed.

Lemma checkForUnplacedComponents_sat pe :
  sat (checkForUnplacedComponents pe)
      (CheckP (λ _, true) "Check for unplaced components..." pe
              [MissingDevice]).
Proof.
  unfold checkForUnplacedComponents. apply sat_check_always. sat_tail.
Qed.

Lemma checkCircuitDefaultDevices_sat pe :
  sat (checkCircuitDefaultDevices pe)
      (CheckP (λ _, true) "Check configured default devices..." pe
              [DefaultDeviceMismatch]).
Proof.
  unfold checkCircuitDefaultDevices. apply sat_check_always. sat_tail.
Qed.

Lemma checkForMissingConnections_sat pe :
  sat (checkForMissingConnections pe)
      (CheckP (λ _, true) "Check for missing connections..." pe
              [MissingConnection]).
Proof.
  unfold checkForMissingConnections. apply sat_check_always. sat_tail.
Qed.

Lemma checkForStaleObjects_sat pe :
  sat (checkForStaleObjects pe)
      (CheckP (λ _, true) "Check for stale objects..." pe
              [EmptyNetSegment; UnconnectedJunction]).
Proof.
  unfold checkForStaleObjects. apply sat_check_always. sat_tail.
Qed.

End Checks.

(** ** The run as a sequence of steps *)

Section Run.
Context `{Geometry} {SExpression : Type}
        `{!RuleCheckMessage SExpression DrcMsg}.

Lemma quickSteps_ok : Forall stepOk quickSteps.
Proof.
  unfold quickSteps, stepOk, StepP. repeat constructor; simpl.
  - apply checkMinimumCopperWidth_sat.
  - apply checkCopperCopperClearances_sat.
  - apply checkCopperBoardClearances_sat.
  - apply checkCopperHoleClearances_sat.
Qed.

Lemma slowSteps_ok : Forall stepOk slowSteps.
Proof.
  unfold slowSteps, stepOk, StepP. repeat constructor; simpl.
  - apply checkDrillDrillClearances_sat.
  - apply checkDrillBoardClearances_sat.
  - apply checkMinimumPthAnnularRing_sat.
  - apply checkMinimumNpthDrillDiameter_sat.
  - apply checkMinimumNpthSlotWidth_sat.
  - apply checkMinimumPthDrillDiameter_sat.
  - apply checkMinimumPthSlotWidth_sat.
  - apply checkAllowedNpthSlots_sat.
  - apply checkAllowedPthSlots_sat.
  - apply checkInvalidPadConnections_sat.
  - apply checkCourtyardClearances_sat.
  - apply checkBoardOutline_sat.
  - apply checkForUnplacedComponents_sat.
  - apply checkCircuitDefaultDevices_sat.
  - apply checkForMissingConnections_sat.
  - apply checkForStaleObjects_sat.
Qed.

Lemma steps_ok quick : Forall stepOk (steps quick).
Proof.
  destruct quick; unfold steps; [apply quickSteps_ok |].
  constructor; [apply rebuildPlanes_sat |].
  apply Forall_app. split; [apply quickSteps_ok | apply slowSteps_ok].
Qed.

Lemma Effect_app_noEffect_r e : Effect_app e noEffect = e.
Proof. destruct e. unfold Effect_app; simpl. by rewrite !app_nil_r. Qed.

Lemma foreach_steps_sat l :
  Forall stepOk l → sat (foreach l step_run) (RunP l).
Proof.
  induction 1 as [| s l Hs _ IH]; intros st; simpl.
  - exists noEffect. split; [apply appended_refl | done].
  - destruct (Hs st) as (e1 & Ha1 & HP1).
    unfold mbind, M_bind.
    destruct (step_run s st) as [[] st1 | ex st1]; simpl in *.
    + destruct (IH st1) as (e2 & Ha2 & HP2).
      exists (Effect_app e1 e2). split; [by eapply appended_trans |].
      exists e1, e2. split; [done |]. left. split; [done |].
      destruct Ha1 as (_ & _ & _ & <- & _). exact HP2.
    + exists e1. split; [done |]. exists e1, noEffect.
      split; [by rewrite Effect_app_noEffect_r |]. by right.
Qed.

(** [execute] resets the engine, runs the steps in order and, unless one
    of them throws, finishes. *)
Lemma execute_steps quick st :
  execute quick st =
  match foreach (steps quick) step_run (resetState quick st) with
  | Returned _ st' => Returned tt (finishedState st')
  | Thrown e st' => Thrown e st'
  end.
Proof.
  unfold execute.
  change ((emit started;; emitProgress 2;;
           modify (λ st, mkState (mBoard st) (mSettings st) quick
                           (mProgressPercent st) [] [] (mCachedPaths st)
                           (emitted st));; ?k) st)
    with (k (resetState quick st)).
  destruct quick; cbv [negb steps quickSteps slowSteps rebuildStep app
                       foreach step_run mbind M_bind mret M_ret];
    repeat lazymatch goal with
      | |- context [match ?c ?p ?s with
                    | Returned _ _ => _ | Thrown _ _ => _ end] =>
          destruct (c p s) as [[] ?|]; try reflexivity
      end.
Qed.

End Run.

(** ** What a run appends *)

Section RunFacts.
Context `{Geometry} {SExpression : Type}
        `{!RuleCheckMessage SExpression DrcMsg}.

Lemma progressOf_app es1 es2 :
  progressOf (es1 ++ es2) = progressOf es1 ++ progressOf es2.
Proof. apply omap_app. Qed.

Lemma statusOf_app es1 es2 :
  statusOf (es1 ++ es2) = statusOf es1 ++ statusOf es2.
Proof. apply omap_app. Qed.

Lemma messagesOf_app es1 es2 :
  messagesOf (es1 ++ es2) = messagesOf es1 ++ messagesOf es2.
Proof. apply omap_app. Qed.

Lemma progressOf_messageSignals ms : progressOf (messageSignals ms) = [].
Proof. induction ms; simpl; done. Qed.

Lemma statusOf_messageSignals ms : statusOf (messageSignals ms) = [].
Proof. induction ms; simpl; done. Qed.

Lemma messagesOf_messageSignals ms :
  messagesOf (messageSignals ms) = map getMessage ms.
Proof. induction ms as [| m ms IH]; simpl; [done |]. by rewrite <- IH. Qed.

Lemma inner_messageSignals ms : Forall inner (messageSignals ms).
Proof. induction ms; constructor; done. Qed.

Lemma StepP_disabled s S r e :
  StepP s S r e → step_enabled s S = false → r = true ∧ e = noEffect.
Proof. unfold StepP, CheckP. intros HP Hen. by rewrite Hen in HP. Qed.

Lemma StepP_enabled s S r e :
  StepP s S r e → step_enabled s S = true →
  e_status e = [step_status s]
  ∧ Forall (λ m, kindOf m ∈ step_kinds s) (e_messages e)
  ∧ progressOf (e_signals e) = (if r then [step_progress s] else [])
  ∧ statusOf (e_signals e) = [step_status s]
  ∧ messagesOf (e_signals e) = map getMessage (e_messages e)
  ∧ Forall inner (e_signals e).
Proof.
  unfold StepP, CheckP. intros HP Hen. rewrite Hen in HP.
  destruct HP as (Hs & Hk & He). rewrite He. repeat split; try done.
  - simpl. rewrite progressOf_app, progressOf_messageSignals.
    by destruct r.
  - simpl. rewrite statusOf_app, statusOf_messageSignals.
    by destruct r.
  - simpl. rewrite messagesOf_app, messagesOf_messageSignals.
    destruct r; simpl; by rewrite app_nil_r.
  - constructor; [done |]. apply Forall_app. split.
    + apply inner_messageSignals.
    + destruct r; repeat constructor; done.
Qed.

Lemma enabledSteps_cons S s l :
  enabledSteps S (s :: l) =
  if step_enabled s S then s :: enabledSteps S l else enabledSteps S l.
Proof.
  unfold enabledSteps. rewrite filter_cons.
  case_decide as Hd; simpl in Hd; destruct (step_enabled s S); done.
Qed.

(** The kinds of the messages of a run: those of its enabled steps. *)
Lemma RunP_kinds l S r e :
  RunP l S r e →
  Forall (λ m, ∃ s, s ∈ enabledSteps S l ∧ kindOf m ∈ step_kinds s)
         (e_messages e).
Proof.
  revert r e. induction l as [| s l IH]; intros r e; simpl.
  - intros [_ ->]. constructor.
  - intros (e1 & e2 & -> & HP). rewrite enabledSteps_cons. simpl.
    assert (Hfirst : Forall (λ m, ∃ s0,
                s0 ∈ (if step_enabled s S then s :: enabledSteps S l
                      else enabledSteps S l)
                ∧ kindOf m ∈ step_kinds s0) (e_messages e1)).
    { assert (Hs : ∃ r1, StepP s S r1 e1)
        by (destruct HP as [[? _] | (_ & ? & _)]; eauto).
      destruct Hs as [r1 Hs].
      destruct (step_enabled s S) eqn:Hen.
      - destruct (StepP_enabled _ _ _ _ Hs Hen) as (_ & Hk & _).
        eapply Forall_impl; [exact Hk |]. intros m Hm.
        exists s. split; [left | done].
      - destruct (StepP_disabled _ _ _ _ Hs Hen) as [_ ->]. constructor. }
    apply Forall_app. split; [exact Hfirst |].
    destruct HP as [[_ HP] | (_ & _ & ->)]; [| constructor].
    eapply Forall_impl; [exact (IH _ _ HP) |].
    intros m (s0 & Hin & Hk). exists s0. split; [| done].
    destruct (step_enabled s S); [by right | done].
Qed.

(** A run that returns: the status log and the progress values are those
    of the enabled steps, in order. *)
Lemma RunP_returned l S e :
  RunP l S true e →
  e_status e = map step_status (enabledSteps S l)
  ∧ progressOf (e_signals e) = map step_progress (enabledSteps S l).
Proof.
  revert e. induction l as [| s l IH]; intros e; simpl.
  - intros [_ ->]. done.
  - intros (e1 & e2 & -> & [[Hs HP] | (? & _)]); [| done].
    destruct (IH _ HP) as [IHs IHp]. rewrite enabledSteps_cons. simpl.
    rewrite progressOf_app, IHs, IHp.
    destruct (step_enabled s S) eqn:Hen.
    + destruct (StepP_enabled _ _ _ _ Hs Hen) as (-> & _ & -> & _). done.
    + destruct (StepP_disabled _ _ _ _ Hs Hen) as [_ ->]. done.
Qed.

(** Any run: the status log and the progress values are a prefix of those
    of the enabled steps. *)
Lemma RunP_prefix l S r e :
  RunP l S r e →
  e_status e `prefix_of` map step_status (enabledSteps S l)
  ∧ progressOf (e_signals e)
    `prefix_of` map step_progress (enabledSteps S l).
Proof.
  revert r e. induction l as [| s l IH]; intros r e; simpl.
  - intros [_ ->]. done.
  - intros (e1 & e2 & -> & HP). rewrite enabledSteps_cons. simpl.
    rewrite progressOf_app.
    destruct HP as [[Hs HP] | (-> & Hs & ->)].
    + destruct (IH _ _ HP) as [IHs IHp].
      destruct (step_enabled s S) eqn:Hen.
      * destruct (StepP_enabled _ _ _ _ Hs Hen) as (-> & _ & -> & _).
        simpl. split; by apply prefix_cons.
      * destruct (StepP_disabled _ _ _ _ Hs Hen) as [_ ->]. done.
    + destruct (step_enabled s S) eqn:Hen.
      * destruct (StepP_enabled _ _ _ _ Hs Hen) as (-> & _ & -> & _).
        simpl. split; [apply prefix_cons |]; apply prefix_nil.
      * by destruct (StepP_disabled _ _ _ _ Hs Hen) as [? _].
Qed.

(** Any run: the signals carry the status log and the message texts. *)
Lemma RunP_signals l S r e :
  RunP l S r e →
  statusOf (e_signals e) = e_status e
  ∧ messagesOf (e_signals e) = map getMessage (e_messages e)
  ∧ Forall inner (e_signals e).
Proof.
  revert r e. induction l as [| s l IH]; intros r e; simpl.
  - intros [_ ->]. repeat split; constructor.
  - intros (e1 & e2 & -> & HP). simpl.
    rewrite statusOf_app, messagesOf_app, map_app.
    assert (H1 : statusOf (e_signals e1) = e_status e1
                 ∧ messagesOf (e_signals e1) = map getMessage (e_messages e1)
                 ∧ Forall inner (e_signals e1)).
    { assert (Hs : ∃ r1, StepP s S r1 e1)
        by (destruct HP as [[? _] | (_ & ? & _)]; eauto).
      destruct Hs as [r1 Hs].
      destruct (step_enabled s S) eqn:Hen.
      - destruct (StepP_enabled _ _ _ _ Hs Hen)
          as (-> & _ & _ & -> & -> & Hi). done.
      - destruct (StepP_disabled _ _ _ _ Hs Hen) as [_ ->].
        repeat split; constructor. }
    destruct H1 as (-> & -> & Hi1).
    destruct HP as [[_ HP] | (_ & _ & ->)].
    + destruct (IH _ _ HP) as (-> & -> & Hi2).
      repeat split; try done. by apply Forall_app.
    + simpl. repeat split; try done. rewrite app_nil_r. done.
Qed.

(** What [execute] does, in one statement: the steps append [e] to the
    reset state; the run is finished when they return. *)
Lemma execute_spec quick st :
  ∃ e st', appended e (resetState quick st) st'
           ∧ RunP (steps quick) (mSettings st)
                  (isReturned (execute quick st)) e
           ∧ final (execute quick st)
             = (if isReturned (execute quick st) then finishedState st'
                else st').
Proof.
  rewrite execute_steps.
  destruct (foreach_steps_sat _ (steps_ok quick) (resetState quick st))
    as (e & Ha & HP).
  exists e, (final (foreach (steps quick) step_run (resetState quick st))).
  destruct (foreach _ _ _) as [[] st' | ex st']; simpl in *; done.
Qed.

End RunFacts.

(** ** The run as a whole *)

(** A message kind that is in one literal list cannot be in a disjoint
    one. *)
Ltac refute_kind Hk Hc :=
  repeat (apply elem_of_cons in Hk as [Hk | Hk];
          [rewrite Hk in Hc;
           match type of Hc with
           | ?k ∈ ?ks => assert (k ∉ ks) by compute_done
           end; done |]);
  by apply elem_of_nil in Hk.

(** The items appended for one object: one item, or none. *)
Ltac single_item :=
  repeat first
    [ progress (unfold mbind, Exc_bind, mret, Exc_ret)
    | match goal with
      | |- context [if ?c then _ else _] => destruct c
      | |- context [match ?c with inl _ => _ | inr _ => _ end] => destruct c
      end ];
  try done; intros [= <-]; repeat constructor; done.

Section Execute.
Context `{Geometry} {SExpression : Type}
        `{!RuleCheckMessage SExpression DrcMsg}.

(** The logs of the engine after [execute], in terms of what the steps
    appended. *)
Lemma execute_final quick st :
  let o := execute quick st in
  ∃ e, RunP (steps quick) (mSettings st) (isReturned o) e
       ∧ mMessages (final o) = e_messages e
       ∧ mProgressStatus (final o)
         = e_status e
           ++ (if isReturned o
               then [finishedStatus (length (e_messages e))] else [])
       ∧ emittedSince st (final o)
         = [started; progressPercent 2] ++ e_signals e
           ++ (if isReturned o
               then [progressStatus
                       (finishedStatus (length (e_messages e)));
                     progressPercent 100; finished]
               else [])
       ∧ mSettings (final o) = mSettings st
       ∧ mIgnorePlanes (final o) = quick.
Proof.
  intros o. destruct (execute_spec quick st) as (e & st' & Ha & HP & Hfin).
  fold o in HP, Hfin. exists e. split; [exact HP |].
  destruct Ha as (Hm & Hs & He & HS & HI). simpl in *.
  unfold emittedSince. rewrite Hfin.
  destruct (isReturned o); simpl; rewrite ?Hm, ?Hs, ?He, ?HS, ?HI;
    repeat split; try done.
  - rewrite <- !app_assoc. by rewrite drop_app_length.
  - by rewrite app_nil_r.
  - rewrite app_nil_r, <- !app_assoc. by rewrite drop_app_length.
Qed.

Lemma elem_of_enabledSteps S s l :
  s ∈ enabledSteps S l → s ∈ l ∧ step_enabled s S = true.
Proof. unfold enabledSteps. rewrite list_elem_of_filter. tauto. Qed.

Lemma fmap_sublist {A B} (f : A → B) (l k : list A) :
  l `sublist_of` k → map f l `sublist_of` map f k.
Proof. induction 1; simpl; by constructor. Qed.

Lemma enabled_status_sublist S l :
  map step_status (enabledSteps S l) `sublist_of` map step_status l.
Proof. apply fmap_sublist, sublist_filter. Qed.

Lemma enabled_progress_sublist S l :
  map step_progress (enabledSteps S l) `sublist_of` map step_progress l.
Proof. apply fmap_sublist, sublist_filter. Qed.

Lemma prefix_sublist {A} (l k : list A) :
  l `prefix_of` k → l `sublist_of` k.
Proof. intros [r ->]. by apply sublist_inserts_r. Qed.

Lemma StronglySorted_sublist {A} (R : relation A) (l k : list A) :
  l `sublist_of` k → StronglySorted R k → StronglySorted R l.
Proof.
  induction 1 as [| x l k Hsub IH | x l k Hsub IH]; intros Hk.
  - constructor.
  - apply StronglySorted_inv in Hk as [Hk Hx].
    constructor; [by apply IH |].
    apply Forall_forall. intros y Hy.
    eapply Forall_forall in Hx; [exact Hx |].
    by eapply elem_of_sublist.
  - apply StronglySorted_inv in Hk as [Hk _]. by apply IH.
Qed.

Lemma quick_statuses_distinct :
  Forall (λ t, t ≠ "Rebuild planes..." ∧ t ∉ map step_status slowSteps)
         (map step_status quickSteps).
Proof. by compute_done. Qed.

Lemma check_statuses_start :
  Forall (λ t, startsWith "C"%char t = true)
         (map step_status (quickSteps ++ slowSteps)).
Proof. by compute_done. Qed.

Lemma finishedStatus_start n : startsWith "C"%char (finishedStatus n) = false.
Proof. reflexivity. Qed.

Lemma finishedStatus_not_check n :
  finishedStatus n ≠ "Rebuild planes..."
  ∧ finishedStatus n ∉ map step_status (quickSteps ++ slowSteps).
Proof.
  split; [done |]. intros Hin.
  pose proof check_statuses_start as Hall.
  rewrite Forall_forall in Hall. apply Hall in Hin.
  by rewrite finishedStatus_start in Hin.
Qed.

(** In quick mode the items of the clearance check hold no plane. *)
Lemma collect_Forall {A B} (P : B → Prop) (l : list A)
    (body : A → Exc (list B)) ys :
  (∀ x zs, body x = inr zs → Forall P zs)
  → collect l body = inr ys → Forall P ys.
Proof.
  intros Hbody. revert ys. induction l as [| x l IH]; intros ys; simpl.
  - intros [= <-]. constructor.
  - unfold mbind, Exc_bind.
    destruct (body x) as [| xs] eqn:Hx; [done |].
    destruct (collect l body) as [| zs]; [done |].
    intros [= <-]. apply Forall_app. split; [by eapply Hbody | by apply IH].
Qed.

Lemma copperItems_ignorePlanes board offset items :
  copperItems board true offset = inr items
  → Forall (λ it, ∀ u, ci_item it ≠ ObjPlane u) items.
Proof.
  unfold copperItems. cbv zeta. simpl negb. cbv iota.
  unfold mbind at 1, Exc_bind at 1.
  destruct (collect (getNetSegments board) _) as [| segments] eqn:Hseg;
    [done |].
  unfold mbind at 1, Exc_bind at 1. simpl.
  unfold mbind at 1, Exc_bind at 1.
  destruct (collect (getPolygons board) _) as [| polygons] eqn:Hpol;
    [done |].
  unfold mbind at 1, Exc_bind at 1.
  destruct (collect (getStrokeTexts board) _) as [| texts] eqn:Htxt;
    [done |].
  unfold mbind at 1, Exc_bind at 1.
  destruct (collect (getDeviceInstances board) _) as [| devices] eqn:Hdev;
    [done |].
  intros [= <-]. simpl.
  repeat (apply Forall_app; split).
  - eapply collect_Forall; [| exact Hseg]. clear. intros ns zs.
    unfold mbind at 1, Exc_bind at 1.
    destruct (collect (ns_vias ns) _) as [| vias] eqn:Hv; [done |].
    unfold mbind at 1, Exc_bind at 1.
    destruct (collect (ns_netLines ns) _) as [| lines] eqn:Hl; [done |].
    intros [= <-]. apply Forall_app. split.
    + eapply collect_Forall; [| exact Hv]. clear. intros via zs.
      single_item.
    + eapply collect_Forall; [| exact Hl]. clear. intros nl zs.
      single_item.
  - eapply collect_Forall; [| exact Hpol]. clear. intros p zs. single_item.
  - eapply collect_Forall; [| exact Htxt]. clear. intros t zs. single_item.
  - eapply collect_Forall; [| exact Hdev]. clear. intros d zs. cbv zeta.
    unfold mbind at 1, Exc_bind at 1.
    destruct (collect (dev_pads d) _) as [| pads] eqn:Hp; [done |].
    unfold mbind at 1, Exc_bind at 1.
    destruct (collect (fpt_polygons _) _) as [| pols] eqn:Hpo; [done |].
    unfold mbind at 1, Exc_bind at 1.
    destruct (collect (fpt_circles _) _) as [| cirs] eqn:Hc; [done |].
    unfold mbind at 1, Exc_bind at 1.
    destruct (collect (dev_strokeTexts d) _) as [| txts] eqn:Ht; [done |].
    intros [= <-]. repeat (apply Forall_app; split).
    + eapply collect_Forall; [| exact Hp]. clear. intros pad zs Hz.
      eapply collect_Forall; [| exact Hz]. clear. intros layer zs.
      single_item.
    + eapply collect_Forall; [| exact Hpo]. clear. intros p zs.
      single_item.
    + eapply collect_Forall; [| exact Hc]. clear. intros c zs. single_item.
    + eapply collect_Forall; [| exact Ht]. clear. intros t zs. single_item.
Qed.

(** *** Quick mode *)

(** Claim C2. Whatever the board and the settings, [execute] with
    [quick = true] runs, between its reset and its final status, the four
    checks minimum copper width, copper-copper clearance, copper-board
    clearance and copper-hole clearance and nothing else: every message
    it leaves is of one of their four kinds; every entry of the status
    log is the status of one of these four checks or the final status,
    so neither the plane rebuild nor any of the checks 5 to 17 has run;
    the planes are ignored, and the items of the copper-copper clearance
    check then hold no plane. *)
Theorem C2_quick_mode_runs_only_the_four_fast_checks (st : DrcState) :
  let st' := final (execute true st) in
  execute true st
  = match foreach quickSteps step_run (resetState true st) with
    | Returned _ st2 => Returned tt (finishedState st2)
    | Thrown e st2 => Thrown e st2
    end
  ∧ Forall (λ m, kindOf m ∈ quickKinds) (mMessages st')
  ∧ Forall (λ t, t ∈ map step_status quickSteps
                 ∨ t = finishedStatus (length (mMessages st')))
           (mProgressStatus st')
  ∧ Forall (λ t, t ≠ "Rebuild planes..."
                 ∧ t ∉ map step_status slowSteps) (mProgressStatus st')
  ∧ mIgnorePlanes st' = true
  ∧ (∀ board offset,
       match copperItems board true offset with
       | inr items => Forall (λ it, ∀ u, ci_item it ≠ ObjPlane u) items
       | inl _ => True
       end).
Proof.
  intros st'. split; [apply (execute_steps true) |].
  destruct (execute_final true st) as (e & HP & Hm & Hs & _ & _ & HI).
  fold st' in Hm, Hs, HI.
  assert (Hstatus : Forall (λ t, t ∈ map step_status quickSteps
                                 ∨ t = finishedStatus (length (mMessages st')))
                           (mProgressStatus st')).
  { rewrite Hs, Hm. apply Forall_app. split.
    - apply Forall_forall. intros t Ht. left.
      destruct (RunP_prefix _ _ _ _ HP) as [Hpre _].
      eapply elem_of_sublist;
        [| apply (enabled_status_sublist (mSettings st) quickSteps)].
      by eapply elem_of_prefix.
    - destruct (isReturned _); [| constructor].
      constructor; [by right | constructor]. }
  repeat split.
  - rewrite Hm. eapply Forall_impl; [exact (RunP_kinds _ _ _ _ HP) |].
    intros m (s & Hs' & Hk). apply elem_of_enabledSteps in Hs' as [Hs' _].
    simpl in Hs'. unfold quickSteps in Hs'.
    repeat (apply elem_of_cons in Hs' as [-> | Hs'];
            [simpl in Hk; apply list_elem_of_singleton in Hk as ->;
             by compute_done |]).
    by apply elem_of_nil in Hs'.
  - exact Hstatus.
  - eapply Forall_impl; [exact Hstatus |]. intros t [Ht | ->].
    + pose proof quick_statuses_distinct as Hd.
      rewrite Forall_forall in Hd. by apply Hd.
    + destruct (finishedStatus_not_check (length (mMessages st')))
        as [Hr Hc].
      split; [done |]. intros Hin. apply Hc.
      rewrite map_app. apply elem_of_app. by right.
  - exact HI.
  - intros board offset.
    destruct (copperItems board true offset) eqn:Hitems; [done |].
    by eapply copperItems_ignorePlanes.
Qed.

(** *** Disabled clearance checks *)

(** A run leaves no message of a kind whose checks are all disabled. *)
Lemma execute_without_kind quick st (k : MsgKind) :
  Forall (λ s, k ∈ step_kinds s → step_enabled s (mSettings st) = false)
         (steps quick)
  → Forall (λ m, kindOf m ≠ k) (mMessages (final (execute quick st))).
Proof.
  intros Hoff. destruct (execute_final quick st) as (e & HP & Hm & _).
  simpl in Hm. rewrite Hm.
  eapply Forall_impl; [exact (RunP_kinds _ _ _ _ HP) |].
  intros m (s & Hs & Hk) Hkind. rewrite Hkind in Hk.
  apply elem_of_enabledSteps in Hs as [Hs Hen].
  rewrite Forall_forall in Hoff. by rewrite (Hoff s Hs Hk) in Hen.
Qed.

(** The steps of a run that emit messages of kind [k] are disabled when
    the setting that enables them is 0. *)
Ltac kind_disabled Hzero :=
  match goal with
  | |- Forall _ (steps ?quick) =>
      destruct quick; unfold steps, rebuildStep, quickSteps, slowSteps;
      simpl; repeat constructor; simpl; intros Hk;
      first [ by rewrite Hzero
            | exfalso;
              match type of Hk with
              | ?k ∈ ?ks => assert (k ∉ ks) by compute_done
              end; done ]
  end.

(** Claim C3. A clearance check whose setting is 0 returns at once,
    leaving the engine as it found it, whatever the board and whatever
    the other settings: this holds for the copper-copper, copper-board,
    copper-hole, drill-drill and drill-board clearance checks, each on its
    own setting, and a run, quick or not, finished or aborted, then leaves
    no message of the kind of that check. Hence with all five clearance
    settings at 0 no message of a clearance kind is among the messages of
    a run. *)
Theorem C3_zero_clearance_disables_the_clearance_checks
    (st : DrcState) (quick : bool) (progressEnd : Z) :
  let S := mSettings st in
  let msgs := mMessages (final (execute quick st)) in
  (getMinCopperCopperClearance S = 0
   → checkCopperCopperClearances progressEnd st = Returned tt st
     ∧ Forall (λ m, kindOf m ≠ CopperCopperClearanceViolation) msgs)
  ∧ (getMinCopperBoardClearance S = 0
     → checkCopperBoardClearances progressEnd st = Returned tt st
       ∧ Forall (λ m, kindOf m ≠ CopperBoardClearanceViolation) msgs)
  ∧ (getMinCopperNpthClearance S = 0
     → checkCopperHoleClearances progressEnd st = Returned tt st
       ∧ Forall (λ m, kindOf m ≠ CopperHoleClearanceViolation) msgs)
  ∧ (getMinDrillDrillClearance S = 0
     → checkDrillDrillClearances progressEnd st = Returned tt st
       ∧ Forall (λ m, kindOf m ≠ DrillDrillClearanceViolation) msgs)
  ∧ (getMinDrillBoardClearance S = 0
     → checkDrillBoardClearances progressEnd st = Returned tt st
       ∧ Forall (λ m, kindOf m ≠ DrillBoardClearanceViolation) msgs)
  ∧ (getMinCopperCopperClearance S = 0
     → getMinCopperBoardClearance S = 0
     → getMinCopperNpthClearance S = 0
     → getMinDrillDrillClearance S = 0
     → getMinDrillBoardClearance S = 0
     → Forall (λ m, kindOf m ∉ clearanceKinds) msgs).
Proof.
  intros S msgs.
  assert (Hcc : getMinCopperCopperClearance S = 0
                → Forall (λ m, kindOf m ≠ CopperCopperClearanceViolation)
                         msgs).
  { intros Hz. apply execute_without_kind. fold S. kind_disabled Hz. }
  assert (Hcb : getMinCopperBoardClearance S = 0
                → Forall (λ m, kindOf m ≠ CopperBoardClearanceViolation)
                         msgs).
  { intros Hz. apply execute_without_kind. fold S. kind_disabled Hz. }
  assert (Hch : getMinCopperNpthClearance S = 0
                → Forall (λ m, kindOf m ≠ CopperHoleClearanceViolation)
                         msgs).
  { intros Hz. apply execute_without_kind. fold S. kind_disabled Hz. }
  assert (Hdd : getMinDrillDrillClearance S = 0
                → Forall (λ m, kindOf m ≠ DrillDrillClearanceViolation)
                         msgs).
  { intros Hz. apply execute_without_kind. fold S. kind_disabled Hz. }
  assert (Hdb : getMinDrillBoardClearance S = 0
                → Forall (λ m, kindOf m ≠ DrillBoardClearanceViolation)
                         msgs).
  { intros Hz. apply execute_without_kind. fold S. kind_disabled Hz. }
  split.
  { intros Hz. split; [| by apply Hcc].
    unfold checkCopperCopperClearances, mbind, M_bind, gets.
    fold S. by rewrite Hz. }
  split.
  { intros Hz. split; [| by apply Hcb].
    unfold checkCopperBoardClearances, mbind, M_bind, gets.
    fold S. by rewrite Hz. }
  split.
  { intros Hz. split; [| by apply Hch].
    unfold checkCopperHoleClearances, mbind, M_bind, gets.
    fold S. by rewrite Hz. }
  split.
  { intros Hz. split; [| by apply Hdd].
    unfold checkDrillDrillClearances, mbind, M_bind, gets.
    fold S. by rewrite Hz. }
  split.
  { intros Hz. split; [| by apply Hdb].
    unfold checkDrillBoardClearances, mbind, M_bind, gets.
    fold S. by rewrite Hz. }
  intros H1 H2 H3 H4 H5.
  specialize (Hcc H1). specialize (Hcb H2). specialize (Hch H3).
  specialize (Hdd H4). specialize (Hdb H5).
  rewrite Forall_forall in Hcc, Hcb, Hch, Hdd, Hdb |- *.
  intros m Hm Hin. unfold clearanceKinds in Hin.
  repeat (apply elem_of_cons in Hin as [Hin | Hin];
          [first [ by eapply Hcc | by eapply Hcb | by eapply Hch
                 | by eapply Hdd | by eapply Hdb ] |]).
  by apply elem_of_nil in Hin.
Qed.
(** *** Progress and status log *)

Lemma progress_schedule_sorted quick :
  StronglySorted Z.lt (2 :: map step_progress (steps quick) ++ [100]).
Proof. destruct quick; by compute_done. Qed.

Lemma progress_schedule_below quick :
  Forall (λ p, p ≠ 100) (2 :: map step_progress (steps quick)).
Proof. destruct quick; by compute_done. Qed.

Lemma elem_of_progressOf p es : p ∈ progressOf es ↔ progressPercent p ∈ es.
Proof.
  unfold progressOf. rewrite list_elem_of_omap. split.
  - intros (s & Hs & Hp). destruct s; simplify_eq. done.
  - intros Hp. by exists (progressPercent p).
Qed.

(** The progress values of a run are a part of the fixed schedule. *)
Lemma execute_progress quick st :
  let o := execute quick st in
  ∃ ps, progressOf (emittedSince st (final o))
        = 2 :: ps ++ (if isReturned o then [100] else [])
        ∧ ps `sublist_of` map step_progress (steps quick).
Proof.
  intros o.
  destruct (execute_final quick st) as (e & HP & _ & _ & He & _).
  fold o in HP, He. exists (progressOf (e_signals e)). split.
  - rewrite He. simpl. rewrite progressOf_app. f_equal. f_equal.
    by destruct (isReturned o).
  - destruct (RunP_prefix _ _ _ _ HP) as [_ Hpre].
    etrans; [by apply prefix_sublist |]. apply enabled_progress_sublist.
Qed.

(** A run that is aborted does not emit progress 100. *)
Lemma execute_thrown_below_100 quick st :
  match execute quick st with
  | Returned _ _ => True
  | Thrown _ st' => 100 ∉ progressOf (emittedSince st st')
  end.
Proof.
  destruct (execute_progress quick st) as (ps & Hps & Hsub).
  destruct (execute quick st) as [| ex st']; [done |]. simpl in Hps.
  rewrite Hps, app_nil_r. intros Hin.
  pose proof (progress_schedule_below quick) as Hb.
  rewrite Forall_forall in Hb. apply (Hb 100); [| done].
  eapply elem_of_sublist; [exact Hin |]. by apply sublist_skip.
Qed.

(** Claim C7, as the code has it. During one call of [execute] the
    progress percentages emitted are strictly increasing, so monotone
    non-decreasing. When [execute] returns, the last one is 100 and the
    status log holds, in order: "Rebuild planes..." unless the run is
    quick, one entry for each check whose setting does not disable it,
    and the final "Finished with N message(s)!". When a check throws,
    100 is not emitted and the status log is a prefix of these
    entries. *)
Theorem C7_progress_increases_and_status_log_of_a_finished_run
    (quick : bool) (st : DrcState) :
  let o := execute quick st in
  StronglySorted Z.lt (progressOf (emittedSince st (final o)))
  ∧ match o with
    | Returned _ st' =>
        last (progressOf (emittedSince st st')) = Some 100
        ∧ mProgressStatus st'
          = map step_status (enabledSteps (mSettings st) (steps quick))
            ++ [finishedStatus (length (mMessages st'))]
    | Thrown _ st' =>
        (100 ∉ progressOf (emittedSince st st'))
        ∧ (mProgressStatus st'
           `prefix_of`
           map step_status (enabledSteps (mSettings st) (steps quick)))
    end.
Proof.
  intros o.
  destruct (execute_progress quick st) as (ps & Hps & Hsub).
  destruct (execute_final quick st) as (e & HP & Hm & Hs & _).
  fold o in Hps, HP, Hm, Hs. split.
  - rewrite Hps.
    eapply StronglySorted_sublist; [| apply (progress_schedule_sorted quick)].
    apply sublist_skip, sublist_app; [done |].
    destruct (isReturned o); [done | apply sublist_nil_l].
  - destruct o as [[] st' | ex st'] eqn:Ho; simpl in *.
    + split.
      * rewrite Hps. change (2 :: ps ++ [100]) with ((2 :: ps) ++ [100]).
        apply last_snoc.
      * rewrite Hs, Hm. f_equal. by apply RunP_returned in HP as [-> _].
    + split.
      * pose proof (execute_thrown_below_100 quick st) as H100.
        fold o in H100. by rewrite Ho in H100.
      * rewrite Hs, app_nil_r. by apply RunP_prefix in HP as [? _].
Qed.

(** *** The message list of a run *)

(** Claim C9. [execute] empties the message list and the status log
    before the first check runs; every message is appended once, with its
    signal, in the order of emission. So after [execute], returned or
    aborted, the texts of the message list are those of the message
    signals of this call, in order, the status log is that of the status
    signals of this call, and nothing depends on the message list and the
    status log a previous run left in the engine. *)
Theorem C9_execute_starts_from_empty_logs
    (quick : bool) (st : DrcState)
    (oldMessages : list DrcMsg) (oldStatus : list string) :
  let st' := final (execute quick st) in
  let stOld := mkState (mBoard st) (mSettings st) (mIgnorePlanes st)
                       (mProgressPercent st) oldStatus oldMessages
                       (mCachedPaths st) (emitted st) in
  mMessages (resetState quick st) = []
  ∧ mProgressStatus (resetState quick st) = []
  ∧ execute quick st
    = match foreach (steps quick) step_run (resetState quick st) with
      | Returned _ st2 => Returned tt (finishedState st2)
      | Thrown e st2 => Thrown e st2
      end
  ∧ map getMessage (mMessages st') = messagesOf (emittedSince st st')
  ∧ mProgressStatus st' = statusOf (emittedSince st st')
  ∧ execute quick stOld = execute quick st.
Proof.
  intros st' stOld.
  split; [done |]. split; [done |]. split; [apply execute_steps |].
  split; [| split].
  - destruct (execute_final quick st) as (e & HP & Hm & _ & He & _).
    fold st' in Hm, He. rewrite Hm, He. simpl.
    rewrite messagesOf_app.
    destruct (RunP_signals _ _ _ _ HP) as (_ & -> & _).
    destruct (isReturned _); simpl; by rewrite app_nil_r.
  - destruct (execute_final quick st) as (e & HP & _ & Hs & He & _).
    fold st' in Hs, He. rewrite Hs, He. simpl.
    rewrite statusOf_app.
    destruct (RunP_signals _ _ _ _ HP) as (-> & _ & _).
    by destruct (isReturned _).
  - by rewrite !execute_steps.
Qed.

(** *** Exceptions *)

Lemma foreach_app {A} (l1 l2 : list A) (body : A → M unit) st :
  foreach (l1 ++ l2) body st
  = match foreach l1 body st with
    | Returned _ st' => foreach l2 body st'
    | Thrown e st' => Thrown e st'
    end.
Proof.
  revert st. induction l1 as [| x l1 IH]; intros st; simpl; [done |].
  unfold mbind, M_bind. destruct (body x st) as [[] st1 | e st1]; [| done].
  apply IH.
Qed.

(** Claim C6, as the code has it. [execute] holds no handler: when a
    check throws, after the steps before it returned, [execute] throws
    the same exception to its caller and leaves the engine as the check
    left it. The run ends there: the messages emitted before are kept,
    and neither progress 100 nor [finished] is emitted. *)
Theorem C6_exception_leaves_execute
    (quick : bool) (st : DrcState) (pre post : list Step) (s : Step)
    (st1 st2 : DrcState) (ex : Exception) :
  steps quick = pre ++ s :: post
  → foreach pre step_run (resetState quick st) = Returned tt st1
  → step_run s st1 = Thrown ex st2
  → execute quick st = Thrown ex st2
    ∧ (mMessages st1 `prefix_of` mMessages st2)
    ∧ (finished ∉ emittedSince st st2)
    ∧ (progressPercent 100 ∉ emittedSince st st2).
Proof.
  intros Hsteps Hpre Hs.
  assert (Hex : execute quick st = Thrown ex st2).
  { rewrite execute_steps, Hsteps, foreach_app, Hpre. simpl.
    unfold mbind, M_bind. by rewrite Hs. }
  split; [exact Hex |]. repeat split.
  - assert (Hok : stepOk s).
    { pose proof (steps_ok quick) as Hall. rewrite Hsteps in Hall.
      apply Forall_app in Hall as [_ Hall].
      by apply Forall_cons in Hall as [? _]. }
    destruct (Hok st1) as (e & (Hm & _) & _). rewrite Hs in Hm.
    simpl in Hm. rewrite Hm. by apply prefix_app_r.
  - destruct (execute_final quick st) as (e & HP & _ & _ & He & _).
    rewrite Hex in HP, He. simpl in HP, He. rewrite He, app_nil_r.
    destruct (RunP_signals _ _ _ _ HP) as (_ & _ & Hi).
    rewrite Forall_forall in Hi.
    intros Hin. apply elem_of_cons in Hin as [? | Hin]; [done |].
    apply elem_of_cons in Hin as [? | Hin]; [done |].
    by destruct (Hi _ Hin).
  - pose proof (execute_thrown_below_100 quick st) as H100.
    rewrite Hex in H100. by rewrite elem_of_progressOf in H100.
Qed.

End Execute.

(** ** Loops that only emit messages *)

Section Emitters.
Context `{Geometry} {SExpression : Type}
        `{!RuleCheckMessage SExpression DrcMsg}.

Lemma emits_ret : emits [] (mret tt).
Proof. intros st. exists st. by rewrite app_nil_r. Qed.

Lemma emits_emitMessage msg : emits [msg] (emitMessage msg).
Proof. intros st. eexists. split; [reflexivity | done]. Qed.

Lemma emits_emitStatus status : emits [] (emitStatus status).
Proof.
  intros st. eexists. split; [reflexivity |]. simpl. by rewrite app_nil_r.
Qed.

Lemma emits_emitProgress percent : emits [] (emitProgress percent).
Proof.
  intros st. eexists. split; [reflexivity |]. simpl. by rewrite app_nil_r.
Qed.

Lemma emits_bind ms1 ms2 (m k : M unit) :
  emits ms1 m → emits ms2 k → emits (ms1 ++ ms2) (m;; k).
Proof.
  intros Hm Hk st. destruct (Hm st) as (st1 & Hr1 & Hm1).
  destruct (Hk st1) as (st2 & Hr2 & Hm2). exists st2.
  unfold mbind, M_bind. rewrite Hr1, Hr2, Hm2, Hm1, app_assoc. done.
Qed.

Lemma emits_foreach {A} (l : list A) (body : A → M unit)
    (g : A → list DrcMsg) :
  (∀ x, emits (g x) (body x)) → emits (flat_map g l) (foreach l body).
Proof.
  intros Hbody. induction l as [| x l IH]; simpl.
  - apply emits_ret.
  - apply emits_bind; [apply Hbody | apply IH].
Qed.

Lemma emits_if (c : bool) msg :
  emits (if c then [msg] else []) (if c then emitMessage msg else mret tt).
Proof. destruct c; [apply emits_emitMessage | apply emits_ret]. Qed.

Lemma flat_map_if_filter {A B} (c : A → bool) (f : A → B) (l : list A) :
  flat_map (λ x, if c x then [f x] else []) l
  = map f (filter (λ x, c x = true) l).
Proof.
  induction l as [| x l IH]; simpl; [done |].
  rewrite filter_cons, IH. case_decide as Hc; simpl in Hc.
  - by rewrite Hc.
  - by destruct (c x).
Qed.

Lemma emits_onReturn ms (m : M unit) : emits ms m → onReturn ms m.
Proof.
  intros Hm st st' Hr. destruct (Hm st) as (st2 & Hr2 & Hm2).
  rewrite Hr in Hr2. by injection Hr2 as ->.
Qed.

Lemma onReturn_ret : onReturn [] (mret tt).
Proof. intros st st' [= <-]. by rewrite app_nil_r. Qed.

Lemma onReturn_bind ms1 ms2 (m k : M unit) :
  onReturn ms1 m → onReturn ms2 k → onReturn (ms1 ++ ms2) (m;; k).
Proof.
  intros Hm Hk st st'. unfold mbind, M_bind.
  destruct (m st) as [[] st1 |] eqn:Hr1; [| done].
  intros Hr2. rewrite (Hk _ _ Hr2), (Hm _ _ Hr1), app_assoc. done.
Qed.

Lemma onReturn_foreach {A} (l : list A) (body : A → M unit)
    (g : A → list DrcMsg) :
  (∀ x, onReturn (g x) (body x)) → onReturn (flat_map g l) (foreach l body).
Proof.
  intros Hbody. induction l as [| x l IH]; simpl.
  - apply onReturn_ret.
  - apply onReturn_bind; [apply Hbody | apply IH].
Qed.

Lemma flat_map_fmap {A B C} (f : B → list C) (g : A → B) (l : list A) :
  flat_map f (map g l) = flat_map (λ x, f (g x)) l.
Proof. induction l as [| x l IH]; simpl; [done |]. by rewrite IH. Qed.

Lemma onReturn_forPairs {A} (items : list A) (body : A → A → M unit)
    (g : A → A → list DrcMsg) :
  (∀ x y, onReturn (g x y) (body x y))
  → onReturn (flat_map (λ p, g (fst p) (snd p)) (pairs items))
             (forPairs items body).
Proof.
  intros Hbody. induction items as [| x l IH]; simpl.
  - apply onReturn_ret.
  - rewrite flat_map_app. apply onReturn_bind; [| apply IH].
    rewrite flat_map_fmap. apply onReturn_foreach. intros y. apply Hbody.
Qed.

Lemma flat_map_option_list {A B} (f : A → option B) (l : list A) :
  flat_map (λ x, option_list (f x)) l = omap f l.
Proof.
  induction l as [| x l IH]; simpl; [done |].
  rewrite IH. by destruct (f x).
Qed.

Lemma pairs_map {A B} (f : A → B) (l : list A) :
  pairs (map f l) = map (λ p, (f (fst p), f (snd p))) (pairs l).
Proof.
  induction l as [| x l IH]; simpl; [done |].
  rewrite IH, map_app, !map_map. done.
Qed.

End Emitters.

(** ** Allowed slots *)

Section Slots.
Context `{Geometry} {SExpression : Type}
        `{!RuleCheckMessage SExpression DrcMsg}.

(** The chain of tests of [requiresHoleSlotWarning] decides whether the
    class of the slot exceeds the allowance. *)
Lemma requiresHoleSlotWarning_exceeds `{THole H0} (hole : H0) allowed
    (path : Path) :
  isCurvedSlot hole
  = bool_decide (1 < length path)%nat && Path_isCurved path
  → isMultiSegmentSlot hole = bool_decide (2 < length path)%nat
  → isSlot hole = bool_decide (1 < length path)%nat
  → requiresHoleSlotWarning hole allowed = exceedsAllowance allowed path.
Proof.
  intros Hc Hm Hs.
  unfold requiresHoleSlotWarning, exceedsAllowance, slotClass.
  rewrite Hc, Hm, Hs.
  destruct (Path_isCurved path); destruct allowed; simpl;
    repeat case_bool_decide; simpl; try done; lia.
Qed.

Lemma requiresHoleSlotWarning_Hole (hole : Hole) allowed :
  requiresHoleSlotWarning hole allowed
  = exceedsAllowance allowed (hole_path hole).
Proof. by apply requiresHoleSlotWarning_exceeds. Qed.

Lemma requiresHoleSlotWarning_PadHole (hole : PadHole) allowed :
  requiresHoleSlotWarning hole allowed
  = exceedsAllowance allowed (padhole_path hole).
Proof. by apply requiresHoleSlotWarning_exceeds. Qed.

Lemma exceedsAllowance_Any path :
  exceedsAllowance AllowedSlots.Any path = false.
Proof.
  unfold exceedsAllowance. by destruct (requiredAllowance _).
Qed.

Lemma forbiddenNpthSlots_Any board :
  forbiddenNpthSlots AllowedSlots.Any board = [].
Proof.
  unfold forbiddenNpthSlots.
  assert (Hnone : ∀ l : list Hole,
            filter (λ hole, exceedsAllowance AllowedSlots.Any
                                             (hole_path hole) = true) l
            = []).
  { intros l. induction l as [| h l IH]; [done |].
    rewrite filter_cons, IH. case_decide as Hc; [| done].
    by rewrite exceedsAllowance_Any in Hc. }
  rewrite Hnone. simpl.
  induction (getDeviceInstances board) as [| d l IH]; simpl; [done |].
  by rewrite Hnone, IH.
Qed.

Lemma forbiddenPthSlots_Any board :
  forbiddenPthSlots AllowedSlots.Any board = [].
Proof.
  unfold forbiddenPthSlots.
  assert (Hnone : ∀ l : list PadHole,
            filter (λ hole, exceedsAllowance AllowedSlots.Any
                                             (padhole_path hole) = true) l
            = []).
  { intros l. induction l as [| h l IH]; [done |].
    rewrite filter_cons, IH. case_decide as Hc; [| done].
    by rewrite exceedsAllowance_Any in Hc. }
  induction (getDeviceInstances board) as [| d l IH]; simpl; [done |].
  rewrite IH, app_nil_r.
  induction (dev_pads d) as [| p ps IHp]; simpl; [done |].
  by rewrite Hnone, IHp.
Qed.

(** A check that reads the board after its status and then only emits
    messages. *)
Lemma emits_after_status status (rest : Board → M unit)
    (ms : Board → list DrcMsg) st :
  (∀ board, emits (ms board) (rest board))
  → ∃ st', (emitStatus status;; board ← gets mBoard; rest board) st
           = Returned tt st'
           ∧ mMessages st' = mMessages st ++ ms (mBoard st).
Proof.
  intros Hrest.
  destruct (Hrest (mBoard st) (withStatus st status)) as (st' & Hr & Hm).
  exists st'. split; [exact Hr | exact Hm].
Qed.

Lemma checkAllowedNpthSlots_emits progressEnd st :
  ∃ st', checkAllowedNpthSlots progressEnd st = Returned tt st'
         ∧ mMessages st'
           = mMessages st
             ++ forbiddenNpthSlots (getAllowedNpthSlots (mSettings st))
                                   (mBoard st).
Proof.
  unfold checkAllowedNpthSlots. unfold mbind at 1, M_bind at 1, gets at 1.
  destruct (decide _) as [Hany | Hany].
  - exists st. split; [done |].
    by rewrite Hany, forbiddenNpthSlots_Any, app_nil_r.
  - set (allowed := getAllowedNpthSlots (mSettings st)).
    apply (emits_after_status _ _ (forbiddenNpthSlots allowed)).
    intros board. unfold forbiddenNpthSlots.
    rewrite <- (app_nil_r (flat_map _ (getDeviceInstances board))).
    apply emits_bind; [| apply emits_bind; [| apply emits_emitProgress]].
    + rewrite <- flat_map_if_filter. apply emits_foreach. intros hole.
      rewrite <- requiresHoleSlotWarning_Hole. apply emits_if.
    + apply emits_foreach. intros device. cbv zeta.
      rewrite <- flat_map_if_filter. apply emits_foreach. intros hole.
      rewrite <- requiresHoleSlotWarning_Hole. apply emits_if.
Qed.

Lemma checkAllowedPthSlots_emits progressEnd st :
  ∃ st', checkAllowedPthSlots progressEnd st = Returned tt st'
         ∧ mMessages st'
           = mMessages st
             ++ forbiddenPthSlots (getAllowedPthSlots (mSettings st))
                                  (mBoard st).
Proof.
  unfold checkAllowedPthSlots. unfold mbind at 1, M_bind at 1, gets at 1.
  destruct (decide _) as [Hany | Hany].
  - exists st. split; [done |].
    by rewrite Hany, forbiddenPthSlots_Any, app_nil_r.
  - set (allowed := getAllowedPthSlots (mSettings st)).
    apply (emits_after_status _ _ (forbiddenPthSlots allowed)).
    intros board. unfold forbiddenPthSlots.
    rewrite <- (app_nil_r (flat_map _ (getDeviceInstances board))).
    apply emits_bind; [| apply emits_emitProgress].
    apply emits_foreach. intros device. cbv zeta.
    apply emits_foreach. intros pad. cbv zeta.
    rewrite <- flat_map_if_filter. apply emits_foreach. intros hole.
    rewrite <- requiresHoleSlotWarning_PadHole. apply emits_if.
Qed.

(** The classes in terms of the vertices of the path. *)
Lemma slotClass_round path :
  slotClass path = RoundDrill ↔ (length path ≤ 1)%nat.
Proof.
  unfold slotClass. destruct (Path_isCurved path);
    repeat case_bool_decide; split; intros; try done; lia.
Qed.

Lemma slotClass_single path :
  slotClass path = SingleSegmentStraightSlot
  ↔ length path = 2%nat ∧ Path_isCurved path = false.
Proof.
  unfold slotClass. destruct (Path_isCurved path);
    repeat case_bool_decide; split; intros; destruct_and?; try done;
    try (split; [lia | done]); lia.
Qed.

Lemma slotClass_multi path :
  slotClass path = MultiSegmentStraightSlot
  ↔ (3 ≤ length path)%nat ∧ Path_isCurved path = false.
Proof.
  unfold slotClass. destruct (Path_isCurved path);
    repeat case_bool_decide; split; intros; destruct_and?; try done;
    try (split; [lia | done]); lia.
Qed.

Lemma slotClass_curved path :
  slotClass path = CurvedSlot
  ↔ (2 ≤ length path)%nat ∧ Path_isCurved path = true.
Proof.
  unfold slotClass. destruct (Path_isCurved path);
    repeat case_bool_decide; split; intros; destruct_and?; try done;
    try (split; [lia | done]); lia.
Qed.

(** A round drill is never flagged, whatever the allowance. *)
Lemma round_drill_never_flagged path allowed :
  length path = 1%nat → exceedsAllowance allowed path = false.
Proof.
  intros Hl. unfold exceedsAllowance.
  replace (slotClass path) with RoundDrill
    by (symmetry; apply slotClass_round; lia).
  by destruct allowed.
Qed.

(** Claim C5. For every hole the allowed-slots checks visit (board holes
    and footprint holes against the NPTH allowance, pad holes against the
    PTH allowance) one ForbiddenSlot message is emitted if and only if
    the class of the hole exceeds the allowance: a curved slot (a slot
    whose path has an arc vertex) below Any, a multi-segment straight slot
    (3 or more vertices) below MultiSegmentStraight, any other slot (2
    vertices) below SingleSegmentStraight, and a round drill (a 1-vertex
    path) never, whatever the angle of its vertex. Both checks always
    return, and the messages they append are exactly those of the holes
    whose class exceeds the allowance, in the order the holes are
    visited. *)
Theorem C5_forbidden_slot_iff_class_exceeds_allowance
    (progressEnd : Z) (st : DrcState) :
  let board := mBoard st in
  let npth := getAllowedNpthSlots (mSettings st) in
  let pth := getAllowedPthSlots (mSettings st) in
  (∀ (hole : Hole) allowed,
     requiresHoleSlotWarning hole allowed
     = AllowedSlots.ltb allowed
         (requiredAllowance (slotClass (hole_path hole))))
  ∧ (∀ (hole : PadHole) allowed,
       requiresHoleSlotWarning hole allowed
       = AllowedSlots.ltb allowed
           (requiredAllowance (slotClass (padhole_path hole))))
  ∧ (∀ path,
       (slotClass path = CurvedSlot
        ↔ (2 ≤ length path)%nat ∧ Path_isCurved path = true)
       ∧ (slotClass path = MultiSegmentStraightSlot
          ↔ (3 ≤ length path)%nat ∧ Path_isCurved path = false)
       ∧ (slotClass path = SingleSegmentStraightSlot
          ↔ length path = 2%nat ∧ Path_isCurved path = false)
       ∧ (slotClass path = RoundDrill ↔ (length path ≤ 1)%nat))
  ∧ (∀ (hole : Hole) allowed,
       length (hole_path hole) = 1%nat
       → requiresHoleSlotWarning hole allowed = false)
  ∧ (∀ (hole : PadHole) allowed,
       length (padhole_path hole) = 1%nat
       → requiresHoleSlotWarning hole allowed = false)
  ∧ (∃ st', checkAllowedNpthSlots progressEnd st = Returned tt st'
            ∧ mMessages st' = mMessages st ++ forbiddenNpthSlots npth board)
  ∧ (∃ st', checkAllowedPthSlots progressEnd st = Returned tt st'
            ∧ mMessages st' = mMessages st ++ forbiddenPthSlots pth board).
Proof.
  intros board npth pth.
  split; [intros hole allowed; apply requiresHoleSlotWarning_Hole |].
  split; [intros hole allowed; apply requiresHoleSlotWarning_PadHole |].
  split.
  { intros path.
    split; [apply slotClass_curved |]. split; [apply slotClass_multi |].
    split; [apply slotClass_single | apply slotClass_round]. }
  split.
  { intros hole allowed Hl. rewrite requiresHoleSlotWarning_Hole.
    by apply round_drill_never_flagged. }
  split.
  { intros hole allowed Hl. rewrite requiresHoleSlotWarning_PadHole.
    by apply round_drill_never_flagged. }
  split; [apply checkAllowedNpthSlots_emits |
          apply checkAllowedPthSlots_emits].
Qed.

End Slots.

(** ** Copper to copper clearance *)

Section CopperClearance.
Context `{Geometry} {SExpression : Type}
        `{!RuleCheckMessage SExpression DrcMsg}.

(** No step of the offset computation leaves the 64 bit range. *)
Lemma copperClearanceOffset_exact clearance :
  isUnsignedLength clearance
  → copperClearanceOffset clearance
    = Z.max ((clearance - maxArcTolerance) `quot` 2 - 1) 0.
Proof.
  unfold isUnsignedLength, copperClearanceOffset, Length.sub, Length.div,
    Length.max_val, maxArcTolerance.
  intros Hc.
  rewrite (Length_wrap_inRange (clearance - 5000))
    by (unfold Length.inRange, Length.min_val, Length.max_val; lia).
  assert (Hq : - 2500 ≤ (clearance - 5000) `quot` 2 ≤ 2 ^ 62).
  { pose proof (Z.quot_rem' (clearance - 5000) 2) as Hqr.
    destruct (decide (0 ≤ clearance - 5000)) as [Hp | Hn].
    - pose proof (Z.rem_bound_pos (clearance - 5000) 2 Hp ltac:(lia)).
      lia.
    - pose proof (Z.rem_bound_pos_neg (clearance - 5000) 2
                    ltac:(lia) ltac:(lia)). lia. }
  rewrite (Length_wrap_inRange ((clearance - 5000) `quot` 2))
    by (unfold Length.inRange, Length.min_val, Length.max_val; lia).
  rewrite Length_wrap_inRange
    by (unfold Length.inRange, Length.min_val, Length.max_val; lia).
  done.
Qed.

Lemma copperPairIsTested_spec it1 it2 :
  copperPairIsTested it1 it2 = true
  ↔ netsDiffer it1 it2 ∧ shareLayer it1 it2.
Proof.
  unfold copperPairIsTested, netsDiffer, shareLayer.
  rewrite andb_true_iff, !orb_true_iff, !bool_decide_eq_true. tauto.
Qed.

(** The body of the two loops over the items. *)
Lemma copperPair_onReturn clearance it1 it2 :
  onReturn
    (option_list (copperViolation clearance it1 it2))
    (if copperPairIsTested it1 it2 then
       intersections ←
         liftExc (ClipperHelpers_intersect (ci_areas it1) (ci_areas it2));
       paths ← liftExc (ClipperHelpers_flattenTree intersections);
       if negb (isEmpty paths) then
         emitMessage (DrcMsgCopperCopperClearanceViolation
                        (ci_layer it1) (ci_netSignal it1) (ci_item it1)
                        (ci_polygon it1) (ci_circle it1)
                        (ci_layer it2) (ci_netSignal it2) (ci_item it2)
                        (ci_polygon it2) (ci_circle it2)
                        clearance (ClipperHelpers_convertBack paths))
       else mret tt
     else mret tt).
Proof.
  unfold copperViolation, overlap.
  destruct (copperPairIsTested it1 it2) eqn:Ht.
  - apply copperPairIsTested_spec in Ht. rewrite decide_True by done.
    intros st st'. unfold mbind, M_bind, liftExc.
    destruct (ClipperHelpers_intersect _ _) as [| tree]; [done |].
    destruct (ClipperHelpers_flattenTree tree) as [| [| ring rings]];
      [done | |]; simpl.
    + intros [= <-]. by rewrite app_nil_r.
    + intros [= <-]. done.
  - rewrite decide_False; [apply onReturn_ret |].
    intros Hs. apply copperPairIsTested_spec in Hs. congruence.
Qed.

Lemma flat_map_bool_decide_filter {A B} (P : A → Prop)
    `{!∀ x, Decision (P x)} (f : A → B) (l : list A) :
  flat_map (λ x, if bool_decide (P x) then [f x] else []) l
  = map f (filter P l).
Proof.
  induction l as [| x l IH]; simpl; [done |].
  rewrite filter_cons, IH. by case_bool_decide; case_decide.
Qed.

(** A loop that appends to a vector yields, object by object, what its
    body yields. *)
Lemma collect_Forall2 {A B C} (R : C → B → Prop) (objects : A → list C)
    (l : list A) (body : A → Exc (list B)) ys :
  (∀ x zs, body x = inr zs → Forall2 R (objects x) zs)
  → collect l body = inr ys → Forall2 R (flat_map objects l) ys.
Proof.
  intros Hbody. revert ys. induction l as [| x l IH]; intros ys; simpl.
  - intros [= <-]. constructor.
  - unfold mbind, Exc_bind.
    destruct (body x) as [| xs] eqn:Hx; [done |].
    destruct (collect l body) as [| zs]; [done |].
    intros [= <-]. apply Forall2_app; [by apply Hbody | by apply IH].
Qed.


Lemma map_flat_map {A B} (f : A → B) (l : list A) :
  map f l = flat_map (λ x, [f x]) l.
Proof. induction l as [| x l IH]; simpl; [done | by rewrite IH]. Qed.

(** The item appended for one object is this object inflated. *)
Ltac inflated_item :=
  unfold contains;
  repeat first
    [ progress (unfold mbind, Exc_bind, mret, Exc_ret)
    | match goal with
      | |- context [bool_decide ?P] => destruct (bool_decide P)
      | |- context [if ?c then _ else _] => destruct c
      | |- context [match ?c with inl _ => _ | inr _ => _ end] =>
          destruct c eqn:?
      end ];
  try done; intros [= <-]; repeat constructor;
  eexists; split; [| reflexivity]; simpl;
  unfold mbind, Exc_bind;
  repeat match goal with
         | Heq : _ = inr _ |- _ => rewrite Heq; clear Heq
         end; done.

(** The items of the check are the copper objects of the board, each
    inflated by the offset. *)
Lemma copperItems_inflated board ignorePlanes offset items :
  copperItems board ignorePlanes offset = inr items
  → Forall2 (inflatedItem board offset) (boardCopper board ignorePlanes)
            items.
Proof.
  unfold copperItems, boardCopper. cbv zeta.
  unfold mbind at 1, Exc_bind at 1.
  destruct (collect (getNetSegments board) _) as [| segments] eqn:Hseg;
    [done |].
  unfold mbind at 1, Exc_bind at 1.
  destruct (if negb ignorePlanes then _ else _) as [| planes] eqn:Hpla;
    [done |].
  unfold mbind at 1, Exc_bind at 1.
  destruct (collect (getPolygons board) _) as [| polygons] eqn:Hpol;
    [done |].
  unfold mbind at 1, Exc_bind at 1.
  destruct (collect (getStrokeTexts board) _) as [| texts] eqn:Htxt;
    [done |].
  unfold mbind at 1, Exc_bind at 1.
  destruct (collect (getDeviceInstances board) _) as [| devices] eqn:Hdev;
    [done |].
  intros [= <-].
  repeat apply Forall2_app.
  - eapply collect_Forall2; [| exact Hseg]. clear. intros ns zs.
    unfold mbind at 1, Exc_bind at 1.
    destruct (collect (ns_vias ns) _) as [| vias] eqn:Hv; [done |].
    unfold mbind at 1, Exc_bind at 1.
    destruct (collect (ns_netLines ns) _) as [| lines] eqn:Hl; [done |].
    intros [= <-]. apply Forall2_app.
    + rewrite map_flat_map. eapply collect_Forall2; [| exact Hv]. clear.
      intros via zs. inflated_item.
    + rewrite <- flat_map_bool_decide_filter.
      eapply collect_Forall2; [| exact Hl]. clear. intros nl zs.
      inflated_item.
  - destruct ignorePlanes; simpl in Hpla.
    + injection Hpla as <-. constructor.
    + rewrite <- flat_map_bool_decide_filter.
      eapply collect_Forall2; [| exact Hpla]. clear. intros p zs.
      inflated_item.
  - rewrite <- flat_map_bool_decide_filter.
    eapply collect_Forall2; [| exact Hpol]. clear. intros p zs.
    inflated_item.
  - rewrite <- flat_map_bool_decide_filter.
    eapply collect_Forall2; [| exact Htxt]. clear. intros t zs.
    inflated_item.
  - eapply collect_Forall2; [| exact Hdev]. clear. intros d zs. cbv zeta.
    unfold mbind at 1, Exc_bind at 1.
    destruct (collect (dev_pads d) _) as [| pads] eqn:Hp; [done |].
    unfold mbind at 1, Exc_bind at 1.
    destruct (collect (fpt_polygons _) _) as [| pols] eqn:Hpo; [done |].
    unfold mbind at 1, Exc_bind at 1.
    destruct (collect (fpt_circles _) _) as [| cirs] eqn:Hc; [done |].
    unfold mbind at 1, Exc_bind at 1.
    destruct (collect (dev_strokeTexts d) _) as [| txts] eqn:Ht; [done |].
    intros [= <-]. repeat apply Forall2_app.
    + eapply collect_Forall2; [| exact Hp]. clear. intros pad zs Hz.
      rewrite <- flat_map_if_filter.
      eapply collect_Forall2; [| exact Hz]. clear. intros layer zs.
      inflated_item.
    + rewrite <- flat_map_bool_decide_filter.
      eapply collect_Forall2; [| exact Hpo]. clear. intros p zs.
      inflated_item.
    + rewrite <- flat_map_bool_decide_filter.
      eapply collect_Forall2; [| exact Hc]. clear. intros c zs.
      inflated_item.
    + rewrite <- flat_map_bool_decide_filter.
      eapply collect_Forall2; [| exact Ht]. clear. intros t zs.
      inflated_item.
Qed.

(** Claim C1, as the code has it. When the copper-copper clearance check
    is enabled (its clearance is not 0) and returns, the items it
    collected are the copper objects of the board (vias, net lines, planes
    unless planes are ignored, board polygons, board stroke texts, pads
    per copper layer, device polygons, circles and stroke texts), in this
    order, each with its area inflated by
    max(0, ((clearance - max_arc_tolerance) / 2) - 1), and the messages it
    appended are, for the unordered pairs of items in order, one violation
    exactly for each pair such that (a) the net signals differ or one item
    has none, (b) the items share a layer, an item without layer sharing
    every layer, and (c) the intersection of the two inflated areas is not
    empty; the locations of the message are the flattened rings of that
    intersection. *)
Theorem C1_copper_clearance_violations_of_the_pairs
    (progressEnd : Z) (st st' : DrcState) :
  let clearance := getMinCopperCopperClearance (mSettings st) in
  let offset := Z.max ((clearance - maxArcTolerance) `quot` 2 - 1) 0 in
  isUnsignedLength clearance
  → clearance ≠ 0
  → checkCopperCopperClearances progressEnd st = Returned tt st'
  → ∃ items,
      copperItems (mBoard st) (mIgnorePlanes st) offset = inr items
      ∧ Forall2 (inflatedItem (mBoard st) offset)
                (boardCopper (mBoard st) (mIgnorePlanes st)) items
      ∧ mMessages st' = mMessages st ++ copperViolations clearance items.
Proof.
  intros clearance offset Hrange Hnz.
  unfold checkCopperCopperClearances.
  unfold mbind at 1, M_bind at 1, gets at 1. fold clearance.
  rewrite decide_False by done. cbv zeta.
  rewrite copperClearanceOffset_exact by done. fold offset.
  unfold mbind at 1, M_bind at 1.
  change (emitStatus (tr "Check copper clearances...") st)
    with (Returned tt (withStatus st "Check copper clearances...")).
  cbv iota beta.
  unfold mbind at 1, M_bind at 1, gets at 1. cbv iota beta.
  unfold mbind at 1, M_bind at 1, gets at 1. cbv iota beta.
  unfold mbind at 1, M_bind at 1, liftExc at 1. simpl mBoard.
  simpl mIgnorePlanes.
  destruct (copperItems (mBoard st) (mIgnorePlanes st) offset)
    as [| items] eqn:Hitems; [done |].
  cbv iota beta. intros Hrun. exists items. split; [done |].
  split; [by apply copperItems_inflated |].
  assert (Hloop := onReturn_bind _ []
            (forPairs items _) (emitProgress progressEnd)
            (onReturn_forPairs items _ _
               (copperPair_onReturn clearance))
            (emits_onReturn _ _ (emits_emitProgress progressEnd))).
  specialize (Hloop _ _ Hrun). simpl in Hloop.
  rewrite Hloop, app_nil_r.
  unfold copperViolations. by rewrite flat_map_option_list.
Qed.

End CopperClearance.

(** ** Drill to drill clearance *)

Section DrillClearance.
Context `{Geometry} {SExpression : Type}
        `{!RuleCheckMessage SExpression DrcMsg}.

(** No step of the expansion computation leaves the 64 bit range. *)
Lemma drillDiameterExpansion_exact clearance :
  isUnsignedLength clearance
  → drillDiameterExpansion clearance
    = inr (Z.max (clearance - maxArcTolerance - 1) 0).
Proof.
  unfold isUnsignedLength, drillDiameterExpansion, Length.sub,
    Length.max_val, maxArcTolerance, mkUnsignedLength.
  intros Hc.
  rewrite (Length_wrap_inRange (clearance - 5000))
    by (unfold Length.inRange, Length.min_val, Length.max_val; lia).
  rewrite Length_wrap_inRange
    by (unfold Length.inRange, Length.min_val, Length.max_val; lia).
  rewrite decide_True by lia. done.
Qed.

(** When [addItem] succeeds the expanded diameter is the exact sum. *)
Lemma addItem_inr expansion item hole path diameter items :
  isPositiveLength diameter
  → 0 ≤ expansion ≤ Length.max_val
  → addItem expansion item hole path diameter = inr items
  → items = [drillItemOf expansion (mkDrill item hole path diameter)].
Proof.
  unfold isPositiveLength, addItem, PositiveLength_add, mkPositiveLength,
    Length.add, Length.max_val.
  intros Hd He. unfold mbind, Exc_bind.
  case_decide as Hpos; [| done]. intros [= <-].
  unfold drillItemOf, expandedDrillArea; simpl.
  assert (Hsum : Length.wrap (diameter + expansion) = diameter + expansion).
  { destruct (decide (diameter + expansion ≤ 2 ^ 63 - 1)) as [Hle | Hgt].
    - apply Length_wrap_inRange.
      unfold Length.inRange, Length.min_val, Length.max_val. lia.
    - exfalso. unfold Length.wrap in Hpos.
      replace (diameter + expansion + 2 ^ 63)
        with (diameter + expansion - 2 ^ 63 + 1 * 2 ^ 64) in Hpos by lia.
      rewrite Z.mod_add in Hpos by lia.
      rewrite Z.mod_small in Hpos by lia. lia. }
  by rewrite Hsum.
Qed.

Lemma collect_drills {A} (l : list A) (body : A → Exc (list DrillItem))
    (g : A → list Drill) expansion items :
  (∀ x zs, Forall validDrill (g x) → body x = inr zs
           → zs = map (drillItemOf expansion) (g x))
  → Forall validDrill (flat_map g l)
  → collect l body = inr items
  → items = map (drillItemOf expansion) (flat_map g l).
Proof.
  intros Hbody. revert items.
  induction l as [| x l IH]; intros items; simpl.
  - intros _ [= <-]. done.
  - intros Hv. apply Forall_app in Hv as [Hx Hl].
    unfold mbind, Exc_bind.
    destruct (body x) as [| xs] eqn:Hbx; [done |].
    destruct (collect l body) as [| ys]; [done |].
    intros [= <-]. rewrite map_app.
    by rewrite (Hbody _ _ Hx Hbx), (IH _ Hl eq_refl).
Qed.

Lemma collect_drills_map {A} (l : list A)
    (body : A → Exc (list DrillItem)) (g : A → Drill) expansion items :
  (∀ x zs, validDrill (g x) → body x = inr zs
           → zs = [drillItemOf expansion (g x)])
  → Forall validDrill (map g l)
  → collect l body = inr items
  → items = map (drillItemOf expansion) (map g l).
Proof.
  intros Hbody. revert items.
  induction l as [| x l IH]; intros items; simpl.
  - intros _ [= <-]. done.
  - intros Hv. apply Forall_cons in Hv as [Hx Hl].
    unfold mbind, Exc_bind.
    destruct (body x) as [| xs] eqn:Hbx; [done |].
    destruct (collect l body) as [| ys]; [done |].
    intros [= <-].
    by rewrite (Hbody _ _ Hx Hbx), (IH _ Hl eq_refl).
Qed.

(** The items of the check are the drills of the board, each expanded by
    the exact amount. *)
Lemma drillItems_inr board expansion items :
  0 ≤ expansion ≤ Length.max_val
  → Forall validDrill (boardDrills board)
  → drillItems board expansion = inr items
  → items = map (drillItemOf expansion) (boardDrills board).
Proof.
  intros He. unfold boardDrills, drillItems.
  intros Hv. apply Forall_app in Hv as [Hvias Hv].
  apply Forall_app in Hv as [Hholes Hdevs].
  unfold mbind at 1, Exc_bind at 1.
  destruct (collect (getNetSegments board) _) as [| vias] eqn:Hc1; [done |].
  unfold mbind at 1, Exc_bind at 1.
  destruct (collect (getHoles board) _) as [| holes] eqn:Hc2; [done |].
  unfold mbind at 1, Exc_bind at 1.
  destruct (collect (getDeviceInstances board) _) as [| devs] eqn:Hc3;
    [done |].
  intros [= <-]. rewrite !map_app. f_equal; [| f_equal].
  - eapply collect_drills; [| exact Hvias | exact Hc1].
    intros ns zs Hns Hzs.
    eapply collect_drills_map; [| exact Hns | exact Hzs].
    intros via ys Hvia Hys. by eapply addItem_inr.
  - eapply collect_drills_map; [| exact Hholes | exact Hc2].
    intros hole ys Hhole Hys. by eapply addItem_inr.
  - eapply collect_drills; [| exact Hdevs | exact Hc3].
    intros device zs Hdev. cbv zeta in Hdev |- *.
    apply Forall_app in Hdev as [Hpads Hfh].
    unfold mbind at 1, Exc_bind at 1.
    destruct (collect (dev_pads device) _) as [| pads] eqn:Hp; [done |].
    unfold mbind at 1, Exc_bind at 1.
    destruct (collect (fpt_holes _) _) as [| fholes] eqn:Hf; [done |].
    intros [= <-]. rewrite map_app. f_equal.
    + eapply collect_drills; [| exact Hpads | exact Hp].
      intros pad ys Hpad Hys. cbv zeta in Hys.
      eapply collect_drills_map; [| exact Hpad | exact Hys].
      intros hole ws Hhole Hws. by eapply addItem_inr.
    + eapply collect_drills_map; [| exact Hfh | exact Hf].
      intros hole ws Hhole Hws. by eapply addItem_inr.
Qed.

(** The body of the two loops over the items. *)
Lemma drillPair_onReturn clearance it1 it2 :
  onReturn
    (drillItemViolation clearance it1 it2)
    (intersections ←
       liftExc (ClipperHelpers_intersect (di_areas it1) (di_areas it2));
     paths ← liftExc (ClipperHelpers_flattenTree intersections);
     match negb (isEmpty paths), di_item it1, di_hole it1,
           di_item it2, di_hole it2 with
     | true, Some item1, Some hole1, Some item2, Some hole2 =>
         emitMessage (DrcMsgDrillDrillClearanceViolation
                        item1 hole1 item2 hole2 clearance
                        (ClipperHelpers_convertBack paths))
     | _, _, _, _, _ => mret tt
     end).
Proof.
  unfold drillItemViolation, overlap.
  intros st st'. unfold mbind, M_bind, liftExc.
  destruct (ClipperHelpers_intersect _ _) as [| tree]; [done |].
  destruct (ClipperHelpers_flattenTree tree) as [| [| ring rings]];
    [done | |]; simpl.
  - intros [= <-]. by rewrite app_nil_r.
  - destruct (di_item it1), (di_hole it1), (di_item it2), (di_hole it2);
      intros [= <-]; simpl; by rewrite ?app_nil_r.
Qed.

Lemma drillItemViolation_drills clearance expansion d1 d2 :
  drillItemViolation clearance (drillItemOf expansion d1)
                     (drillItemOf expansion d2)
  = option_list (drillViolation clearance expansion d1 d2).
Proof.
  unfold drillItemViolation, drillViolation, drillItemOf; simpl.
  by destruct (overlap _ _).
Qed.

(** Claim C4. When the drill-drill clearance check is enabled (its
    clearance is not 0) and returns, every drill of the board (via drill,
    board hole, pad hole, footprint hole) was outlined with its diameter
    expanded by exactly max(0, clearance - max_arc_tolerance - 1), and the
    messages appended are, for the unordered pairs of drills in order,
    one DrillDrillClearanceViolation exactly for each pair whose two
    expanded outline areas have a non-empty intersection; its locations
    are the flattened intersection. *)
Theorem C4_drill_clearance_violations_of_the_pairs
    (progressEnd : Z) (st st' : DrcState) :
  let clearance := getMinDrillDrillClearance (mSettings st) in
  let expansion := Z.max (clearance - maxArcTolerance - 1) 0 in
  isUnsignedLength clearance
  → clearance ≠ 0
  → Forall validDrill (boardDrills (mBoard st))
  → checkDrillDrillClearances progressEnd st = Returned tt st'
  → drillItems (mBoard st) expansion
    = inr (map (drillItemOf expansion) (boardDrills (mBoard st)))
    ∧ mMessages st'
      = mMessages st ++ drillViolations clearance (mBoard st).
Proof.
  intros clearance expansion Hrange Hnz Hvalid.
  assert (Hexp : 0 ≤ expansion ≤ Length.max_val).
  { unfold expansion, maxArcTolerance, isUnsignedLength in *. lia. }
  unfold checkDrillDrillClearances.
  unfold mbind at 1, M_bind at 1, gets at 1. fold clearance.
  rewrite decide_False by done.
  unfold mbind at 1, M_bind at 1.
  change (emitStatus (tr "Check drill clearances...") st)
    with (Returned tt (withStatus st "Check drill clearances...")).
  cbv iota beta.
  rewrite drillDiameterExpansion_exact by done. fold expansion.
  unfold mbind at 1, M_bind at 1, liftExc at 1. cbv iota beta.
  unfold mbind at 1, M_bind at 1, gets at 1. cbv iota beta.
  unfold mbind at 1, M_bind at 1, liftExc at 1. simpl mBoard.
  destruct (drillItems (mBoard st) expansion) as [| items] eqn:Hitems;
    [done |].
  cbv iota beta. intros Hrun.
  pose proof (drillItems_inr _ _ _ Hexp Hvalid Hitems) as ->.
  split; [done |].
  assert (Hloop := onReturn_bind _ []
            (forPairs (map (drillItemOf expansion)
                           (boardDrills (mBoard st))) _)
            (emitProgress progressEnd)
            (onReturn_forPairs _ _ _ (drillPair_onReturn clearance))
            (emits_onReturn _ _ (emits_emitProgress progressEnd))).
  specialize (Hloop _ _ Hrun). simpl in Hloop.
  rewrite Hloop, app_nil_r. f_equal.
  rewrite pairs_map, flat_map_fmap. simpl.
  unfold drillViolations. fold expansion.
  rewrite <- flat_map_option_list. apply flat_map_ext. intros [d1 d2].
  apply drillItemViolation_drills.
Qed.

End DrillClearance.

(** ** Minimum annular ring *)

Section AnnularRing.
Context `{Geometry} {SExpression : Type}
        `{!RuleCheckMessage SExpression DrcMsg}.

Lemma Length_wrap_add_l a b :
  Length.wrap (Length.wrap a + b) = Length.wrap (a + b).
Proof.
  unfold Length.wrap.
  replace ((a + 2 ^ 63) `mod` 2 ^ 64 - 2 ^ 63 + b + 2 ^ 63)
    with ((a + 2 ^ 63) `mod` 2 ^ 64 + b) by lia.
  rewrite Zplus_mod_idemp_l. f_equal. f_equal. lia.
Qed.

(** In 64 bit arithmetic the diameter is the wrapped exact value. *)
Lemma annularRingDiameter_wrap drill annularWidth :
  annularRingDiameter drill annularWidth
  = Length.wrap (drill + 2 * annularWidth - 1).
Proof.
  unfold annularRingDiameter, Length.sub, Length.add, Length.mul.
  replace (drill + Length.wrap (annularWidth * 2))
    with (Length.wrap (annularWidth * 2) + drill) by lia.
  rewrite Length_wrap_add_l.
  replace (Length.wrap (annularWidth * 2 + drill) - 1)
    with (Length.wrap (annularWidth * 2 + drill) + (- 1)) by lia.
  rewrite Length_wrap_add_l. f_equal. lia.
Qed.

(** Claim C10, as the code has it. For a drill diameter that is a
    PositiveLength and an annular width setting that is not 0, whenever
    drill + 2·annular_width - 1 does not exceed the largest 64 bit Length
    the computed diameter is that value and is strictly positive; the
    skip branch is then not taken: the via is tested against the common
    copper area, and so is the pad hole. *)
Theorem C10_annular_ring_diameter_positive_without_overflow
    (drill annularWidth : Z) :
  isPositiveLength drill
  → isUnsignedLength annularWidth
  → annularWidth ≠ 0
  → drill + 2 * annularWidth - 1 ≤ Length.max_val
  → annularRingDiameter drill annularWidth = drill + 2 * annularWidth - 1
    ∧ 0 < annularRingDiameter drill annularWidth
    ∧ (∀ thtCopperAreaPaths via,
         via_drillDiameter via = drill
         → checkViaAnnularRing thtCopperAreaPaths annularWidth via
           = testAnnularRing
               (viaRingAreas via (drill + 2 * annularWidth - 1))
               thtCopperAreaPaths
               (DrcMsgMinimumAnnularRingViolation (ObjVia (via_uuid via))
                                                  annularWidth))
    ∧ (∀ transform areas hole,
         padhole_diameter hole = drill
         → addPadHoleRing annularWidth transform areas hole
           = padHoleRingAreas transform hole
               (drill + 2 * annularWidth - 1) areas).
Proof.
  unfold isPositiveLength, isUnsignedLength, Length.max_val.
  intros Hd Hw Hnz Hle.
  assert (Heq : annularRingDiameter drill annularWidth
                = drill + 2 * annularWidth - 1).
  { rewrite annularRingDiameter_wrap. apply Length_wrap_inRange.
    unfold Length.inRange, Length.min_val, Length.max_val. lia. }
  split; [exact Heq |]. split; [lia |]. split.
  - intros tht via Hvia. unfold checkViaAnnularRing. cbv zeta.
    rewrite Hvia, Heq. rewrite decide_False by lia. done.
  - intros transform areas hole Hhole. unfold addPadHoleRing. cbv zeta.
    rewrite Hhole, Heq. rewrite decide_False by lia. done.
Qed.

End AnnularRing.

(** ** Approval resolution *)

Section ApprovalProofs.
Context {SExpression Msg : Type} `{Countable SExpression}
        `{!RuleCheckMessage SExpression Msg}.

Variable collator : string → string → bool.

(** The collator is a strict weak ordering, as [std::sort] requires. *)
Hypothesis collator_asym :
  ∀ a b, collator a b = true → collator b a = false.
Hypothesis collator_negtrans :
  ∀ a b c, collator a b = false → collator b c = false
           → collator a c = false.

Lemma notAfter_presentedBefore a b :
  notAfter (compareMessages collator) a b ↔ presentedBefore collator a b.
Proof.
  unfold notAfter, compareMessages, presentedBefore.
  destruct (getSeverity a), (getSeverity b); simpl; rewrite ?Z.ltb_ge;
    (split; [intros Hx | intros [Hx | [Hx Hy]]]);
    try done; try lia; try (by right); try (left; lia).
Qed.

Local Instance notAfter_total : Total (notAfter (compareMessages collator)).
Proof.
  intros a b. unfold notAfter, compareMessages.
  destruct (getSeverity a) eqn:Ha, (getSeverity b) eqn:Hb; simpl;
    repeat case_decide; try done; try (by left); try (by right);
    destruct (collator (getMessage b) (getMessage a)) eqn:Hc;
    try (by left); right; by apply collator_asym.
Qed.

Local Instance notAfter_trans : Transitive (notAfter (compareMessages collator)).
Proof.
  intros a b c. rewrite !notAfter_presentedBefore.
  unfold presentedBefore.
  intros [Hab | [Hab Hcab]] [Hbc | [Hbc Hcbc]].
  - left. lia.
  - left. by rewrite <- Hbc.
  - left. by rewrite Hab.
  - right. split; [congruence |]. by eapply collator_negtrans.
Qed.

Lemma StronglySorted_weaken {A} (R R' : relation A) (l : list A) :
  (∀ a b, R a b → R' a b) → StronglySorted R l → StronglySorted R' l.
Proof.
  intros HR. induction 1 as [| x l Hl IH Hx]; constructor; [done |].
  eapply Forall_impl; [exact Hx |]. intros y. apply HR.
Qed.

Lemma prepare_fold (l : list Msg) (approvals : gset SExpression)
    printed count :
  fold_left (λ '(printedMessages, approvedMsgCount) msg,
               if decide (getApproval msg ∈ approvals) then
                 (printedMessages, approvedMsgCount + 1)
               else
                 (printedMessages ++ [printedMessage msg],
                  approvedMsgCount))
            l (printed, count)
  = (printed ++ map printedMessage
                    (filter (λ m, getApproval m ∉ approvals) l),
     count + Z.of_nat
               (length (filter (λ m, getApproval m ∈ approvals) l))).
Proof.
  revert printed count. induction l as [| m l IH]; intros printed count.
  - simpl. by rewrite app_nil_r, Z.add_0_r.
  - simpl. rewrite !filter_cons.
    destruct (decide (getApproval m ∈ approvals)) as [Hin | Hout].
    + rewrite IH. rewrite decide_False by tauto. simpl. f_equal. lia.
    + rewrite IH. rewrite decide_True by done. simpl.
      by rewrite <- app_assoc.
Qed.

(** Claim C8. Approval resolution takes the messages and the set of
    approved keys. A message is approved exactly when its approval key is
    in the set. The result holds the count of the approved messages and
    the remaining, non-approved messages (each printed as
    "[SEVERITY] text"), which are presented by severity descending and,
    for equal severity, by text ascending in the collation order. *)
Theorem C8_approved_count_and_sorted_remaining
    (messages : list Msg) (approvals : gset SExpression) :
  ∃ sorted,
    sorted ≡ₚ messages
    ∧ StronglySorted (presentedBefore collator) sorted
    ∧ fst (prepareRuleCheckMessages collator messages approvals)
      = map printedMessage
            (filter (λ m, getApproval m ∉ approvals) sorted)
    ∧ snd (prepareRuleCheckMessages collator messages approvals)
      = Z.of_nat (length (filter (λ m, getApproval m ∈ approvals)
                                 messages)).
Proof.
  exists (sortNumeric messages (compareMessages collator)).
  unfold prepareRuleCheckMessages. rewrite prepare_fold. simpl.
  assert (Hperm : sortNumeric messages (compareMessages collator)
                  ≡ₚ messages) by apply merge_sort_Permutation.
  repeat split.
  - exact Hperm.
  - eapply StronglySorted_weaken;
      [| apply (StronglySorted_merge_sort
                  (notAfter (compareMessages collator)))].
    intros a b. apply notAfter_presentedBefore.
  - by rewrite Hperm.
Qed.

End ApprovalProofs.

(** ** What a run keeps *)

Section Keeps.
Context `{Geometry} {SExpression : Type}
        `{!RuleCheckMessage SExpression DrcMsg}.
Context (R : relation DrcState) `{!PreOrder R}.

Hypothesis R_emitMessage : ∀ msg, keeps R (emitMessage msg).
Hypothesis R_emitStatus : ∀ status, keeps R (emitStatus status).
Hypothesis R_emitProgress : ∀ percent, keeps R (emitProgress percent).
Hypothesis R_cache : ∀ st key paths,
  lookupCache key (mCachedPaths st) = None → R st (withCached st key paths).

Lemma keeps_ret {A} (a : A) : keeps R (mret a).
Proof. intros st. simpl. reflexivity. Qed.

Lemma keeps_bind {A B} (m : M A) (f : A → M B) :
  keeps R m → (∀ a, keeps R (f a)) → keeps R (m ≫= f).
Proof.
  intros Hm Hf st. specialize (Hm st). unfold mbind, M_bind.
  destruct (m st) as [a st1 | ex st1]; simpl in *; [| done].
  etrans; [exact Hm | apply Hf].
Qed.

Lemma keeps_gets {A} (f : DrcState → A) : keeps R (gets f).
Proof. intros st. simpl. reflexivity. Qed.

Lemma keeps_liftExc {A} (c : Exc A) : keeps R (liftExc c).
Proof. intros st. unfold liftExc. destruct c; simpl; reflexivity. Qed.

Lemma keeps_foreach {A} (l : list A) (body : A → M unit) :
  (∀ x, keeps R (body x)) → keeps R (foreach l body).
Proof.
  intros Hbody. induction l as [| x l IH]; simpl.
  - apply keeps_ret.
  - apply keeps_bind; [apply Hbody | intros _; apply IH].
Qed.

Lemma keeps_foreachAcc {A B} (l : list A) (acc : B) (body : B → A → M B) :
  (∀ acc x, keeps R (body acc x)) → keeps R (foreachAcc l acc body).
Proof.
  intros Hbody. revert acc. induction l as [| x l IH]; intros acc; simpl.
  - apply keeps_ret.
  - apply keeps_bind; [apply Hbody | intros acc'; apply IH].
Qed.

Lemma keeps_forPairs {A} (items : list A) (body : A → A → M unit) :
  (∀ x y, keeps R (body x y)) → keeps R (forPairs items body).
Proof.
  intros Hbody. induction items as [| x l IH]; simpl.
  - apply keeps_ret.
  - apply keeps_bind; [| intros _; apply IH].
    apply keeps_foreach. intros y. apply Hbody.
Qed.

Lemma keeps_getCopperPaths layer nets : keeps R (getCopperPaths layer nets).
Proof.
  intros st. unfold getCopperPaths, mbind, M_bind, gets.
  destruct (lookupCache _ _) eqn:Hc; simpl; [reflexivity |].
  unfold liftExc. destruct (gen_addCopper _ _ _ _ _); simpl; [reflexivity |].
  by apply R_cache.
Qed.


Ltac keeps_tac :=
  lazymatch goal with
  | |- keeps _ (mret _) => apply keeps_ret
  | |- keeps _ (gets _) => apply keeps_gets
  | |- keeps _ (liftExc _) => apply keeps_liftExc
  | |- keeps _ (emitMessage _) => apply R_emitMessage
  | |- keeps _ (emitStatus _) => apply R_emitStatus
  | |- keeps _ (emitProgress _) => apply R_emitProgress
  | |- keeps _ (getCopperPaths _ _) => apply keeps_getCopperPaths
  | |- keeps _ (foreach _ _) => apply keeps_foreach; intros; keeps_tac
  | |- keeps _ (foreachAcc _ _ _) =>
      apply keeps_foreachAcc; intros; keeps_tac
  | |- keeps _ (forPairs _ _) => apply keeps_forPairs; intros; keeps_tac
  | |- keeps _ (mbind _ _) =>
      apply keeps_bind; [keeps_tac | intros; keeps_tac]
  | |- keeps _ (let _ := _ in _) => cbv zeta; keeps_tac
  | |- keeps _ (if ?c then _ else _) => destruct c; keeps_tac
  | |- keeps _ (match ?c with _ => _ end) => destruct c; keeps_tac
  | |- keeps _ (checkStrokeTextWidth _ _ _) =>
      unfold checkStrokeTextWidth; keeps_tac
  | |- keeps _ (reportIfIntersects _ _ _) =>
      unfold reportIfIntersects; keeps_tac
  | |- keeps _ (testAnnularRing _ _ _) =>
      unfold testAnnularRing; keeps_tac
  | |- keeps _ (checkViaAnnularRing _ _ _) =>
      unfold checkViaAnnularRing; keeps_tac
  end.

Lemma checkMinimumCopperWidth_keeps pe :
  keeps R (checkMinimumCopperWidth pe).
Proof. unfold checkMinimumCopperWidth. keeps_tac. Qed.

Lemma checkCopperCopperClearances_keeps pe :
  keeps R (checkCopperCopperClearances pe).
Proof. unfold checkCopperCopperClearances. keeps_tac. Qed.

Lemma checkCopperBoardClearances_keeps pe :
  keeps R (checkCopperBoardClearances pe).
Proof. unfold checkCopperBoardClearances. keeps_tac. Qed.

Lemma checkCopperHoleClearances_keeps pe :
  keeps R (checkCopperHoleClearances pe).
Proof. unfold checkCopperHoleClearances. keeps_tac. Qed.

Lemma checkDrillDrillClearances_keeps pe :
  keeps R (checkDrillDrillClearances pe).
Proof. unfold checkDrillDrillClearances. keeps_tac. Qed.

Lemma checkDrillBoardClearances_keeps pe :
  keeps R (checkDrillBoardClearances pe).
Proof. unfold checkDrillBoardClearances. keeps_tac. Qed.

Lemma checkMinimumPthAnnularRing_keeps pe :
  keeps R (checkMinimumPthAnnularRing pe).
Proof. unfold checkMinimumPthAnnularRing. keeps_tac. Qed.

Lemma checkMinimumNpthDrillDiameter_keeps pe :
  keeps R (checkMinimumNpthDrillDiameter pe).
Proof. unfold checkMinimumNpthDrillDiameter. keeps_tac. Qed.

Lemma checkMinimumNpthSlotWidth_keeps pe :
  keeps R (checkMinimumNpthSlotWidth pe).
Proof. unfold checkMinimumNpthSlotWidth. keeps_tac. Qed.

Lemma checkMinimumPthDrillDiameter_keeps pe :
  keeps R (checkMinimumPthDrillDiameter pe).
Proof. unfold checkMinimumPthDrillDiameter. keeps_tac. Qed.

Lemma checkMinimumPthSlotWidth_keeps pe :
  keeps R (checkMinimumPthSlotWidth pe).
Proof. unfold checkMinimumPthSlotWidth. keeps_tac. Qed.

Lemma checkAllowedNpthSlots_keeps pe : keeps R (checkAllowedNpthSlots pe).
Proof. unfold checkAllowedNpthSlots. keeps_tac. Qed.

Lemma checkAllowedPthSlots_keeps pe : keeps R (checkAllowedPthSlots pe).
Proof. unfold checkAllowedPthSlots. keeps_tac. Qed.

Lemma checkInvalidPadConnections_keeps pe :
  keeps R (checkInvalidPadConnections pe).
Proof. unfold checkInvalidPadConnections. keeps_tac. Qed.

Lemma checkCourtyardClearances_keeps pe :
  keeps R (checkCourtyardClearances pe).
Proof. unfold checkCourtyardClearances. keeps_tac. Qed.

Lemma checkBoardOutline_keeps pe : keeps R (checkBoardOutline pe).
Proof. unfold checkBoardOutline. keeps_tac. Qed.

Lemma checkForUnplacedComponents_keeps pe :
  keeps R (checkForUnplacedComponents pe).
Proof. unfold checkForUnplacedComponents. keeps_tac. Qed.

Lemma checkCircuitDefaultDevices_keeps pe :
  keeps R (checkCircuitDefaultDevices pe).
Proof. unfold checkCircuitDefaultDevices. keeps_tac. Qed.

Lemma checkForStaleObjects_keeps pe : keeps R (checkForStaleObjects pe).
Proof. unfold checkForStaleObjects. keeps_tac. Qed.

(** The two calls that change the board. *)
Lemma rebuildPlanes_keeps pe :
  (∀ st board, R st (withBoard st board)) → keeps R (rebuildPlanes pe).
Proof.
  intros Hboard. unfold rebuildPlanes.
  apply keeps_bind; [keeps_tac | intros _].
  apply keeps_bind; [| intros _; keeps_tac].
  intros st. apply Hboard.
Qed.

Lemma checkForMissingConnections_keeps pe :
  (∀ st board, R st (withBoard st board))
  → keeps R (checkForMissingConnections pe).
Proof.
  intros Hboard. unfold checkForMissingConnections.
  apply keeps_bind; [keeps_tac | intros _].
  apply keeps_bind; [| intros _; keeps_tac].
  intros st. apply Hboard.
Qed.

Lemma quickSteps_keeps : Forall (λ s, keeps R (step_run s)) quickSteps.
Proof.
  unfold quickSteps. repeat constructor; simpl.
  - apply checkMinimumCopperWidth_keeps.
  - apply checkCopperCopperClearances_keeps.
  - apply checkCopperBoardClearances_keeps.
  - apply checkCopperHoleClearances_keeps.
Qed.

(** The checks of the full mode before the air wires are rebuilt. *)
Lemma slowSteps_before_keeps :
  Forall (λ s, keeps R (step_run s)) (take 14 slowSteps).
Proof.
  unfold slowSteps. simpl. repeat constructor; simpl.
  - apply checkDrillDrillClearances_keeps.
  - apply checkDrillBoardClearances_keeps.
  - apply checkMinimumPthAnnularRing_keeps.
  - apply checkMinimumNpthDrillDiameter_keeps.
  - apply checkMinimumNpthSlotWidth_keeps.
  - apply checkMinimumPthDrillDiameter_keeps.
  - apply checkMinimumPthSlotWidth_keeps.
  - apply checkAllowedNpthSlots_keeps.
  - apply checkAllowedPthSlots_keeps.
  - apply checkInvalidPadConnections_keeps.
  - apply checkCourtyardClearances_keeps.
  - apply checkBoardOutline_keeps.
  - apply checkForUnplacedComponents_keeps.
  - apply checkCircuitDefaultDevices_keeps.
Qed.

Lemma slowSteps_keeps :
  keeps R (checkForMissingConnections 95)
  → Forall (λ s, keeps R (step_run s)) slowSteps.
Proof.
  intros Hmissing. unfold slowSteps. repeat constructor; simpl.
  - apply checkDrillDrillClearances_keeps.
  - apply checkDrillBoardClearances_keeps.
  - apply checkMinimumPthAnnularRing_keeps.
  - apply checkMinimumNpthDrillDiameter_keeps.
  - apply checkMinimumNpthSlotWidth_keeps.
  - apply checkMinimumPthDrillDiameter_keeps.
  - apply checkMinimumPthSlotWidth_keeps.
  - apply checkAllowedNpthSlots_keeps.
  - apply checkAllowedPthSlots_keeps.
  - apply checkInvalidPadConnections_keeps.
  - apply checkCourtyardClearances_keeps.
  - apply checkBoardOutline_keeps.
  - apply checkForUnplacedComponents_keeps.
  - apply checkCircuitDefaultDevices_keeps.
  - exact Hmissing.
  - apply checkForStaleObjects_keeps.
Qed.

Lemma steps_keeps quick :
  (quick = false → ∀ st board, R st (withBoard st board))
  → Forall (λ s, keeps R (step_run s)) (steps quick).
Proof.
  intros Hboard. destruct quick; unfold steps; [apply quickSteps_keeps |].
  constructor; [by apply rebuildPlanes_keeps, Hboard |].
  apply Forall_app. split; [apply quickSteps_keeps |].
  by apply slowSteps_keeps, checkForMissingConnections_keeps, Hboard.
Qed.

Lemma foreach_steps_keeps l :
  Forall (λ s, keeps R (step_run s)) l → keeps R (foreach l step_run).
Proof.
  induction 1 as [| s l Hs _ IH]; simpl; [apply keeps_ret |].
  apply keeps_bind; [exact Hs | intros _; exact IH].
Qed.

(** [execute] keeps what its reset, its steps and its end keep. *)
Lemma execute_keeps quick :
  (∀ st, R st (resetState quick st))
  → (∀ st, R st (finishedState st))
  → (quick = false → ∀ st board, R st (withBoard st board))
  → keeps R (execute quick).
Proof.
  intros Hreset Hfinish Hboard st. rewrite execute_steps.
  assert (Hsteps : keeps R (foreach (steps quick) step_run))
    by apply foreach_steps_keeps, steps_keeps, Hboard.
  specialize (Hsteps (resetState quick st)).
  destruct (foreach _ _ _) as [[] st' | ex st']; simpl in *.
  - etrans; [apply Hreset |]. etrans; [exact Hsteps |]. apply Hfinish.
  - etrans; [apply Hreset | exact Hsteps].
Qed.

End Keeps.

Section Frame.
Context `{Geometry} {SExpression : Type}
        `{!RuleCheckMessage SExpression DrcMsg}.

Local Instance cacheKept_preorder : PreOrder cacheKept.
Proof.
  split.
  - by intros st key paths.
  - intros st1 st2 st3 H12 H23 key paths Hc. by apply H23, H12.
Qed.

Local Instance boardKept_preorder : PreOrder boardKept.
Proof.
  split.
  - intros st. split; [done | reflexivity].
  - intros st1 st2 st3 [Hb12 Hc12] [Hb23 Hc23]. split.
    + by rewrite Hb23.
    + by etrans.
Qed.

Lemma cacheKept_same st st' :
  mCachedPaths st' = mCachedPaths st → cacheKept st st'.
Proof. intros Heq key paths. by rewrite Heq. Qed.

Lemma cacheKept_withCached st key paths :
  lookupCache key (mCachedPaths st) = None
  → cacheKept st (withCached st key paths).
Proof.
  intros Hnone key' paths' Hc. unfold lookupCache, withCached in *.
  simpl. case_bool_decide as Hk; simpl in *; [| done].
  subst key'. by rewrite Hnone in Hc.
Qed.

Lemma boardKept_same st st' :
  mBoard st' = mBoard st → mCachedPaths st' = mCachedPaths st
  → boardKept st st'.
Proof. intros Hb Hc. split; [done | by apply cacheKept_same]. Qed.

(** The 18 checks that do not rebuild anything leave the board as it
    is. *)
Lemma quickSteps_boardKept :
  Forall (λ s, keeps boardKept (step_run s)) quickSteps.
Proof.
  apply quickSteps_keeps; [apply _ | | | |].
  - intros msg st. by apply boardKept_same.
  - intros status st. by apply boardKept_same.
  - intros percent st. by apply boardKept_same.
  - intros st key paths Hnone. split; [done |].
    by apply cacheKept_withCached.
Qed.

Lemma execute_cacheKept quick : keeps cacheKept (execute quick).
Proof.
  apply execute_keeps; [apply _ | | | | | | |].
  - intros msg st. by apply cacheKept_same.
  - intros status st. by apply cacheKept_same.
  - intros percent st. by apply cacheKept_same.
  - intros st key paths. apply cacheKept_withCached.
  - intros st. by apply cacheKept_same.
  - intros st. by apply cacheKept_same.
  - intros _ st board. by apply cacheKept_same.
Qed.

Lemma boardKept_withCached st key paths :
  lookupCache key (mCachedPaths st) = None
  → boardKept st (withCached st key paths).
Proof. intros Hnone. split; [done | by apply cacheKept_withCached]. Qed.

Lemma execute_quick_boardKept : keeps boardKept (execute true).
Proof.
  apply execute_keeps; [apply _ | | | | | | |].
  - intros msg st. by apply boardKept_same.
  - intros status st. by apply boardKept_same.
  - intros percent st. by apply boardKept_same.
  - apply boardKept_withCached.
  - intros st. by apply boardKept_same.
  - intros st. by apply boardKept_same.
  - intros Hq. discriminate Hq.
Qed.

(** Property X1. A quick run only reads the board. *)
Theorem quick_run_leaves_the_board (st : DrcState) :
  mBoard (final (execute true st)) = mBoard st.
Proof. by destruct (execute_quick_boardKept st) as [Hb _]. Qed.

Lemma rebuildPlanes_board pe st :
  ∃ st', rebuildPlanes pe st = Returned tt st'
         ∧ mBoard st' = Board_rebuildAllPlanes (mBoard st)
         ∧ mCachedPaths st' = mCachedPaths st.
Proof. eexists. split; [reflexivity | done]. Qed.

Lemma checkForMissingConnections_board pe st :
  mBoard (final (checkForMissingConnections pe st))
  = Board_forceAirWiresRebuild (mBoard st).
Proof.
  unfold checkForMissingConnections.
  set (rest := (board ← gets mBoard; _)).
  assert (Hrest : keeps boardKept rest).
  { unfold rest.
    apply keeps_bind; [apply _ | apply keeps_gets; apply _ | intros board].
    apply keeps_bind; [apply _ | | intros _].
    - apply keeps_foreach; [apply _ | intros airWire].
      apply keeps_bind; [apply _ | apply keeps_liftExc; apply _ |].
      intros width st'. by apply boardKept_same.
    - intros st'. by apply boardKept_same. }
  unfold mbind at 1 2, M_bind at 1 2. simpl.
  match goal with
  | |- mBoard (final (rest ?s)) = _ => by destruct (Hrest s) as [-> _]
  end.
Qed.

Lemma foreach_steps_boardKept l st :
  Forall (λ s, keeps boardKept (step_run s)) l
  → mBoard (final (foreach l step_run st)) = mBoard st.
Proof.
  intros Hall.
  by destruct (foreach_steps_keeps boardKept l Hall st) as [-> _].
Qed.

(** Property X2. A full run that returns leaves the board with its planes
    rebuilt and then its air wires rebuilt. *)
Theorem full_run_rebuilds_planes_and_air_wires (st st' : DrcState) :
  execute false st = Returned tt st'
  → mBoard st'
    = Board_forceAirWiresRebuild (Board_rebuildAllPlanes (mBoard st)).
Proof.
  rewrite execute_steps. unfold steps.
  change (foreach (rebuildStep :: quickSteps ++ slowSteps) step_run
                  (resetState false st))
    with ((rebuildPlanes 12
           ≫= λ _, foreach (quickSteps ++ slowSteps) step_run)
            (resetState false st)).
  destruct (rebuildPlanes_board 12 (resetState false st))
    as (st1 & Hr1 & Hb1 & _).
  unfold mbind at 1, M_bind at 1. rewrite Hr1.
  change slowSteps
    with (take 14 slowSteps
          ++ [mkStep (checkForMissingConnections 95) (λ _, true)
                     "Check for missing connections..." 95
                     [MissingConnection];
              mkStep (checkForStaleObjects 97) (λ _, true)
                     "Check for stale objects..." 97
                     [EmptyNetSegment; UnconnectedJunction]]).
  rewrite app_assoc, foreach_app.
  assert (Hpre : Forall (λ s, keeps boardKept (step_run s))
                        (quickSteps ++ take 14 slowSteps)).
  { apply Forall_app. split.
    - apply quickSteps_boardKept.
    - apply slowSteps_before_keeps;
        first [ apply _ | apply boardKept_withCached
              | intros ? s; by apply boardKept_same ]. }
  pose proof (foreach_steps_boardKept _ st1 Hpre) as Hb2.
  destruct (foreach (quickSteps ++ take 14 slowSteps) step_run st1)
    as [[] st2 | ex st2]; [| done].
  simpl in Hb2. simpl foreach. unfold mbind, M_bind.
  pose proof (checkForMissingConnections_board 95 st2) as Hb3.
  destruct (checkForMissingConnections 95 st2) as [[] st3 | ex st3];
    [| done].
  simpl in Hb3.
  assert (Hstale : keeps boardKept (checkForStaleObjects 97)).
  { apply checkForStaleObjects_keeps;
      first [ apply _ | intros ? s; by apply boardKept_same ]. }
  destruct (Hstale st3) as [Hb4 _].
  destruct (checkForStaleObjects 97 st3) as [[] st4 | ex st4]; [| done].
  simpl in Hb4. intros [= <-]. simpl.
  by rewrite Hb4, Hb3, Hb2, Hb1.
Qed.


(** *** The cache of copper paths *)

(** Property X3. [getCopperPaths] computes the copper of a layer once. A call
    that returns leaves its result in the cache and changes nothing else; from
    then on, in any engine state that still holds the entry, whatever the
    board has become, the call returns the same paths and changes nothing. A
    call that throws changes nothing. *)
Theorem getCopperPaths_computes_once
    (layer : Layer) (netsignals : gset NetSignal) (st : DrcState) :
  match getCopperPaths layer netsignals st with
  | Returned paths st1 =>
      lookupCache (layer, netsignals) (mCachedPaths st1) = Some paths
      ∧ boardKept st st1
      ∧ mMessages st1 = mMessages st
      ∧ mProgressStatus st1 = mProgressStatus st
      ∧ emitted st1 = emitted st
      ∧ ∀ st2, cacheKept st1 st2
               → getCopperPaths layer netsignals st2 = Returned paths st2
  | Thrown _ st1 => st1 = st
  end.
Proof.
  assert (Hhit : ∀ paths st2,
            lookupCache (layer, netsignals) (mCachedPaths st2) = Some paths
            → getCopperPaths layer netsignals st2 = Returned paths st2).
  { intros paths st2 Hc. unfold getCopperPaths, mbind, M_bind, gets.
    by rewrite Hc. }
  unfold getCopperPaths, mbind, M_bind, gets.
  destruct (lookupCache _ (mCachedPaths st)) as [paths |] eqn:Hc; simpl.
  - repeat split; try done. intros st2 Hkept. by apply Hhit, Hkept.
  - unfold liftExc. destruct (gen_addCopper _ _ _ _ _) as [ex | paths];
      simpl; [done |].
    assert (Hnew : lookupCache (layer, netsignals)
                     ((layer, netsignals, paths) :: mCachedPaths st)
                   = Some paths).
    { unfold lookupCache. simpl. by rewrite bool_decide_eq_true_2. }
    repeat split; try done.
    + by apply cacheKept_withCached.
    + intros st2 Hkept. by apply Hhit, Hkept.
Qed.

(** Property X4. [execute] never empties the cache: an entry that is in the
    cache before a run, quick or full, finished or aborted, is still there
    after it, and [getCopperPaths] then returns its paths as they are,
    although the run may have rebuilt the planes of the board. *)
Theorem execute_keeps_cached_copper_paths
    (quick : bool) (st : DrcState) (layer : Layer)
    (netsignals : gset NetSignal) (paths : Paths) :
  lookupCache (layer, netsignals) (mCachedPaths st) = Some paths
  → let st' := final (execute quick st) in
    lookupCache (layer, netsignals) (mCachedPaths st') = Some paths
    ∧ getCopperPaths layer netsignals st' = Returned paths st'.
Proof.
  intros Hc st'.
  assert (Hc' : lookupCache (layer, netsignals) (mCachedPaths st')
                = Some paths) by by apply (execute_cacheKept quick st).
  split; [exact Hc' |].
  unfold getCopperPaths, mbind, M_bind, gets. by rewrite Hc'.
Qed.

(** *** The progress member *)

Local Instance progressTracked_preorder : PreOrder progressTracked.
Proof.
  split.
  - intros st. exists []. by rewrite app_nil_r.
  - intros st1 st2 st3 (es1 & He1 & Hp1) (es2 & He2 & Hp2).
    exists (es1 ++ es2). split; [by rewrite He2, He1, app_assoc |].
    rewrite Hp2, Hp1, progressOf_app, last_app.
    by destruct (last (progressOf es2)).
Qed.

Lemma progressTracked_same st st' :
  emitted st' = emitted st → mProgressPercent st' = mProgressPercent st
  → progressTracked st st'.
Proof. intros He Hp. exists []. by rewrite app_nil_r. Qed.

Lemma execute_progressTracked quick : keeps progressTracked (execute quick).
Proof.
  apply execute_keeps; [apply _ | | | | | | |].
  - intros msg st. by exists [progressMessage (getMessage msg)].
  - intros status st. by exists [progressStatus status].
  - intros percent st. by exists [progressPercent percent].
  - intros st key paths _. by apply progressTracked_same.
  - intros st. exists [started; progressPercent 2]. simpl.
    by rewrite <- app_assoc.
  - intros st.
    exists [progressStatus (finishedStatus (length (mMessages st)));
            progressPercent 100; finished]. simpl.
    by rewrite <- !app_assoc.
  - intros _ st board. by apply progressTracked_same.
Qed.

(** Property X5. After [execute], finished or aborted, the progress member
    holds the value of the last progress signal of the run; it is 100 exactly
    when the run returned. *)
Theorem progress_member_is_last_progress_signal
    (quick : bool) (st : DrcState) :
  let o := execute quick st in
  last (progressOf (emittedSince st (final o)))
  = Some (mProgressPercent (final o))
  ∧ (mProgressPercent (final o) = 100 ↔ isReturned o = true).
Proof.
  intros o.
  destruct (execute_progressTracked quick st) as (es & He & Hp).
  fold o in He, Hp.
  destruct (execute_progress quick st) as (ps & Hps & Hsub).
  fold o in Hps.
  assert (Hes : emittedSince st (final o) = es).
  { unfold emittedSince. by rewrite He, drop_app_length. }
  rewrite Hes in *.
  assert (Hlast : last (progressOf es) = Some (mProgressPercent (final o))).
  { rewrite Hp. destruct (last (progressOf es)) eqn:Hl; [done |].
    apply last_None in Hl. by rewrite Hps in Hl. }
  split; [exact Hlast |].
  rewrite Hps in Hlast.
  destruct (isReturned o) eqn:Hr.
  - change (2 :: ps ++ [100]) with ((2 :: ps) ++ [100]) in Hlast.
    rewrite last_snoc in Hlast. injection Hlast as <-. done.
  - split; [| done]. intros H100. rewrite H100, app_nil_r in Hlast.
    apply last_Some_elem_of in Hlast.
    pose proof (progress_schedule_below quick) as Hb.
    rewrite Forall_forall in Hb. exfalso. apply (Hb 100); [| done].
    eapply elem_of_sublist; [exact Hlast |]. by apply sublist_skip.
Qed.

End Frame.

(** ** Checks that only read the board *)

Section SimpleChecks.
Context `{Geometry} {SExpression : Type}
        `{!RuleCheckMessage SExpression DrcMsg}.

Lemma emits_guard (c : bool) (m : M unit) ms :
  emits ms m → emits (if c then ms else []) (if c then m else mret tt).
Proof. destruct c; [done | intros _; apply emits_ret]. Qed.

Lemma emits_positive (z : Z) (k : Z → M unit) ms :
  0 < z → emits ms (k z)
  → emits ms (width ← liftExc (mkPositiveLength z); k width).
Proof.
  intros Hz Hk st. unfold mbind, M_bind, liftExc, mkPositiveLength.
  rewrite decide_True by done. apply Hk.
Qed.

Lemma emits_foreach_map {A} (l : list A) (body : A → M unit)
    (f : A → DrcMsg) :
  (∀ x, emits [f x] (body x)) → emits (map f l) (foreach l body).
Proof.
  intros Hbody. induction l as [| x l IH]; simpl.
  - apply emits_ret.
  - apply (emits_bind [f x]); [apply Hbody | apply IH].
Qed.

(** A check that is disabled by a zero setting, reads the board after
    its status and then only emits messages. *)
Lemma emits_check_nonZero (g : BoardDesignRuleCheckSettings → Z) status
    (rest : Z → Board → M unit) (ms : list DrcMsg) st :
  (g (mSettings st) = 0 → ms = [])
  → (g (mSettings st) ≠ 0
     → emits ms (rest (g (mSettings st)) (mBoard st)))
  → ∃ st', (x ← gets (λ st, g (mSettings st));
            if decide (x = 0) then mret tt
            else emitStatus status;; board ← gets mBoard; rest x board) st
           = Returned tt st'
           ∧ mMessages st' = mMessages st ++ ms.
Proof.
  intros Hzero Hrest. unfold mbind at 1, M_bind at 1, gets at 1.
  destruct (decide (g (mSettings st) = 0)) as [Hz | Hz].
  - exists st. by rewrite Hzero, app_nil_r.
  - destruct (Hrest Hz (withStatus st status)) as (st' & Hr & Hm).
    exists st'. split; [exact Hr | exact Hm].
Qed.

Lemma checkStrokeTextWidth_emits board minWidth texts :
  emits (narrowStrokeTexts board minWidth texts)
        (foreach texts (checkStrokeTextWidth board minWidth)).
Proof.
  unfold narrowStrokeTexts. rewrite <- flat_map_if_filter.
  apply emits_foreach. intros text.
  unfold checkStrokeTextWidth, isNarrowStrokeText.
  destruct (contains _ _); simpl; [| apply emits_ret].
  case_bool_decide as Hw; simpl.
  - rewrite decide_True by done. apply emits_positive; [lia |].
    apply emits_emitMessage.
  - rewrite decide_False by done. apply emits_ret.
Qed.

(** Property X6. The minimum copper width check always returns; it appends one
    message for each stroke text, plane and net line that is on a copper layer
    and narrower than the minimum, and nothing when the minimum is 0. *)
Theorem checkMinimumCopperWidth_reports (progressEnd : Z) (st : DrcState) :
  ∃ st', checkMinimumCopperWidth progressEnd st = Returned tt st'
         ∧ mMessages st'
           = mMessages st
             ++ narrowCopper (getMinCopperWidth (mSettings st)) (mBoard st).
Proof.
  unfold checkMinimumCopperWidth.
  apply (emits_check_nonZero getMinCopperWidth); unfold narrowCopper.
  { intros Hz. by rewrite decide_True. }
  intros Hz. rewrite decide_False by done.
  set (minWidth := getMinCopperWidth (mSettings st)).
  set (board := mBoard st).
  apply emits_bind; [apply checkStrokeTextWidth_emits |].
  apply emits_bind.
  { rewrite <- flat_map_if_filter. apply emits_foreach. intros plane.
    unfold isNarrowPlane. destruct (contains _ _); simpl; [| apply emits_ret].
    case_bool_decide as Hw; simpl.
    - rewrite decide_True by done. apply emits_positive; [lia |].
      apply emits_emitMessage.
    - rewrite decide_False by done. apply emits_ret. }
  apply emits_bind.
  { apply emits_foreach. intros device. apply checkStrokeTextWidth_emits. }
  rewrite <- (app_nil_r (flat_map _ (getNetSegments board))).
  apply emits_bind; [| apply emits_emitProgress].
  apply emits_foreach. intros netsegment.
  rewrite <- flat_map_if_filter. apply emits_foreach. intros netline.
  unfold isNarrowNetLine. destruct (contains _ _); simpl; [| apply emits_ret].
  case_bool_decide as Hw; simpl.
  - rewrite decide_True by done. apply emits_emitMessage.
  - rewrite decide_False by done. apply emits_ret.
Qed.


(** Property X7. The NPTH drill diameter check always returns; it appends one
    message for each board hole and footprint hole that is a round drill (not
    a slot) with a diameter below the minimum, and nothing when the minimum is
    0. *)
Theorem checkMinimumNpthDrillDiameter_reports
    (progressEnd : Z) (st : DrcState) :
  ∃ st', checkMinimumNpthDrillDiameter progressEnd st = Returned tt st'
         ∧ mMessages st'
           = mMessages st
             ++ smallNpthDrills (getMinNpthDrillDiameter (mSettings st))
                                (mBoard st).
Proof.
  unfold checkMinimumNpthDrillDiameter.
  apply (emits_check_nonZero getMinNpthDrillDiameter);
    unfold smallNpthDrills.
  { intros Hz. by rewrite decide_True. }
  intros Hz. rewrite decide_False by done. cbv zeta.
  apply emits_bind.
  { rewrite <- flat_map_if_filter. apply emits_foreach. intros hole.
    apply emits_if. }
  rewrite <- (app_nil_r (flat_map _ (getDeviceInstances (mBoard st)))).
  apply emits_bind; [| apply emits_emitProgress].
  apply emits_foreach. intros device.
  rewrite <- flat_map_if_filter. apply emits_foreach. intros hole.
  apply emits_if.
Qed.

(** Property X8. The NPTH slot width check always returns; it appends one
    message for each board hole and footprint hole that is a slot with a width
    below the minimum, and nothing when the minimum is 0. *)
Theorem checkMinimumNpthSlotWidth_reports
    (progressEnd : Z) (st : DrcState) :
  ∃ st', checkMinimumNpthSlotWidth progressEnd st = Returned tt st'
         ∧ mMessages st'
           = mMessages st
             ++ narrowNpthSlots (getMinNpthSlotWidth (mSettings st))
                                (mBoard st).
Proof.
  unfold checkMinimumNpthSlotWidth.
  apply (emits_check_nonZero getMinNpthSlotWidth); unfold narrowNpthSlots.
  { intros Hz. by rewrite decide_True. }
  intros Hz. rewrite decide_False by done. cbv zeta.
  apply emits_bind.
  { rewrite <- flat_map_if_filter. apply emits_foreach. intros hole.
    apply emits_if. }
  rewrite <- (app_nil_r (flat_map _ (getDeviceInstances (mBoard st)))).
  apply emits_bind; [| apply emits_emitProgress].
  apply emits_foreach. intros device.
  rewrite <- flat_map_if_filter. apply emits_foreach. intros hole.
  apply emits_if.
Qed.

(** Property X9. The PTH drill diameter check always returns; it appends one
    message for each via whose drill, and each pad hole (round or slotted)
    whose diameter, is below the minimum, and nothing when the minimum is 0. *)
Theorem checkMinimumPthDrillDiameter_reports
    (progressEnd : Z) (st : DrcState) :
  ∃ st', checkMinimumPthDrillDiameter progressEnd st = Returned tt st'
         ∧ mMessages st'
           = mMessages st
             ++ smallPthDrills (getMinPthDrillDiameter (mSettings st))
                               (mBoard st).
Proof.
  unfold checkMinimumPthDrillDiameter.
  apply (emits_check_nonZero getMinPthDrillDiameter); unfold smallPthDrills.
  { intros Hz. by rewrite decide_True. }
  intros Hz. rewrite decide_False by done.
  apply emits_bind.
  { apply emits_foreach. intros netsegment.
    rewrite <- flat_map_if_filter. apply emits_foreach. intros via.
    case_bool_decide as Hd.
    - rewrite decide_True by done. apply emits_emitMessage.
    - rewrite decide_False by done. apply emits_ret. }
  rewrite <- (app_nil_r (flat_map _ (getDeviceInstances (mBoard st)))).
  apply emits_bind; [| apply emits_emitProgress].
  apply emits_foreach. intros device.
  apply emits_foreach. intros pad.
  rewrite <- flat_map_if_filter. apply emits_foreach. intros hole.
  case_bool_decide as Hd.
  - rewrite decide_True by done. apply emits_positive; [lia |].
    apply emits_emitMessage.
  - rewrite decide_False by done. apply emits_ret.
Qed.

(** Property X10. The PTH slot width check always returns; it appends one
    message for each pad hole that is a slot with a width below the minimum,
    and nothing when the minimum is 0. *)
Theorem checkMinimumPthSlotWidth_reports
    (progressEnd : Z) (st : DrcState) :
  ∃ st', checkMinimumPthSlotWidth progressEnd st = Returned tt st'
         ∧ mMessages st'
           = mMessages st
             ++ narrowPthSlots (getMinPthSlotWidth (mSettings st))
                               (mBoard st).
Proof.
  unfold checkMinimumPthSlotWidth.
  apply (emits_check_nonZero getMinPthSlotWidth); unfold narrowPthSlots.
  { intros Hz. by rewrite decide_True. }
  intros Hz. rewrite decide_False by done.
  rewrite <- (app_nil_r (flat_map _ (getDeviceInstances (mBoard st)))).
  apply emits_bind; [| apply emits_emitProgress].
  apply emits_foreach. intros device. cbv zeta.
  apply emits_foreach. intros pad.
  rewrite <- flat_map_if_filter. apply emits_foreach. intros hole.
  apply emits_if.
Qed.



(** Property X12. The unplaced component check always returns; it appends one
    message for each component of the circuit that is not schematic-only and
    has no device on the board. *)
Theorem checkForUnplacedComponents_reports
    (progressEnd : Z) (st : DrcState) :
  ∃ st', checkForUnplacedComponents progressEnd st = Returned tt st'
         ∧ mMessages st' = mMessages st ++ unplacedComponents (mBoard st).
Proof.
  unfold checkForUnplacedComponents.
  apply (emits_after_status _ _ unplacedComponents).
  intros board. unfold unplacedComponents.
  rewrite <- (app_nil_r (map _ _)).
  apply emits_bind; [| apply emits_emitProgress].
  rewrite <- flat_map_if_filter. apply emits_foreach. intros cmp.
  apply emits_if.
Qed.

(** Property X13. The stale object check always returns; for each net segment
    it appends a message when the segment is not used, then one message for
    each of its net points that is not used. *)
Theorem checkForStaleObjects_reports (progressEnd : Z) (st : DrcState) :
  ∃ st', checkForStaleObjects progressEnd st = Returned tt st'
         ∧ mMessages st' = mMessages st ++ staleObjects (mBoard st).
Proof.
  unfold checkForStaleObjects.
  apply (emits_after_status _ _ staleObjects).
  intros board. unfold staleObjects.
  rewrite <- (app_nil_r (flat_map _ (getNetSegments board))).
  apply emits_bind; [| apply emits_emitProgress].
  apply emits_foreach. intros netSegment.
  apply emits_bind.
  - destruct (ns_isUsed netSegment); simpl;
      [apply emits_ret | apply emits_emitMessage].
  - rewrite <- flat_map_if_filter.
    apply emits_foreach. intros netPoint.
    destruct (np_isUsed netPoint); simpl; [apply emits_ret |].
    apply emits_positive; [lia |]. apply emits_emitMessage.
Qed.

(** Property X14. The missing connection check always returns; it makes the
    board rebuild its air wires and appends one message for each air wire the
    board then has. *)
Theorem checkForMissingConnections_reports
    (progressEnd : Z) (st : DrcState) :
  let board := Board_forceAirWiresRebuild (mBoard st) in
  ∃ st', checkForMissingConnections progressEnd st = Returned tt st'
         ∧ mBoard st' = board
         ∧ mMessages st' = mMessages st ++ missingConnections board.
Proof.
  intros board.
  assert (Hemits : emits (missingConnections board)
            (foreach (getAirWires board) (λ airWire,
               width ← liftExc (mkPositiveLength 50000);
               emitMessage (DrcMsgMissingConnection
                              (fst (aw_p1 airWire)) (fst (aw_p2 airWire))
                              (aw_netSignal airWire)
                              [Path_obround (snd (aw_p1 airWire))
                                            (snd (aw_p2 airWire)) width]));;
             emitProgress progressEnd)).
  { unfold missingConnections. rewrite <- (app_nil_r (map _ _)).
    apply emits_bind; [| apply emits_emitProgress].
    apply emits_foreach_map. intros airWire.
    apply emits_positive; [lia |]. apply emits_emitMessage. }
  destruct (Hemits (withBoard (withStatus st "Check for missing connections...") board))
    as (st' & Hr & Hm).
  exists st'. split; [exact Hr |]. split; [| exact Hm].
  pose proof (checkForMissingConnections_board progressEnd st) as Hb.
  change (checkForMissingConnections progressEnd st)
    with ((foreach (getAirWires board) (λ airWire,
               width ← liftExc (mkPositiveLength 50000);
               emitMessage (DrcMsgMissingConnection
                              (fst (aw_p1 airWire)) (fst (aw_p2 airWire))
                              (aw_netSignal airWire)
                              [Path_obround (snd (aw_p1 airWire))
                                            (snd (aw_p2 airWire)) width]));;
             emitProgress progressEnd)
            (withBoard (withStatus st "Check for missing connections...")
                       board)) in Hb.
  by rewrite Hr in Hb.
Qed.


(** *** Default devices *)

Lemma Exc_bind_inr {A B} (a : A) (k : A → Exc B) : (inr a ≫= k) = k a.
Proof. reflexivity. Qed.

Lemma foldExc_append {A B} (l : list A) (acc : list B)
    (body : list B → A → Exc (list B)) (f : A → list B) :
  (∀ acc x, body acc x = inr (acc ++ f x))
  → foldExc l acc body = inr (acc ++ flat_map f l).
Proof.
  intros Hbody. revert acc. induction l as [| x l IH]; intros acc; simpl.
  - by rewrite app_nil_r.
  - rewrite Hbody. unfold mbind, Exc_bind. by rewrite IH, app_assoc.
Qed.

Lemma flat_map_decide_filter {A B} (P : A → Prop) `{∀ x, Decision (P x)}
    (f : A → list B) (l : list A) :
  flat_map (λ x, if decide (P x) then f x else []) l
  = flat_map f (filter P l).
Proof.
  induction l as [| x l IH]; simpl; [done |].
  rewrite filter_cons, IH. by destruct (decide (P x)).
Qed.

(** The lambda [addPath]. *)
Lemma addPath_inr device (locations : list Path) path lineWidth fill :
  (locations ← (if decide (0 < lineWidth) then
                  width ← mkPositiveLength lineWidth;
                  mret (locations
                        ++ Path_toOutlineStrokes
                             (Transform_mapPath (Transform_ofDevice device)
                                                path) width)
                else mret locations);
   mret (if Path_isClosed
              (Transform_mapPath (Transform_ofDevice device) path) && fill
         then locations
              ++ [Transform_mapPath (Transform_ofDevice device) path]
         else locations))
  = inr (locations ++ drawnPathLocations device path lineWidth fill).
Proof.
  unfold drawnPathLocations.
  unfold mkPositiveLength, mbind, Exc_bind, mret, Exc_ret.
  destruct (decide (0 < lineWidth)); destruct (_ && _); simpl;
    by rewrite ?app_nil_r, ?app_assoc.
Qed.

(** [getDeviceLocation] never throws: the strokes are drawn only for
    a positive line width. *)
Lemma getDeviceLocation_total device :
  getDeviceLocation device = inr (deviceLocation device).
Proof.
  unfold getDeviceLocation. cbv zeta.
  assert (Hdraw : ∀ (locations : list Path) layer,
    (locations ← foldExc (fpt_polygons (dev_libFootprint device)) locations
       (λ locations polygon,
          if decide (polygon_layer polygon = layer) then
            locations ← (if decide (0 < polygon_lineWidth polygon) then
                           width ← mkPositiveLength (polygon_lineWidth polygon);
                           mret (locations ++ Path_toOutlineStrokes
                                   (Transform_mapPath (Transform_ofDevice device)
                                      (polygon_path polygon)) width)
                         else mret locations);
            mret (if Path_isClosed (Transform_mapPath (Transform_ofDevice device)
                                      (polygon_path polygon))
                     && polygon_filled polygon
                  then locations ++ [Transform_mapPath (Transform_ofDevice device)
                                       (polygon_path polygon)]
                  else locations)
          else mret locations);
     foldExc (fpt_circles (dev_libFootprint device)) locations
       (λ locations circle,
          if decide (circle_layer circle = layer) then
            locations ← (if decide (0 < circle_lineWidth circle) then
                           width ← mkPositiveLength (circle_lineWidth circle);
                           mret (locations ++ Path_toOutlineStrokes
                                   (Transform_mapPath (Transform_ofDevice device)
                                      (Path_translated
                                         (Path_circle (circle_diameter circle))
                                         (circle_center circle))) width)
                         else mret locations);
            mret (if Path_isClosed (Transform_mapPath (Transform_ofDevice device)
                                      (Path_translated
                                         (Path_circle (circle_diameter circle))
                                         (circle_center circle)))
                     && circle_filled circle
                  then locations ++ [Transform_mapPath (Transform_ofDevice device)
                                       (Path_translated
                                          (Path_circle (circle_diameter circle))
                                          (circle_center circle))]
                  else locations)
          else mret locations))
    = inr (locations ++ drawingLocations device layer)).
  { intros locations layer. unfold drawingLocations.
    rewrite (foldExc_append _ _ _ (λ polygon,
      if decide (polygon_layer polygon = layer)
      then drawnPathLocations device (polygon_path polygon)
             (polygon_lineWidth polygon) (polygon_filled polygon)
      else [])); cycle 1.
    { intros acc polygon. destruct (decide _); [apply addPath_inr |].
      by rewrite app_nil_r. }
    unfold mbind at 1, Exc_bind at 1.
    rewrite (foldExc_append _ _ _ (λ circle,
      if decide (circle_layer circle = layer)
      then drawnPathLocations device
             (Path_translated (Path_circle (circle_diameter circle))
                              (circle_center circle))
             (circle_lineWidth circle) (circle_filled circle)
      else [])); cycle 1.
    { intros acc circle. destruct (decide _); [apply addPath_inr |].
      by rewrite app_nil_r. }
    by rewrite !flat_map_decide_filter, app_assoc. }
  unfold deviceLocation.
  rewrite Hdraw, Exc_bind_inr, Hdraw, Exc_bind_inr. cbn [app].
  destruct (drawingLocations device topDocumentation
            ++ drawingLocations device botDocumentation) as [| p ps].
  - simpl isEmpty. cbv iota. rewrite Hdraw, Exc_bind_inr, Hdraw.
    cbn [app]. rewrite Exc_bind_inr. unfold mkPositiveLength.
    rewrite decide_True by lia. rewrite Exc_bind_inr.
    unfold originCross. done.
  - simpl isEmpty. cbv iota. unfold mret, Exc_ret.
    rewrite Exc_bind_inr. unfold mkPositiveLength.
    rewrite decide_True by lia. rewrite Exc_bind_inr.
    unfold originCross. done.
Qed.

(** Property X15. The default device check always returns; it appends one
    message for each device whose component names a default device other than
    the device placed, located by the documentation drawings of the device (or
    its placement drawings when it has none) and its origin cross. *)
Theorem checkCircuitDefaultDevices_reports
    (progressEnd : Z) (st : DrcState) :
  ∃ st', checkCircuitDefaultDevices progressEnd st = Returned tt st'
         ∧ mMessages st'
           = mMessages st ++ defaultDeviceMismatches (mBoard st).
Proof.
  unfold checkCircuitDefaultDevices.
  apply (emits_after_status _ _ defaultDeviceMismatches).
  intros board. unfold defaultDeviceMismatches.
  rewrite <- (app_nil_r (map _ _)).
  apply emits_bind; [| apply emits_emitProgress].
  rewrite <- flat_map_if_filter. apply emits_foreach. intros device.
  unfold defaultDeviceDiffers.
  destruct (cmp_defaultDeviceUuid _) as [defaultDevice |];
    [| apply emits_ret].
  destruct (decide (defaultDevice ≠ dev_libDeviceUuid device)) as [Hd | Hd].
  - rewrite bool_decide_eq_true_2 by done. rewrite getDeviceLocation_total.
    apply emits_emitMessage.
  - rewrite bool_decide_eq_false_2 by done. apply emits_ret.
Qed.

End SimpleChecks.

(** ** Clearance to the board edge *)

Section Edge.
Context `{Geometry} {SExpression : Type}
        `{!RuleCheckMessage SExpression DrcMsg}.

(** Property X16. For a clearance of at most 2^62 - 1 nm the restricted area
    along the board edge is the union of the strips drawn max(2 clearance -
    5001, 1) nm wide along the outline polygons of the board and of its
    devices: no step of the width computation leaves the 64 bit range and the
    width is positive, so the constructor of the width never throws. *)
Theorem getBoardClearanceArea_strip (board : Board) (clearance : Z) :
  0 ≤ clearance ≤ 2 ^ 62 - 1
  → getBoardClearanceArea board clearance
    = ClipperHelpers_uniteFill
        (outlineStrips board (Z.max (2 * clearance - 5000 - 1) 1))
        pftNonZero.
Proof.
  intros Hc. unfold getBoardClearanceArea, outlineStrips.
  unfold Length.add, Length.sub, maxArcTolerance.
  rewrite (Length_wrap_inRange (clearance + clearance))
    by (unfold Length.inRange, Length.min_val, Length.max_val; lia).
  unfold mkUnsignedLength. rewrite decide_True by lia.
  rewrite Exc_bind_inr.
  rewrite (Length_wrap_inRange (clearance + clearance - 5000))
    by (unfold Length.inRange, Length.min_val, Length.max_val; lia).
  rewrite Length_wrap_inRange
    by (unfold Length.inRange, Length.min_val, Length.max_val; lia).
  unfold mkPositiveLength. rewrite decide_True by lia.
  rewrite Exc_bind_inr.
  replace (clearance + clearance) with (2 * clearance) by lia.
  rewrite flat_map_decide_filter. f_equal. f_equal.
  apply flat_map_ext. intros device. by rewrite flat_map_decide_filter.
Qed.

Lemma reportIfIntersects_onReturn restrictedArea area msg :
  onReturn (reported restrictedArea area msg)
           (reportIfIntersects restrictedArea area msg).
Proof.
  unfold reported, intersection, reportIfIntersects.
  intros st st'. unfold mbind at 1, M_bind at 1, liftExc.
  destruct (paths ← area; intersectLocations restrictedArea paths)
    as [| [| location locations]]; [done | |]; simpl.
  - intros [= <-]. by rewrite app_nil_r.
  - intros [= <-]. done.
Qed.

(** Property X17. When the drill to board edge clearance check is enabled
    and returns, the messages appended are those of the drills (via drills,
    board holes, pad holes and footprint holes, in this order) whose own
    outline, not expanded, meets the restricted area that
    [getBoardClearanceArea] computes for the clearance. *)
Theorem checkDrillBoardClearances_reports
    (progressEnd : Z) (st st' : DrcState) :
  let clearance := getMinDrillBoardClearance (mSettings st) in
  clearance ≠ 0
  → checkDrillBoardClearances progressEnd st = Returned tt st'
  → ∃ restrictedArea,
      getBoardClearanceArea (mBoard st) clearance = inr restrictedArea
      ∧ mMessages st'
        = mMessages st
          ++ drillBoardViolations clearance restrictedArea (mBoard st).
Proof.
  intros clearance Hnz. unfold checkDrillBoardClearances.
  unfold mbind at 1, M_bind at 1, gets at 1. fold clearance.
  rewrite decide_False by done. cbv zeta.
  unfold mbind at 1, M_bind at 1.
  change (emitStatus (tr "Check drill to board edge clearances...") st)
    with (Returned tt
            (withStatus st "Check drill to board edge clearances...")).
  cbv iota beta.
  unfold mbind at 1, M_bind at 1, gets at 1. cbv iota beta.
  unfold mbind at 1, M_bind at 1, liftExc at 1. simpl mBoard.
  destruct (getBoardClearanceArea (mBoard st) clearance)
    as [| restrictedArea]; [done |].
  cbv iota beta. intros Hrun. exists restrictedArea. split; [done |].
  match type of Hrun with
  | ?m _ = _ =>
      assert (Hloop : onReturn (drillBoardViolations clearance restrictedArea
                                                     (mBoard st)) m)
  end; [| by rewrite (Hloop _ _ Hrun)].
  unfold drillBoardViolations.
  apply onReturn_bind.
  { apply onReturn_foreach. intros netSegment.
    apply onReturn_foreach. intros via. apply reportIfIntersects_onReturn. }
  apply onReturn_bind.
  { apply onReturn_foreach. intros hole. apply reportIfIntersects_onReturn. }
  rewrite <- (app_nil_r (flat_map _ (getDeviceInstances (mBoard st)))).
  apply onReturn_bind;
    [| apply emits_onReturn, emits_emitProgress].
  apply onReturn_foreach. intros device. cbv zeta.
  apply onReturn_bind.
  - apply onReturn_foreach. intros pad.
    apply onReturn_foreach. intros hole. apply reportIfIntersects_onReturn.
  - apply onReturn_foreach. intros hole. apply reportIfIntersects_onReturn.
Qed.


Lemma flat_map_bool_filter {A B} (c : A → bool) (f : A → list B)
    (l : list A) :
  flat_map (λ x, if c x then f x else []) l
  = flat_map f (filter (λ x, c x = true) l).
Proof.
  induction l as [| x l IH]; simpl; [done |].
  rewrite filter_cons, IH. case_decide as Hc; simpl in Hc.
  - by rewrite Hc.
  - by destruct (c x).
Qed.

Lemma onReturn_guard (c : bool) (m : M unit) ms :
  onReturn ms m → onReturn (if c then ms else []) (if c then m else mret tt).
Proof. destruct c; [done | intros _; apply onReturn_ret]. Qed.

(** The objects of a list that pass a test, each reported when it meets
    the restricted area. *)
Lemma onReturn_foreach_filter {A} (l : list A) (c : A → bool)
    (body : A → M unit) (g : A → list DrcMsg) :
  (∀ x, onReturn (g x) (body x))
  → onReturn (flat_map g (filter (λ x, c x = true) l))
             (foreach l (λ x, if c x then body x else mret tt)).
Proof.
  intros Hbody. rewrite <- flat_map_bool_filter.
  apply onReturn_foreach. intros x. by apply onReturn_guard.
Qed.

(** Property X18. When the copper to board edge clearance check is enabled
    and returns, the messages appended are those of the copper objects
    whose area, not inflated, meets the restricted area that
    [getBoardClearanceArea] computes for the clearance. Vias, net lines
    and planes are tested whatever their layer; polygons, circles and
    stroke texts only on copper layers; planes not at all when planes are
    ignored. *)
Theorem checkCopperBoardClearances_reports
    (progressEnd : Z) (st st' : DrcState) :
  let clearance := getMinCopperBoardClearance (mSettings st) in
  clearance ≠ 0
  → checkCopperBoardClearances progressEnd st = Returned tt st'
  → ∃ restrictedArea,
      getBoardClearanceArea (mBoard st) clearance = inr restrictedArea
      ∧ mMessages st'
        = mMessages st
          ++ copperBoardViolations clearance (mIgnorePlanes st)
                                   restrictedArea (mBoard st).
Proof.
  intros clearance Hnz. unfold checkCopperBoardClearances.
  unfold mbind at 1, M_bind at 1, gets at 1. fold clearance.
  rewrite decide_False by done. cbv zeta.
  unfold mbind at 1, M_bind at 1.
  change (emitStatus (tr "Check board clearances...") st)
    with (Returned tt (withStatus st "Check board clearances...")).
  cbv iota beta.
  unfold mbind at 1, M_bind at 1, gets at 1. cbv iota beta.
  unfold mbind at 1, M_bind at 1, gets at 1. cbv iota beta.
  unfold mbind at 1, M_bind at 1, liftExc at 1. simpl mBoard.
  simpl mIgnorePlanes.
  destruct (getBoardClearanceArea (mBoard st) clearance)
    as [| restrictedArea]; [done |].
  cbv iota beta. intros Hrun. exists restrictedArea. split; [done |].
  match type of Hrun with
  | ?m _ = _ =>
      assert (Hloop : onReturn (copperBoardViolations clearance
                                  (mIgnorePlanes st) restrictedArea
                                  (mBoard st)) m)
  end; [| by rewrite (Hloop _ _ Hrun)].
  unfold copperBoardViolations. cbv zeta.
  apply onReturn_bind.
  { apply onReturn_foreach. intros netSegment. apply onReturn_bind.
    - apply onReturn_foreach. intros via. apply reportIfIntersects_onReturn.
    - apply onReturn_foreach. intros netLine.
      apply reportIfIntersects_onReturn. }
  apply onReturn_bind.
  { destruct (mIgnorePlanes st); simpl; [apply onReturn_ret |].
    apply onReturn_foreach. intros plane. apply reportIfIntersects_onReturn. }
  apply onReturn_bind.
  { apply (onReturn_foreach_filter _
             (λ polygon, contains _ (polygon_layer polygon))).
    intros polygon. apply reportIfIntersects_onReturn. }
  apply onReturn_bind.
  { apply (onReturn_foreach_filter _
             (λ strokeText, contains _ (text_layer (getTextObj strokeText)))).
    intros strokeText. apply reportIfIntersects_onReturn. }
  rewrite <- (app_nil_r (flat_map _ (getDeviceInstances (mBoard st)))).
  apply onReturn_bind;
    [| apply emits_onReturn, emits_emitProgress].
  apply onReturn_foreach. intros device.
  apply onReturn_bind.
  { apply onReturn_foreach. intros pad.
    apply (onReturn_foreach_filter _ (λ layer, pad_isOnLayer pad layer)).
    intros layer. apply reportIfIntersects_onReturn. }
  apply onReturn_bind.
  { apply (onReturn_foreach_filter _
             (λ polygon, contains _ (polygon_layer polygon))).
    intros polygon. apply reportIfIntersects_onReturn. }
  apply onReturn_bind.
  { apply (onReturn_foreach_filter _
             (λ circle, contains _ (circle_layer circle))).
    intros circle. apply reportIfIntersects_onReturn. }
  apply (onReturn_foreach_filter _
           (λ strokeText, contains _ (text_layer (getTextObj strokeText)))).
  intros strokeText. apply reportIfIntersects_onReturn.
Qed.

End Edge.

(** ** Copper around holes and drills *)

Section Hole.
Context `{Geometry} {SExpression : Type}
        `{!RuleCheckMessage SExpression DrcMsg}.

Lemma foldExc_ext {A B} (l : list A) (acc : B) (f g : B → A → Exc B) :
  (∀ acc x, f acc x = g acc x) → foldExc l acc f = foldExc l acc g.
Proof.
  intros Hfg. revert acc. induction l as [| x l IH]; intros acc; simpl;
    [done |].
  rewrite Hfg. destruct (g acc x); simpl; [done | apply IH].
Qed.

(** What a call of [getCopperPaths] that returns yields, and that later
    calls yield the same as before. *)
Lemma getCopperPaths_returned layer nets st paths st1 :
  getCopperPaths layer nets st = Returned paths st1
  → copperPathsOf st layer nets = inr paths
    ∧ (∀ layer' nets',
         copperPathsOf st1 layer' nets' = copperPathsOf st layer' nets')
    ∧ mBoard st1 = mBoard st
    ∧ mIgnorePlanes st1 = mIgnorePlanes st
    ∧ mSettings st1 = mSettings st
    ∧ mMessages st1 = mMessages st.
Proof.
  unfold getCopperPaths, copperPathsOf, mbind, M_bind, gets.
  destruct (lookupCache (layer, nets) (mCachedPaths st)) as [p |] eqn:Hc;
    simpl.
  - intros [= Hp Hst]. by subst p st1.
  - unfold liftExc.
    destruct (gen_addCopper _ _ _ _ _) as [| p] eqn:Hgen; simpl; [done |].
    intros [= Hp Hst]. subst p st1. simpl. repeat split; try done.
    intros layer' nets'. unfold lookupCache. simpl.
    case_bool_decide as Hk; simpl; [| done].
    injection Hk as <- <-. unfold lookupCache in Hc. by rewrite Hc, Hgen.
Qed.

Lemma gather_copper {B} (f : B → Paths → Exc B) layers acc st a st1 :
  foreachAcc layers acc (λ copperAreas layer,
    paths ← getCopperPaths layer ∅; liftExc (f copperAreas paths)) st
  = Returned a st1
  → foldExc layers acc (λ copperAreas layer,
      paths ← copperPathsOf st layer ∅; f copperAreas paths) = inr a
    ∧ (∀ layer' nets',
         copperPathsOf st1 layer' nets' = copperPathsOf st layer' nets')
    ∧ mBoard st1 = mBoard st
    ∧ mIgnorePlanes st1 = mIgnorePlanes st
    ∧ mSettings st1 = mSettings st
    ∧ mMessages st1 = mMessages st.
Proof.
  revert acc st. induction layers as [| layer layers IH]; intros acc st;
    simpl.
  - unfold mret at 1, M_ret. intros [= Ha Hst]. subst a st1.
    repeat split; reflexivity.
  - assert (Hstep : ∀ body : B → Layer → M B,
              body = (λ copperAreas layer,
                        paths ← getCopperPaths layer ∅;
                        liftExc (f copperAreas paths))
              → (acc' ← body acc layer; foreachAcc layers acc' body) st
                = match getCopperPaths layer ∅ st with
                  | Returned paths st2 =>
                      match f acc paths with
                      | inl e => Thrown e st2
                      | inr acc' => foreachAcc layers acc' body st2
                      end
                  | Thrown e st2 => Thrown e st2
                  end).
    { intros body ->. unfold mbind, M_bind.
      destruct (getCopperPaths layer ∅ st) as [paths st2 |]; [| done].
      unfold liftExc. by destruct (f acc paths). }
    rewrite Hstep by done. clear Hstep.
    destruct (getCopperPaths layer ∅ st) as [paths st2 |] eqn:Hget;
      [| done].
    apply getCopperPaths_returned in Hget
      as (Hp & Hsame & Hb & Hi & HS & Hm).
    destruct (f acc paths) as [| acc'] eqn:Hf; [done |].
    intros Hrest. apply IH in Hrest
      as (Hfold & Hsame' & Hb' & Hi' & HS' & Hm').
    rewrite Hp, Exc_bind_inr, Hf, Exc_bind_inr.
    split.
    { rewrite <- Hfold. apply foldExc_ext. intros acc0 x.
      by rewrite Hsame. }
    split; [intros; by rewrite Hsame', Hsame |].
    by rewrite Hb', Hi', HS', Hm'.
Qed.

(** Property X19. When the copper to hole clearance check is enabled and
    returns, the copper is the union over the copper layers of the cached or
    generated copper paths, and the messages appended are those of the board
    holes and footprint holes whose area, grown by clearance - 5001 nm (so
    shrunk for a clearance below 5001 nm), meets that copper. *)
Theorem checkCopperHoleClearances_reports
    (progressEnd : Z) (st st' : DrcState) :
  let clearance := getMinCopperNpthClearance (mSettings st) in
  isUnsignedLength clearance
  → clearance ≠ 0
  → checkCopperHoleClearances progressEnd st = Returned tt st'
  → ∃ copperAreas,
      anyLayerCopper st = inr copperAreas
      ∧ mMessages st'
        = mMessages st
          ++ copperHoleViolations clearance
               (clearance - maxArcTolerance - 1) copperAreas (mBoard st).
Proof.
  intros clearance Hrange Hnz. unfold checkCopperHoleClearances.
  unfold mbind at 1, M_bind at 1, gets at 1. fold clearance.
  rewrite decide_False by done.
  unfold mbind at 1, M_bind at 1.
  change (emitStatus (tr "Check hole clearances...") st)
    with (Returned tt (withStatus st "Check hole clearances...")).
  cbv iota beta.
  unfold mbind at 1, M_bind at 1, gets at 1. cbv iota beta.
  unfold mbind at 1, M_bind at 1. simpl mBoard.
  destruct (foreachAcc _ _ _ _) as [copperAreas st1 |] eqn:Hgather;
    [| done].
  apply gather_copper in Hgather as (Hfold & _ & Hb & _ & _ & Hm).
  intros Hrun. exists copperAreas. split; [exact Hfold |].
  assert (Hoffset : Length.sub (Length.sub clearance maxArcTolerance) 1
                    = clearance - maxArcTolerance - 1).
  { unfold isUnsignedLength, Length.max_val in Hrange.
    unfold Length.sub, maxArcTolerance.
    rewrite (Length_wrap_inRange (clearance - 5000))
      by (unfold Length.inRange, Length.min_val, Length.max_val; lia).
    apply Length_wrap_inRange.
    unfold Length.inRange, Length.min_val, Length.max_val. lia. }
  rewrite Hoffset in Hrun.
  match type of Hrun with
  | ?m _ = _ =>
      assert (Hloop : onReturn (copperHoleViolations clearance
                                  (clearance - maxArcTolerance - 1)
                                  copperAreas (mBoard st)) m)
  end; [| by rewrite (Hloop _ _ Hrun), Hm].
  unfold copperHoleViolations.
  apply onReturn_bind.
  { apply onReturn_foreach. intros hole. apply reportIfIntersects_onReturn. }
  rewrite <- (app_nil_r (flat_map _ (getDeviceInstances (mBoard st)))).
  apply onReturn_bind;
    [| apply emits_onReturn, emits_emitProgress].
  apply onReturn_foreach. intros device. cbv zeta.
  apply onReturn_foreach. intros hole. apply reportIfIntersects_onReturn.
Qed.


Lemma testAnnularRing_onReturn areas thtCopperAreaPaths msg :
  onReturn (option_list (msg <$> uncovered areas thtCopperAreaPaths))
           (testAnnularRing areas thtCopperAreaPaths msg).
Proof.
  unfold uncovered, testAnnularRing.
  intros st st'. unfold mbind at 1, M_bind at 1, liftExc.
  destruct (a ← areas; remainingLocations a thtCopperAreaPaths)
    as [| [| location locations]]; [done | |]; simpl.
  - intros [= <-]. by rewrite app_nil_r.
  - intros [= <-]. done.
Qed.

(** Property X20. When the annular ring check is enabled and returns, the
    common copper is the intersection over the copper layers of the cached or
    generated copper paths, and the messages appended are those of the vias
    and pads whose drills, with the ring around them, it does not cover. *)
Theorem checkMinimumPthAnnularRing_reports
    (progressEnd : Z) (st st' : DrcState) :
  let annularWidth := getMinPthAnnularRing (mSettings st) in
  annularWidth ≠ 0
  → checkMinimumPthAnnularRing progressEnd st = Returned tt st'
  → ∃ thtCopperAreaPaths,
      allLayerCopper st = inr thtCopperAreaPaths
      ∧ mMessages st'
        = mMessages st
          ++ annularRingViolations annularWidth thtCopperAreaPaths
                                   (mBoard st).
Proof.
  intros annularWidth Hnz. unfold checkMinimumPthAnnularRing.
  unfold mbind at 1, M_bind at 1, gets at 1. fold annularWidth.
  rewrite decide_False by done.
  unfold mbind at 1, M_bind at 1.
  change (emitStatus (tr "Check PTH annular rings...") st)
    with (Returned tt (withStatus st "Check PTH annular rings...")).
  cbv iota beta.
  unfold mbind at 1, M_bind at 1, gets at 1. cbv iota beta.
  unfold mbind at 1, M_bind at 1. simpl mBoard.
  change (foreachAcc (getCopperLayers (mBoard st)) []
            (λ thtCopperAreas layer,
               paths ← getCopperPaths layer ∅;
               mret (thtCopperAreas ++ [paths])))
    with (foreachAcc (getCopperLayers (mBoard st)) []
            (λ thtCopperAreas layer,
               paths ← getCopperPaths layer ∅;
               liftExc ((λ areas paths, inr (areas ++ [paths]))
                          thtCopperAreas paths))).
  destruct (foreachAcc _ _ _ _) as [thtCopperAreas st1 |] eqn:Hgather;
    [| done].
  apply (gather_copper (λ areas paths, inr (areas ++ [paths])))
    in Hgather as (Hfold & _ & Hb & _ & _ & Hm).
  unfold mbind at 1, M_bind at 1, liftExc at 1.
  destruct (thtCopperAreaIntersections
              ← ClipperHelpers_intersectAll thtCopperAreas;
            ClipperHelpers_treeToPaths thtCopperAreaIntersections)
    as [| thtCopperAreaPaths] eqn:Htht; [done |].
  intros Hrun. exists thtCopperAreaPaths. split.
  { unfold allLayerCopper. simpl in Hfold.
    change (λ (thtCopperAreas0 : list Paths) (layer : Layer),
              paths ← copperPathsOf
                        (withStatus st "Check PTH annular rings...")
                        layer ∅;
              inr (thtCopperAreas0 ++ [paths]))
      with (λ (thtCopperAreas0 : list Paths) (layer : Layer),
              paths ← copperPathsOf st layer ∅;
              mret (thtCopperAreas0 ++ [paths])) in Hfold.
    by rewrite Hfold, Exc_bind_inr. }
  match type of Hrun with
  | ?m _ = _ =>
      assert (Hloop : onReturn (annularRingViolations annularWidth
                                  thtCopperAreaPaths (mBoard st)) m)
  end; [| by rewrite (Hloop _ _ Hrun), Hm].
  unfold annularRingViolations.
  apply onReturn_bind.
  { apply onReturn_foreach. intros netsegment.
    apply onReturn_foreach. intros via. unfold checkViaAnnularRing.
    cbv zeta. destruct (decide _); [apply onReturn_ret |].
    apply testAnnularRing_onReturn. }
  rewrite <- (app_nil_r (flat_map _ (getDeviceInstances (mBoard st)))).
  apply onReturn_bind;
    [| apply emits_onReturn, emits_emitProgress].
  apply onReturn_foreach. intros device.
  apply onReturn_foreach. intros pad. apply testAnnularRing_onReturn.
Qed.

End Hole.

(** ** Courtyards *)

Section Courtyard.
Context `{Geometry} {SExpression : Type}
        `{!RuleCheckMessage SExpression DrcMsg}.

Lemma foldExc_map {A A' B} (g : A → A') (l : list A) (acc : B)
    (body : B → A' → Exc B) :
  foldExc (map g l) acc body = foldExc l acc (λ acc x, body acc (g x)).
Proof.
  revert acc. induction l as [| x l IH]; intros acc; simpl; [done |].
  destruct (body acc (g x)); simpl; [done | apply IH].
Qed.

(** Property X21. The courtyard of a circle is drawn around the origin: the
    centre of the circle does not enter the courtyard area of the device. *)
Theorem courtyard_circle_ignores_its_center
    (center : Circle → Point) (device : Device) (layer : Layer) :
  getDeviceCourtyardPaths (withCircleCenters center device) layer
  = getDeviceCourtyardPaths device layer.
Proof.
  unfold getDeviceCourtyardPaths. cbv zeta.
  change (Transform_ofDevice (withCircleCenters center device))
    with (Transform_ofDevice device).
  cbn [withCircleCenters dev_libFootprint fpt_polygons fpt_circles].
  destruct (foldExc (fpt_polygons _) _ _) as [| paths]; [done |].
  rewrite !Exc_bind_inr. by rewrite foldExc_map.
Qed.

(** Property X22. When the courtyard check returns, the messages appended are,
    for the top courtyard layer and then for the bottom one, those of the
    pairs of devices whose courtyard areas on that layer intersect. *)
Theorem checkCourtyardClearances_reports
    (progressEnd : Z) (st st' : DrcState) :
  checkCourtyardClearances progressEnd st = Returned tt st'
  → ∃ top bottom,
      deviceCourtyards (mBoard st) topCourtyard = inr top
      ∧ deviceCourtyards (mBoard st) botCourtyard = inr bottom
      ∧ mMessages st'
        = mMessages st ++ courtyardOverlaps top ++ courtyardOverlaps bottom.
Proof.
  unfold checkCourtyardClearances.
  unfold mbind at 1, M_bind at 1.
  change (emitStatus (tr "Check courtyard clearances...") st)
    with (Returned tt (withStatus st "Check courtyard clearances...")).
  cbv iota beta.
  unfold mbind at 1, M_bind at 1, gets at 1. cbv iota beta. simpl mBoard.
  set (board := mBoard st).
  assert (Hlayer : ∀ layer s s',
            (deviceCourtyards ← liftExc (
               collect (getDeviceInstances board) (λ device,
                 paths ← getDeviceCourtyardPaths device layer;
                 mret [(device, paths)]));
             forPairs deviceCourtyards (λ c1 c2,
               locations ← liftExc (intersectLocations (snd c1) (snd c2));
               if negb (isEmpty locations) then
                 emitMessage (DrcMsgCourtyardOverlap
                                (dev_uuid (fst c1)) (dev_uuid (fst c2))
                                locations)
               else mret tt)) s = Returned tt s'
            → ∃ courtyards,
                deviceCourtyards board layer = inr courtyards
                ∧ mMessages s' = mMessages s ++ courtyardOverlaps courtyards).
  { intros layer s s'. unfold mbind at 1, M_bind at 1, liftExc at 1.
    fold (deviceCourtyards board layer).
    destruct (deviceCourtyards board layer) as [| courtyards]; [done |].
    intros Hrun. exists courtyards. split; [done |].
    refine (onReturn_forPairs courtyards _
              (λ c1 c2, reported (snd c1) (inr (snd c2))
                          (DrcMsgCourtyardOverlap (dev_uuid (fst c1))
                                                  (dev_uuid (fst c2))))
              _ _ _ Hrun).
    intros c1 c2.
    apply (reportIfIntersects_onReturn (snd c1) (inr (snd c2))). }
  simpl foreach.
  unfold mbind at 1, M_bind at 1.
  unfold mbind at 1, M_bind at 1.
  match goal with
  | |- match match ?m ?s with _ => _ end with _ => _ end = _ → _ =>
      destruct (m s) as [[] s1 |] eqn:Htop; [| done]
  end.
  apply Hlayer in Htop as (top & Htop & Hm1).
  unfold mbind at 1, M_bind at 1.
  match goal with
  | |- match match ?m ?s with _ => _ end with _ => _ end = _ → _ =>
      destruct (m s) as [[] s2 |] eqn:Hbot; [| done]
  end.
  apply Hlayer in Hbot as (bottom & Hbot & Hm2).
  unfold mret at 1, M_ret at 1. intros [= <-].
  exists top, bottom. split; [done |]. split; [done |].
  simpl. by rewrite Hm2, Hm1, <- app_assoc.
Qed.

End Courtyard.

(** ** Board outline *)

Section Outline.
Context `{Geometry} {SExpression : Type}
        `{!RuleCheckMessage SExpression DrcMsg}.

Lemma yields_ret {A} (a : A) : yields a [] (mret a).
Proof. intros st. exists st. by rewrite app_nil_r. Qed.

Lemma yields_bind {A B} (a : A) (b : B) ms1 ms2 (m : M A) (k : A → M B) :
  yields a ms1 m → yields b ms2 (k a) → yields b (ms1 ++ ms2) (m ≫= k).
Proof.
  intros Hm Hk st. destruct (Hm st) as (st1 & Hr1 & Hm1).
  destruct (Hk st1) as (st2 & Hr2 & Hm2). exists st2.
  unfold mbind, M_bind. rewrite Hr1, Hr2, Hm2, Hm1, app_assoc. done.
Qed.

Lemma yields_emits ms (m : M unit) : emits ms m → yields tt ms m.
Proof. done. Qed.

Lemma yields_foreachAcc {A B} (l : list A) (acc : list B)
    (body : list B → A → M (list B))
    (f : A → list B) (g : A → list DrcMsg) :
  (∀ acc x, yields (acc ++ f x) (g x) (body acc x))
  → yields (acc ++ flat_map f l) (flat_map g l) (foreachAcc l acc body).
Proof.
  intros Hbody. revert acc. induction l as [| x l IH]; intros acc; simpl.
  - rewrite app_nil_r. apply yields_ret.
  - rewrite app_assoc. eapply yields_bind; [apply Hbody | apply IH].
Qed.

(** The loop over the polygons of the footprint of a device. *)
Lemma outline_polygons_yield device (polygons : list Polygon)
    (outlines : list Path) :
  yields
    (outlines
     ++ map (λ polygon,
               Transform_mapPath (Transform_ofDevice device)
                                 (polygon_path polygon))
            (filter (λ polygon, polygon_layer polygon = boardOutlines)
                    polygons))
    (map (λ polygon,
            DrcMsgOpenBoardOutlinePolygon
              (Some (dev_uuid device)) (polygon_uuid polygon)
              (Path_toOutlineStrokes
                 (Transform_mapPath (Transform_ofDevice device)
                                    (polygon_path polygon))
                 (Z.max (polygon_lineWidth polygon) 100000)))
         (filter (λ polygon, isOpenOutline device polygon = true) polygons))
    (foreachAcc polygons outlines (λ outlines polygon,
       if decide (polygon_layer polygon = boardOutlines) then
         let path := Transform_mapPath (Transform_ofDevice device)
                                       (polygon_path polygon) in
         (if negb (Path_isClosed path) then
            width ← liftExc (mkPositiveLength
                               (Z.max (polygon_lineWidth polygon) 100000));
            emitMessage (DrcMsgOpenBoardOutlinePolygon
                           (Some (dev_uuid device)) (polygon_uuid polygon)
                           (Path_toOutlineStrokes path width))
          else mret tt);;
         mret (outlines ++ [path])
       else mret outlines)).
Proof.
  rewrite <- flat_map_if_filter.
  assert (Hpaths : ∀ l : list Polygon,
            map (λ polygon,
                   Transform_mapPath (Transform_ofDevice device)
                                     (polygon_path polygon))
                (filter (λ polygon, polygon_layer polygon = boardOutlines) l)
            = flat_map (λ polygon,
                if decide (polygon_layer polygon = boardOutlines)
                then [Transform_mapPath (Transform_ofDevice device)
                                        (polygon_path polygon)]
                else []) l).
  { intros l. induction l as [| p l IH]; simpl; [done |].
    rewrite filter_cons, <- IH. by destruct (decide _). }
  rewrite Hpaths. apply yields_foreachAcc. intros acc polygon.
  unfold isOpenOutline.
  destruct (decide (polygon_layer polygon = boardOutlines)) as [Ho | Ho].
  - rewrite bool_decide_eq_true_2 by done. cbv zeta. simpl andb.
    rewrite <- (app_nil_r (if negb _ then _ else _)).
    eapply yields_bind; [| apply yields_ret].
    apply yields_emits, emits_guard.
    apply emits_positive; [lia |]. apply emits_emitMessage.
  - rewrite bool_decide_eq_false_2 by done. simpl. rewrite app_nil_r.
    apply yields_ret.
Qed.

(** "Collect all board outline objects and report open polygons" *)
Lemma collect_outlines_yield (board : Board) :
  yields (boardOutlinePaths board) (openOutlinePolygons board)
    (foreachAcc (getDeviceInstances board)
       (map polygon_path
            (filter (λ polygon, polygon_layer polygon = boardOutlines)
                    (getPolygons board)))
       (λ outlines device,
          let transform := Transform_ofDevice device in
          outlines ← foreachAcc (fpt_polygons (dev_libFootprint device))
            outlines (λ outlines polygon,
              if decide (polygon_layer polygon = boardOutlines) then
                let path :=
                  Transform_mapPath transform (polygon_path polygon) in
                (if negb (Path_isClosed path) then
                   width ← liftExc (mkPositiveLength
                                      (Z.max (polygon_lineWidth polygon)
                                             100000));
                   emitMessage (DrcMsgOpenBoardOutlinePolygon
                                  (Some (dev_uuid device))
                                  (polygon_uuid polygon)
                                  (Path_toOutlineStrokes path width))
                 else mret tt);;
                mret (outlines ++ [path])
              else mret outlines);
          mret (outlines ++
                map (λ circle,
                       Path_translated
                         (Path_circle (circle_diameter circle))
                         (Transform_mapPoint transform
                                             (circle_center circle)))
                    (filter (λ circle, circle_layer circle = boardOutlines)
                            (fpt_circles (dev_libFootprint device)))))).
Proof.
  unfold boardOutlinePaths, openOutlinePolygons.
  apply (yields_foreachAcc _ _ _ deviceOutlines). intros acc device.
  cbv zeta. unfold deviceOutlines. rewrite app_assoc.
  rewrite <- (app_nil_r (map _ (filter (λ polygon, isOpenOutline _ _ = _)
                                       _))).
  eapply yields_bind; [apply outline_polygons_yield | apply yields_ret].
Qed.

(** The check after the outline objects are collected. *)
Lemma outline_area_onReturn outlines progressEnd (s s' : DrcState) :
  ((if isEmpty outlines then emitMessage DrcMsgMissingBoardOutline
    else mret tt);;
   let drawnBoardArea := ClipperHelpers_convert outlines maxArcTolerance in
   drawnBoardAreaTree ←
     liftExc (ClipperHelpers_uniteToTree drawnBoardArea pftEvenOdd);
   flattenedBoardArea ←
     liftExc (ClipperHelpers_flattenTree drawnBoardAreaTree);
   (if decide (1 < length flattenedBoardArea)%nat then
      emitMessage (DrcMsgMultipleBoardOutlines
                     (ClipperHelpers_convertBack flattenedBoardArea))
    else mret tt);;
   toolDiameter ← gets (λ st, getMinOutlineToolDiameter (mSettings st));
   minEdgeRadius ← liftExc (mkUnsignedLength (Length.div toolDiameter 2));
   (if decide (0 < minEdgeRadius) then
      let offset1 := Z.max (Length.sub minEdgeRadius 10000) 0 in
      let offset2 := Length.neg minEdgeRadius in
      nonManufacturableAreas ← liftExc (
        drawnBoardArea ← ClipperHelpers_treeToPaths drawnBoardAreaTree;
        areas ← ClipperHelpers_offset drawnBoardArea offset1
                                      maxArcTolerance;
        areas ← ClipperHelpers_offset areas offset2 maxArcTolerance;
        difference ← ClipperHelpers_subtractToTree areas drawnBoardArea;
        ClipperHelpers_flattenTree difference);
      if negb (isEmpty nonManufacturableAreas) then
        emitMessage (DrcMsgMinimumBoardOutlineInnerRadiusViolation
                       minEdgeRadius
                       (ClipperHelpers_convertBack nonManufacturableAreas))
      else mret tt
    else mret tt);;
   emitProgress progressEnd) s = Returned tt s'
  → ∃ area,
      boardAreaMessages (getMinOutlineToolDiameter (mSettings s)) outlines
      = inr area
      ∧ mMessages s'
        = mMessages s
          ++ (if isEmpty outlines then [DrcMsgMissingBoardOutline] else [])
          ++ area.
Proof.
  unfold boardAreaMessages, nonManufacturableAreas. cbv zeta.
  unfold mbind, M_bind, liftExc, gets, emitMessage, emitProgress, emit,
    modify, Exc_bind, mret, M_ret, Exc_ret.
  destruct (isEmpty outlines); simpl;
    (destruct (ClipperHelpers_uniteToTree _ _) as [| tree];
       [done |]);
    (destruct (ClipperHelpers_flattenTree tree) as [| flat]; [done |]);
    destruct (decide (1 < length flat)%nat); simpl;
    (destruct (mkUnsignedLength _) as [| radius]; [done |]);
    destruct (decide (0 < radius)); simpl;
    try (destruct (ClipperHelpers_treeToPaths tree) as [| a1];
           [done |]; simpl;
         destruct (ClipperHelpers_offset a1 _ _) as [| a2]; [done |];
           simpl;
         destruct (ClipperHelpers_offset a2 _ _) as [| a3]; [done |];
           simpl;
         destruct (ClipperHelpers_subtractToTree a3 a1) as [| diff];
           [done |]; simpl;
         destruct (ClipperHelpers_flattenTree diff) as [| [| x xs]];
           [done | |]; simpl);
    intros [= <-]; simpl; eexists; (split; [reflexivity |]);
    by rewrite ?app_nil_r, <- ?app_assoc.
Qed.

(** Property X23. When the board outline check returns, it has appended: one
    message for each open outline polygon of a device (an open outline polygon
    of the board itself is not reported); the missing outline message exactly
    when neither the board nor a device has a polygon or circle on the outline
    layer; then the messages about the drawn area. *)
Theorem checkBoardOutline_reports (progressEnd : Z) (st st' : DrcState) :
  checkBoardOutline progressEnd st = Returned tt st'
  → ∃ area,
      boardAreaMessages (getMinOutlineToolDiameter (mSettings st))
                        (boardOutlinePaths (mBoard st)) = inr area
      ∧ mMessages st'
        = mMessages st
          ++ openOutlinePolygons (mBoard st)
          ++ (if isEmpty (boardOutlinePaths (mBoard st))
              then [DrcMsgMissingBoardOutline] else [])
          ++ area.
Proof.
  unfold checkBoardOutline.
  unfold mbind at 1, M_bind at 1.
  change (emitStatus (tr "Check board outline...") st)
    with (Returned tt (withStatus st "Check board outline...")).
  cbv iota beta.
  unfold mbind at 1, M_bind at 1, gets at 1. cbv iota beta.
  simpl mBoard. set (board := mBoard st).
  unfold mbind at 1, M_bind at 1.
  destruct (collect_outlines_yield board
              (withStatus st "Check board outline..."))
    as (st1 & Hr1 & Hm1).
  assert (HS1 : mSettings st1 = mSettings st).
  { match type of Hr1 with
    | ?m _ = _ =>
        assert (Hsat : sat m (BodyP [OpenBoardOutlinePolygon]))
          by sat_body
    end.
    destruct (Hsat (withStatus st "Check board outline..."))
      as (e & (_ & _ & _ & HS & _) & _).
    by rewrite Hr1 in HS. }
  match goal with
  | |- match ?x with _ => _ end = _ → _ =>
      assert (Hx : x = Returned (boardOutlinePaths board) st1)
        by exact Hr1;
      rewrite Hx
  end.
  intros Hrun. apply outline_area_onReturn in Hrun as (area & Harea & Hm).
  exists area. rewrite <- HS1. split; [exact Harea |].
  rewrite Hm, Hm1. simpl. by rewrite <- !app_assoc.
Qed.

End Outline.

(** ** Slots and signals *)

Section Misc.
Context `{Geometry} {SExpression : Type}
        `{!RuleCheckMessage SExpression DrcMsg}.

(** Property X24. A hole that needs no warning under an allowance needs none
    under a wider one: widening the allowed slots never adds a warning. *)
Theorem requiresHoleSlotWarning_antitone `{THole H0} (hole : H0)
    (narrow wide : AllowedSlots.t) :
  AllowedSlots.toInt narrow ≤ AllowedSlots.toInt wide
  → requiresHoleSlotWarning hole wide = true
  → requiresHoleSlotWarning hole narrow = true.
Proof.
  unfold requiresHoleSlotWarning, AllowedSlots.ltb.
  destruct (isCurvedSlot hole), (isMultiSegmentSlot hole), (isSlot hole),
    narrow, wide; simpl; intros Hle; try done; lia.
Qed.

(** Property X25. The signals of one call of [execute]: [started] comes first
    and only there; [finished] comes last and only there, and only when the
    call returns. *)
Theorem execute_brackets_its_signals (quick : bool) (st : DrcState) :
  let o := execute quick st in
  ∃ between,
    emittedSince st (final o)
    = started :: between ++ (if isReturned o then [finished] else [])
    ∧ Forall inner between.
Proof.
  intros o.
  destruct (execute_final quick st) as (e & HP & _ & _ & He & _).
  fold o in HP, He.
  destruct (RunP_signals _ _ _ _ HP) as (_ & _ & Hinner).
  destruct (isReturned o).
  - exists (progressPercent 2 :: e_signals e
            ++ [progressStatus (finishedStatus (length (e_messages e)));
                progressPercent 100]).
    split.
    + rewrite He. simpl. by rewrite <- app_assoc.
    + constructor; [done |]. apply Forall_app. split; [done |].
      by repeat constructor.
  - exists (progressPercent 2 :: e_signals e). split.
    + rewrite He. simpl. by rewrite !app_nil_r.
    + by constructor.
Qed.

End Misc.

(** * The claims on concrete boards *)

Section Instances.
Import BoxGeometry Scenarios.

(** Claim C1 on the two parallel traces, with a clearance of 200 µm. *)
Lemma C1_witness :
  let st := initialState parallelTraces (copperClearance 200000) in
  let st' := final (checkCopperCopperClearances 24 st) in
  let offset := Z.max ((200000 - maxArcTolerance) `quot` 2 - 1) 0 in
  isUnsignedLength 200000
  ∧ 200000 ≠ 0
  ∧ checkCopperCopperClearances 24 st = Returned tt st'
  ∧ ∃ items,
      copperItems parallelTraces false offset = inr items
      ∧ Forall2 (inflatedItem parallelTraces offset)
                (boardCopper parallelTraces false) items
      ∧ mMessages st' = [] ++ copperViolations 200000 items.
Proof.
  assert (H1 : isUnsignedLength 200000)
    by (unfold isUnsignedLength, Length.max_val; lia).
  assert (H2 : 200000 ≠ 0) by lia.
  intros st st' offset.
  assert (H3 : checkCopperCopperClearances 24 st = Returned tt st')
    by (apply returned_final; vm_compute; reflexivity).
  split; [exact H1 |]. split; [exact H2 |]. split; [exact H3 |].
  exact (C1_copper_clearance_violations_of_the_pairs 24 st st' H1 H2 H3).
Defined.

(** Claim C1 as stated fails: with a clearance of 1 nm the engine
    inflates by 0, not by ((1 - 5000) / 2) - 1 = -2500, and reports the
    two traces whose copper overlaps by 1 µm; with the areas inflated by
    -2500 the two traces would not intersect and nothing would be
    reported. *)
Lemma C1_counterexample :
  let st := initialState overlappingTraces (copperClearance 1) in
  copperClearanceOffset 1 = 0
  ∧ (1 - maxArcTolerance) `quot` 2 - 1 = -2500
  ∧ (∃ st' msg, checkCopperCopperClearances 24 st = Returned tt st'
                ∧ mMessages st' = [msg]
                ∧ kindOf msg = CopperCopperClearanceViolation)
  ∧ ∃ items,
      copperItems overlappingTraces false
        ((1 - maxArcTolerance) `quot` 2 - 1) = inr items
      ∧ copperViolations 1 items = [].
Proof.
  intros st. split; [reflexivity |]. split; [reflexivity |]. split.
  - assert (Hr : isReturned (checkCopperCopperClearances 24 st) = true)
      by (vm_compute; reflexivity).
    assert (Hm : option_map kindOf
                   (head (mMessages
                            (final (checkCopperCopperClearances 24 st))))
                 = Some CopperCopperClearanceViolation
                 ∧ length (mMessages
                             (final (checkCopperCopperClearances 24 st)))
                   = 1%nat)
      by (split; vm_compute; reflexivity).
    exists (final (checkCopperCopperClearances 24 st)).
    destruct (mMessages (final (checkCopperCopperClearances 24 st)))
      as [| msg [| ? ?]] eqn:Hmsgs; destruct Hm as [Hk Hl]; try done.
    exists msg. split; [by apply returned_final |].
    split; [reflexivity | by injection Hk].
  - assert (Hc : match copperItems overlappingTraces false
                         ((1 - maxArcTolerance) `quot` 2 - 1) with
                 | inr items => Some (copperViolations 1 items)
                 | inl _ => None
                 end = Some []) by (vm_compute; reflexivity).
    destruct (copperItems overlappingTraces false _) as [| items];
      [done |].
    exists items. split; [done | by injection Hc].
Qed.

(** Claim C3 on two boards: the two vias with only the drill-drill
    clearance enabled, where the copper-copper clearance check is the one
    disabled, and the two parallel traces with every check disabled. *)
Lemma C3_witness :
  let st := initialState twoVias (drillClearance 200000) in
  let st0 := initialState parallelTraces noChecks in
  getMinCopperCopperClearance (mSettings st) = 0
  ∧ getMinDrillDrillClearance (mSettings st) ≠ 0
  ∧ checkCopperCopperClearances 24 st = Returned tt st
  ∧ Forall (λ m, kindOf m ≠ CopperCopperClearanceViolation)
           (mMessages (final (execute false st)))
  ∧ getMinDrillDrillClearance (mSettings st0) = 0
  ∧ checkDrillDrillClearances 49 st0 = Returned tt st0
  ∧ Forall (λ m, kindOf m ∉ clearanceKinds)
           (mMessages (final (execute false st0))).
Proof.
  intros st st0.
  pose proof (C3_zero_clearance_disables_the_clearance_checks st false 24)
    as (Hcc & _).
  pose proof (C3_zero_clearance_disables_the_clearance_checks st0 false 49)
    as (_ & _ & _ & Hdd & _ & Hall).
  destruct (Hcc eq_refl) as [Hreturns Hnone].
  destruct (Hdd eq_refl) as [Hreturns0 _].
  split; [reflexivity |]. split; [done |]. split; [exact Hreturns |].
  split; [exact Hnone |]. split; [reflexivity |].
  split; [exact Hreturns0 |].
  exact (Hall eq_refl eq_refl eq_refl eq_refl eq_refl).
Defined.

(** Claim C4 on two vias 400 µm apart, with a clearance of 200 µm. *)
Lemma C4_witness :
  let st := initialState twoVias (drillClearance 200000) in
  let st' := final (checkDrillDrillClearances 49 st) in
  isUnsignedLength 200000
  ∧ 200000 ≠ 0
  ∧ Forall validDrill (boardDrills twoVias)
  ∧ checkDrillDrillClearances 49 st = Returned tt st'
  ∧ drillItems twoVias (Z.max (200000 - maxArcTolerance - 1) 0)
    = inr (map (drillItemOf (Z.max (200000 - maxArcTolerance - 1) 0))
               (boardDrills twoVias))
  ∧ mMessages st' = [] ++ drillViolations 200000 twoVias.
Proof.
  assert (H1 : isUnsignedLength 200000)
    by (unfold isUnsignedLength, Length.max_val; lia).
  assert (H2 : 200000 ≠ 0) by lia.
  assert (H3 : Forall validDrill (boardDrills twoVias)).
  { repeat constructor;
      unfold validDrill, isPositiveLength, Length.max_val; simpl; lia. }
  intros st st'.
  assert (H4 : checkDrillDrillClearances 49 st = Returned tt st')
    by (apply returned_final; vm_compute; reflexivity).
  split; [exact H1 |]. split; [exact H2 |]. split; [exact H3 |].
  split; [exact H4 |].
  exact (C4_drill_clearance_violations_of_the_pairs 49 st st' H1 H2 H3 H4).
Defined.

(** Claim C5 on a board hole whose 1-vertex path carries an angle and on
    a straight 2-vertex slot, with no slot allowed: the round drill is
    not flagged, the slot is. *)
Lemma C5_witness :
  let st := initialState slottedBoard noSlots in
  let drill := mkHole 7 800000 [mkVertex (0, 0) 90000] in
  let slot := mkHole 8 800000 [mkVertex (0, 0) 0; mkVertex (2000000, 0) 0] in
  length (hole_path drill) = 1%nat
  ∧ requiresHoleSlotWarning drill AllowedSlots.None = false
  ∧ requiresHoleSlotWarning slot AllowedSlots.None = true
  ∧ map kindOf (forbiddenNpthSlots AllowedSlots.None slottedBoard)
    = [ForbiddenSlot]
  ∧ ∃ st', checkAllowedNpthSlots 74 st = Returned tt st'
           ∧ mMessages st'
             = [] ++ forbiddenNpthSlots AllowedSlots.None slottedBoard.
Proof.
  intros st drill slot.
  pose proof (C5_forbidden_slot_iff_class_exceeds_allowance 74 st)
    as (Hclass & _ & _ & Hround & _ & Hnpth & _).
  split; [reflexivity |].
  split; [exact (Hround drill AllowedSlots.None eq_refl) |].
  split; [rewrite (Hclass slot AllowedSlots.None); reflexivity |].
  split; [vm_compute; reflexivity |].
  exact Hnpth.
Defined.

(** Claim C6 on two vias beyond the range of the polygon clipper: the
    copper-copper clearance check throws and [execute] throws with it. *)
Lemma C6_witness :
  let st := initialState farVias (copperClearance 200000) in
  let pre := take 2 (steps false) in
  let s := mkStep (checkCopperCopperClearances 24)
                  (λ S, nonZero (getMinCopperCopperClearance S))
                  "Check copper clearances..." 24
                  [CopperCopperClearanceViolation] in
  let post := drop 3 (steps false) in
  let st1 := final (foreach pre step_run (resetState false st)) in
  let st2 := final (step_run s st1) in
  let ex := RuntimeError "Coordinate outside allowed range" in
  steps false = pre ++ s :: post
  ∧ foreach pre step_run (resetState false st) = Returned tt st1
  ∧ step_run s st1 = Thrown ex st2
  ∧ execute false st = Thrown ex st2
  ∧ (mMessages st1 `prefix_of` mMessages st2)
  ∧ (finished ∉ emittedSince st st2)
  ∧ (progressPercent 100 ∉ emittedSince st st2).
Proof.
  intros st pre s post st1 st2 ex.
  assert (H1 : steps false = pre ++ s :: post) by reflexivity.
  assert (H2 : foreach pre step_run (resetState false st)
               = Returned tt st1)
    by (apply returned_final; vm_compute; reflexivity).
  assert (H3 : step_run s st1 = Thrown ex st2)
    by (apply thrown_final; vm_compute; reflexivity).
  split; [exact H1 |]. split; [exact H2 |]. split; [exact H3 |].
  exact (C6_exception_leaves_execute false st pre post s st1 st2 ex
           H1 H2 H3).
Defined.

(** Claim C6 as stated fails: on this board [execute] does not return, it
    throws the exception of the polygon clipper to its caller. *)
Lemma C6_counterexample :
  let st := initialState farVias (copperClearance 200000) in
  isReturned (execute false st) = false
  ∧ ∃ st', execute false st
           = Thrown (RuntimeError "Coordinate outside allowed range") st'.
Proof.
  intros st. split; [vm_compute; reflexivity |].
  exists (final (execute false st)).
  apply thrown_final. vm_compute. reflexivity.
Qed.

(** Claim C7 as stated fails: a quick run with every check disabled
    leaves a status log of one entry, the final status, although no
    check ran; this entry is the status of none of the checks. *)
Lemma C7_counterexample :
  let st := initialState emptyBoard noChecks in
  let log := mProgressStatus (final (execute true st)) in
  log = ["Finished with 0 message(s)!"]
  ∧ enabledSteps noChecks (steps true) = []
  ∧ ¬ ∃ ran : list Step,
        Forall (λ s, s ∈ quickSteps ++ slowSteps) ran
        ∧ log = map step_status ran.
Proof.
  intros st log.
  assert (Hlog : log = ["Finished with 0 message(s)!"])
    by (vm_compute; reflexivity).
  split; [exact Hlog |].
  split; [apply length_zero_iff_nil; vm_compute; reflexivity |].
  intros (ran & Hran & Heq). rewrite Hlog in Heq.
  destruct ran as [| s ran]; [done |].
  apply Forall_cons in Hran as [Hs _]. injection Heq as Hstatus _.
  destruct (finishedStatus_not_check (H := geometry) 0) as [_ Hnot].
  apply Hnot. change (finishedStatus 0) with "Finished with 0 message(s)!".
  rewrite Hstatus. by apply list_elem_of_fmap_2.
Qed.

(** Claim C10 on a drill of 300 µm and a ring of 150 µm. *)
Lemma C10_witness :
  isPositiveLength 300000
  ∧ isUnsignedLength 150000
  ∧ 150000 ≠ 0
  ∧ 300000 + 2 * 150000 - 1 ≤ Length.max_val
  ∧ annularRingDiameter 300000 150000 = 599999
  ∧ 0 < annularRingDiameter 300000 150000.
Proof.
  assert (H1 : isPositiveLength 300000)
    by (unfold isPositiveLength, Length.max_val; lia).
  assert (H2 : isUnsignedLength 150000)
    by (unfold isUnsignedLength, Length.max_val; lia).
  assert (H3 : 150000 ≠ 0) by lia.
  assert (H4 : 300000 + 2 * 150000 - 1 ≤ Length.max_val)
    by (unfold Length.max_val; lia).
  destruct (C10_annular_ring_diameter_positive_without_overflow
              (H := geometry) 300000 150000 H1 H2 H3 H4)
    as (Heq & Hpos & _).
  repeat split; done.
Defined.

(** Claim C10 as stated fails: with an annular width of 2^62 nm the 64 bit
    computation wraps around to a negative diameter, the skip branch is
    taken and a via of 1 nm drill and 2 nm outer size is not tested and
    not reported, although it is reported for a ring of 10 nm. *)
Lemma C10_counterexample :
  isPositiveLength 1
  ∧ isUnsignedLength (2 ^ 62)
  ∧ 2 ^ 62 ≠ 0
  ∧ annularRingDiameter 1 (2 ^ 62) = - 2 ^ 63
  ∧ (∀ st, checkViaAnnularRing [] (2 ^ 62) (mkVia 2 (0, 0) 1 2) st
           = Returned tt st)
  ∧ mMessages (final (checkMinimumPthAnnularRing 64
                        (initialState tinyVia (annularRing (2 ^ 62)))))
    = []
  ∧ length (mMessages (final (checkMinimumPthAnnularRing 64
                                (initialState tinyVia (annularRing 10)))))
    = 1%nat.
Proof.
  split; [unfold isPositiveLength, Length.max_val; lia |].
  split; [unfold isUnsignedLength, Length.max_val; lia |].
  split; [lia |]. split; [reflexivity |]. split; [done |].
  split; vm_compute; reflexivity.
Qed.

Lemma lengthCollator_asym a b :
  lengthCollator a b = true → lengthCollator b a = false.
Proof.
  unfold lengthCollator. rewrite Nat.ltb_lt, Nat.ltb_ge. lia.
Qed.

Lemma lengthCollator_negtrans a b c :
  lengthCollator a b = false → lengthCollator b c = false
  → lengthCollator a c = false.
Proof.
  unfold lengthCollator. rewrite !Nat.ltb_ge. lia.
Qed.

(** Claim C8 on four messages, one of which is approved. *)
Lemma C8_witness :
  (∀ a b, lengthCollator a b = true → lengthCollator b a = false)
  ∧ (∀ a b c, lengthCollator a b = false → lengthCollator b c = false
              → lengthCollator a c = false)
  ∧ ∃ sorted,
      sorted ≡ₚ someMessages
      ∧ StronglySorted (presentedBefore lengthCollator) sorted
      ∧ fst (prepareRuleCheckMessages lengthCollator someMessages
                                      someApprovals)
        = map printedMessage
              (filter (λ m, getApproval m ∉ someApprovals) sorted)
      ∧ snd (prepareRuleCheckMessages lengthCollator someMessages
                                      someApprovals)
        = Z.of_nat (length (filter (λ m, getApproval m ∈ someApprovals)
                                   someMessages)).
Proof.
  split; [exact lengthCollator_asym |].
  split; [exact lengthCollator_negtrans |].
  exact (C8_approved_count_and_sorted_remaining lengthCollator
           lengthCollator_asym lengthCollator_negtrans
           someMessages someApprovals).
Defined.

(** Property X2: a full run on the framed board rebuilds its planes and air
    wires. *)
Lemma X2_witness :
  let st := initialState framedBoard (copperBoardClearance 200000) in
  let st' := final (execute false st) in
  execute false st = Returned tt st'
  ∧ mBoard st'
    = Board_forceAirWiresRebuild (Board_rebuildAllPlanes (mBoard st)).
Proof.
  intros st st'.
  assert (Hr : isReturned (execute false st) = true)
    by (vm_compute; reflexivity).
  apply returned_final in Hr.
  split; [exact Hr |].
  exact (full_run_rebuilds_planes_and_air_wires st st' Hr).
Defined.

(** Property X4: a quick run on an engine with copper paths in its cache. *)
Lemma X4_witness :
  let st := cachedState in
  let st' := final (execute true st) in
  lookupCache (topCopper, ∅) (mCachedPaths st) = Some [mkBox 0 0 1000 1000]
  ∧ lookupCache (topCopper, ∅) (mCachedPaths st')
    = Some [mkBox 0 0 1000 1000]
  ∧ getCopperPaths topCopper ∅ st' = Returned [mkBox 0 0 1000 1000] st'.
Proof.
  intros st st'.
  assert (Hc : lookupCache (topCopper, ∅) (mCachedPaths st)
               = Some [mkBox 0 0 1000 1000]) by reflexivity.
  split; [exact Hc |].
  exact (execute_keeps_cached_copper_paths true st topCopper ∅
           [mkBox 0 0 1000 1000] Hc).
Defined.

(** Property X16: the restricted area of the framed board for a clearance of
    200 µm. *)
Lemma X16_witness :
  0 ≤ 200000 ≤ 2 ^ 62 - 1
  ∧ getBoardClearanceArea framedBoard 200000
    = ClipperHelpers_uniteFill
        (outlineStrips framedBoard (Z.max (2 * 200000 - 5000 - 1) 1))
        pftNonZero.
Proof.
  assert (Hc : 0 ≤ 200000 ≤ 2 ^ 62 - 1) by lia.
  split; [exact Hc |].
  exact (getBoardClearanceArea_strip framedBoard 200000 Hc).
Defined.

(** Property X18: the copper of the framed board against its edge, 200 µm. *)
Lemma X18_witness :
  let st := initialState framedBoard (copperBoardClearance 200000) in
  let st' := final (checkCopperBoardClearances 34 st) in
  let clearance := getMinCopperBoardClearance (mSettings st) in
  clearance ≠ 0
  ∧ checkCopperBoardClearances 34 st = Returned tt st'
  ∧ ∃ restrictedArea,
      getBoardClearanceArea (mBoard st) clearance = inr restrictedArea
      ∧ mMessages st'
        = mMessages st
          ++ copperBoardViolations clearance (mIgnorePlanes st)
                                   restrictedArea (mBoard st).
Proof.
  intros st st' clearance.
  assert (H1 : clearance ≠ 0) by done.
  assert (H2 : isReturned (checkCopperBoardClearances 34 st) = true)
    by (vm_compute; reflexivity).
  apply returned_final in H2.
  split; [exact H1 |]. split; [exact H2 |].
  exact (checkCopperBoardClearances_reports 34 st st' H1 H2).
Defined.

(** Property X17: the hole of the framed board against its edge, 200 µm. *)
Lemma X17_witness :
  let st := initialState framedBoard (drillBoardClearance 200000) in
  let st' := final (checkDrillBoardClearances 54 st) in
  let clearance := getMinDrillBoardClearance (mSettings st) in
  clearance ≠ 0
  ∧ checkDrillBoardClearances 54 st = Returned tt st'
  ∧ ∃ restrictedArea,
      getBoardClearanceArea (mBoard st) clearance = inr restrictedArea
      ∧ mMessages st'
        = mMessages st
          ++ drillBoardViolations clearance restrictedArea (mBoard st).
Proof.
  intros st st' clearance.
  assert (H1 : clearance ≠ 0) by done.
  assert (H2 : isReturned (checkDrillBoardClearances 54 st) = true)
    by (vm_compute; reflexivity).
  apply returned_final in H2.
  split; [exact H1 |]. split; [exact H2 |].
  exact (checkDrillBoardClearances_reports 54 st st' H1 H2).
Defined.

(** Property X19: the hole of the framed board against its copper, 200 µm. *)
Lemma X19_witness :
  let st := initialState framedBoard (copperHoleClearance 200000) in
  let st' := final (checkCopperHoleClearances 44 st) in
  let clearance := getMinCopperNpthClearance (mSettings st) in
  isUnsignedLength clearance
  ∧ clearance ≠ 0
  ∧ checkCopperHoleClearances 44 st = Returned tt st'
  ∧ ∃ copperAreas,
      anyLayerCopper st = inr copperAreas
      ∧ mMessages st'
        = mMessages st
          ++ copperHoleViolations clearance
               (clearance - maxArcTolerance - 1) copperAreas (mBoard st).
Proof.
  intros st st' clearance.
  assert (H0 : isUnsignedLength clearance)
    by (unfold isUnsignedLength, Length.max_val, clearance; simpl; lia).
  assert (H1 : clearance ≠ 0) by done.
  assert (H2 : isReturned (checkCopperHoleClearances 44 st) = true)
    by (vm_compute; reflexivity).
  apply returned_final in H2.
  split; [exact H0 |]. split; [exact H1 |]. split; [exact H2 |].
  exact (checkCopperHoleClearances_reports 44 st st' H0 H1 H2).
Defined.

(** Property X20: the annular rings of the two vias, 150 µm. *)
Lemma X20_witness :
  let st := initialState twoVias (annularRing 150000) in
  let st' := final (checkMinimumPthAnnularRing 64 st) in
  let annularWidth := getMinPthAnnularRing (mSettings st) in
  annularWidth ≠ 0
  ∧ checkMinimumPthAnnularRing 64 st = Returned tt st'
  ∧ ∃ thtCopperAreaPaths,
      allLayerCopper st = inr thtCopperAreaPaths
      ∧ mMessages st'
        = mMessages st
          ++ annularRingViolations annularWidth thtCopperAreaPaths
                                   (mBoard st).
Proof.
  intros st st' annularWidth.
  assert (H1 : annularWidth ≠ 0) by done.
  assert (H2 : isReturned (checkMinimumPthAnnularRing 64 st) = true)
    by (vm_compute; reflexivity).
  apply returned_final in H2.
  split; [exact H1 |]. split; [exact H2 |].
  exact (checkMinimumPthAnnularRing_reports 64 st st' H1 H2).
Defined.

(** Property X22: the courtyards of the two crowded devices. *)
Lemma X22_witness :
  let st := initialState crowdedBoard noChecks in
  let st' := final (checkCourtyardClearances 88 st) in
  checkCourtyardClearances 88 st = Returned tt st'
  ∧ ∃ top bottom,
      deviceCourtyards (mBoard st) topCourtyard = inr top
      ∧ deviceCourtyards (mBoard st) botCourtyard = inr bottom
      ∧ mMessages st'
        = mMessages st ++ courtyardOverlaps top ++ courtyardOverlaps bottom.
Proof.
  intros st st'.
  assert (H2 : isReturned (checkCourtyardClearances 88 st) = true)
    by (vm_compute; reflexivity).
  apply returned_final in H2.
  split; [exact H2 |].
  exact (checkCourtyardClearances_reports 88 st st' H2).
Defined.

(** Property X23: the outline of the framed board, with a tool of 2 mm. *)
Lemma X23_witness :
  let st := initialState framedBoard (outlineTool 2000000) in
  let st' := final (checkBoardOutline 91 st) in
  checkBoardOutline 91 st = Returned tt st'
  ∧ ∃ area,
      boardAreaMessages (getMinOutlineToolDiameter (mSettings st))
                        (boardOutlinePaths (mBoard st)) = inr area
      ∧ mMessages st'
        = mMessages st
          ++ openOutlinePolygons (mBoard st)
          ++ (if isEmpty (boardOutlinePaths (mBoard st))
              then [DrcMsgMissingBoardOutline] else [])
          ++ area.
Proof.
  intros st st'.
  assert (H2 : isReturned (checkBoardOutline 91 st) = true)
    by (vm_compute; reflexivity).
  apply returned_final in H2.
  split; [exact H2 |].
  exact (checkBoardOutline_reports 91 st st' H2).
Defined.

(** Property X24: a slot of two segments is flagged when single segments are
    allowed, hence when no slot is. *)
Lemma X24_witness :
  AllowedSlots.toInt AllowedSlots.None
  ≤ AllowedSlots.toInt AllowedSlots.SingleSegmentStraight
  ∧ requiresHoleSlotWarning bentSlot AllowedSlots.SingleSegmentStraight
    = true
  ∧ requiresHoleSlotWarning bentSlot AllowedSlots.None = true.
Proof.
  assert (H1 : AllowedSlots.toInt AllowedSlots.None
               ≤ AllowedSlots.toInt AllowedSlots.SingleSegmentStraight)
    by (simpl; lia).
  assert (H2 : requiresHoleSlotWarning bentSlot
                 AllowedSlots.SingleSegmentStraight = true) by reflexivity.
  split; [exact H1 |]. split; [exact H2 |].
  exact (requiresHoleSlotWarning_antitone bentSlot AllowedSlots.None
           AllowedSlots.SingleSegmentStraight H1 H2).
Defined.

End Instances.
